(** * KeepNote / TakeNote rich text <-> HTML converter

    A shallow embedding of [takenote/gui/richtext_html.py]: the stream
    transforms ([find_paragraphs], [nest_indent_tags],
    [unnest_indent_tags]), the HTML reader ([HtmlBuffer.read] and its
    [HTMLParser] callbacks, [parse_style], [process_dom_read]) and the HTML
    writer ([HtmlBuffer.write], [prepare_dom_write], [write_dom]), followed
    by the properties of the specification stated against them.

    Conventions.
    - A Python byte string is a [string]; a Python [int] is a [Z].
    - A generator is modelled by the list of everything it yields; an
      exception raised while the generator runs is the [Raise] result of
      the whole run.
    - A content stream item is the Python tuple [(kind, pos, param)].  The
      [pos] slot is never read by the converter and every item it creates
      carries [None] there, so it is left out of [item].
    - A Python list used as a stack ([append] / [pop] / [[-1]]) is a list
      whose head is the top of the stack. *)

From Stdlib Require Import String Ascii List ZArith Lia Bool Arith.
From Stdlib Require Import DecimalString DecimalZ.
Import ListNotations.
Open Scope string_scope.
Open Scope list_scope.

(** ** Exceptions and the error monad *)

Inductive exn : Type :=
| HtmlError (msg : string)        (* class HtmlError (StandardError) *)
| AssertionError
| UnboundLocalError (var : string)
| IndexError
| ValueError
| AttributeError
| TypeError
| HTMLParseError (msg : string)   (* raised by the tokenizer *)
| UnknownDom (msg : string).      (* raise Exception("unknown dom ...") *)

Inductive result (A : Type) : Type :=
| Ok (a : A)
| Raise (e : exn).
Arguments Ok {A} a.
Arguments Raise {A} e.

Definition bind {A B : Type} (c : result A) (k : A -> result B) : result B :=
  match c with
  | Ok a => k a
  | Raise e => Raise e
  end.

Notation "x <- c ;; k" := (bind c (fun x => k))
  (at level 61, c at next level, right associativity).
Notation "' p <- c ;; k" := (bind c (fun x => let p := x in k))
  (at level 61, p pattern, c at next level, right associativity).

Definition is_ok {A : Type} (r : result A) : bool :=
  match r with Ok _ => true | Raise _ => false end.

(** ** Python string operations *)

Module PyStr.

Definition nl : ascii := "010"%char.
Definition NL : string := String nl "".
Definition dquote : string := String "034"%char "".

(** [str.strip()] removes these six characters from both ends. *)
Definition is_space (c : ascii) : bool :=
  match nat_of_ascii c with
  | 9 | 10 | 11 | 12 | 13 | 32 => true
  | _ => false
  end.

Definition isdigit (c : ascii) : bool :=
  (48 <=? nat_of_ascii c)%nat && (nat_of_ascii c <=? 57)%nat.

Fixpoint lstrip (s : string) : string :=
  match s with
  | String c s' => if is_space c then lstrip s' else s
  | EmptyString => EmptyString
  end.

Fixpoint rev_string (acc s : string) : string :=
  match s with
  | EmptyString => acc
  | String c s' => rev_string (String c acc) s'
  end.

(** [s.rstrip()]: what is left of [s] once the blanks at its end are gone. *)
Fixpoint rstrip (s : string) : string :=
  match s with
  | EmptyString => EmptyString
  | String c s' =>
      match rstrip s' with
      | EmptyString => if is_space c then EmptyString else String c EmptyString
      | kept => String c kept
      end
  end.

Definition strip (s : string) : string := rstrip (lstrip s).

(** [s.split(sep)] for a one-character separator: never empty. *)
Fixpoint split (sep : ascii) (s : string) : list string :=
  match s with
  | EmptyString => [EmptyString]
  | String c s' =>
      if Ascii.eqb c sep then EmptyString :: split sep s'
      else match split sep s' with
           | p :: ps => String c p :: ps
           | [] => [String c EmptyString]
           end
  end.

Definition startswith (s p : string) : bool := prefix p s.

Definition endswith (s p : string) : bool :=
  prefix (rev_string "" p) (rev_string "" s).

(** [s[n:]] *)
Fixpoint slice_from (n : nat) (s : string) : string :=
  match n, s with
  | O, _ => s
  | S n', String _ s' => slice_from n' s'
  | S _, EmptyString => EmptyString
  end.

(** [s[i:j]] for [0 <= i], [0 <= j] *)
Definition slice (i j : nat) (s : string) : string := substring i (j - i) s.

(** [s[:-1]] *)
Definition drop_last (s : string) : string :=
  substring 0 (String.length s - 1) s.

(** ["%d" % z] *)
Definition dec (z : Z) : string := NilZero.string_of_int (Z.to_int z).

(** [s.replace(old, new)]: non-overlapping occurrences, left to right.
    [fuel] bounds the scan and is the length of [s] plus one. *)
Fixpoint replace_aux (fuel : nat) (old new s : string) : string :=
  match fuel with
  | O => s
  | S fuel' =>
      match s with
      | EmptyString => EmptyString
      | String c s' =>
          if prefix old s
          then new ++ replace_aux fuel' old new (slice_from (String.length old) s)
          else String c (replace_aux fuel' old new s')
      end
  end.

Definition replace (old new s : string) : string :=
  replace_aux (S (String.length s)) old new s.

Fixpoint filter (f : ascii -> bool) (s : string) : string :=
  match s with
  | EmptyString => EmptyString
  | String c s' => if f c then String c (filter f s') else filter f s'
  end.

End PyStr.
Import PyStr.

(** ** Tag model

    [takenote/gui/richtextbuffer.py] is not among the sources; the tag
    classes are the ones [richtext_html.py] imports and tests with
    [isinstance], with the parameters the specification's data model gives
    them. *)

(** Item type of an indent or paragraph: the strings ["none"] and
    ["bullet"]. *)
Inductive par_kind : Type := par_none | par_bullet.

Definition par_name (k : par_kind) : string :=
  match k with par_none => "none" | par_bullet => "bullet" end.

Definition par_kind_eqb (a b : par_kind) : bool :=
  match a, b with
  | par_none, par_none | par_bullet, par_bullet => true
  | _, _ => false
  end.

Inductive RichTextTag : Type :=
| RichTextModTag (name : string)
| RichTextFamilyTag (family : string)
| RichTextSizeTag (size : Z)
| RichTextJustifyTag (justify : string)
| RichTextFGColorTag (color : string)
| RichTextBGColorTag (color : string)
| RichTextIndentTag (indent : Z) (par_indent : par_kind)
| RichTextBulletTag
| RichTextParTag (kind : par_kind)          (* defined in richtext_html.py *)
| RichTextPlainTag (name : string).         (* RichTextTag(name), e.g. LI_TAG *)

Definition LI_TAG : RichTextTag := RichTextPlainTag "li".
Definition P_TAG : RichTextTag := RichTextParTag par_none.
Definition P_BULLET_TAG : RichTextTag := RichTextParTag par_bullet.

Definition is_indent_tag (t : RichTextTag) : bool :=
  match t with RichTextIndentTag _ _ => true | _ => false end.

(** Modelled from the spec: [RichTextIndentTag.tag_name], which is not among
    the sources.  [nest_indent_tags] calls it with the level alone; the name
    of an indent tag is ["indent <level> <parType>"] (the format
    [unnest_indent_tags] writes out), with the item type left at its default
    ["none"]. *)
Definition tag_name (indent : Z) : string :=
  "indent " ++ dec indent ++ " none".

(** [tag_table.lookup]: the registry of the embedding application, from tag
    names to tags.  It is an argument of [nest_indent_tags] and of
    [HtmlBuffer.write]. *)
Definition TagTable : Type := string -> RichTextTag.

(** Embedded objects of the text buffer. *)
Inductive anchor_obj : Type :=
| RichTextImage (filename : option string) (width height : option Z)
| RichTextHorizontalRule
| UnknownAnchor.

(** Content stream items, by [kind]. *)
Inductive item : Type :=
| Text (s : string)              (* ("text", pos, s) *)
| Anchor (a : anchor_obj)        (* ("anchor", pos, (a, widgets)) *)
| BeginTag (t : RichTextTag)     (* ("begin", pos, t) *)
| EndTag (t : RichTextTag)       (* ("end", pos, t) *)
| BeginStr (s : string)          (* ("beginstr", pos, s) *)
| EndStr (s : string).           (* ("endstr", pos, s) *)

(** BULLET_STR = u"• ", here in its UTF-8 encoding. *)
Definition BULLET_STR : string :=
  String "226"%char (String "128"%char (String "162"%char " ")).

(** ** Stream transforms *)

Module Stream.

(** *** [nest_indent_tags] *)

(** [while ...: yield ("end", None, lookup(tag_name(indent))); indent -= 1],
    run [n] times. *)
Fixpoint close_indents (tag_table : TagTable) (n : nat) (indent : Z)
  : list item * Z :=
  match n with
  | O => ([], indent)
  | S n' =>
      let '(out, indent') := close_indents tag_table n' (indent - 1) in
      (EndTag (tag_table (tag_name indent)) :: out, indent')
  end.

(** [while indent < next_indent: indent += 1; assert indent > 0;
    yield ("begin", None, lookup(tag_name(indent)))], run [n] times. *)
Fixpoint open_indents (tag_table : TagTable) (n : nat) (indent : Z)
  : result (list item * Z) :=
  match n with
  | O => Ok ([], indent)
  | S n' =>
      let indent1 := (indent + 1)%Z in
      if (0 <? indent1)%Z then
        '(out, indent') <- open_indents tag_table n' indent1 ;;
        Ok (BeginTag (tag_table (tag_name indent1)) :: out, indent')
      else Raise AssertionError
  end.

Record nest_state : Type := mk_nest {
  nest_indent : Z;
  indent_closing : bool
}.

(** The first half of the loop body: what a pending close does with the
    item that follows it. *)
Definition nest_closing (tag_table : TagTable) (st : nest_state) (it : item)
  : list item * nest_state :=
  if indent_closing st then
    match it with
    | Anchor _ | Text _ =>
        let '(out, indent') :=
          close_indents tag_table (Z.to_nat (nest_indent st)) (nest_indent st) in
        (out, mk_nest indent' false)
    | BeginTag (RichTextIndentTag next_indent _) =>
        let '(out, indent') :=
          close_indents tag_table (Z.to_nat (nest_indent st - next_indent))
                        (nest_indent st) in
        (out, mk_nest indent' false)
    | _ => ([], st)
    end
  else ([], st).

(** The second half: "yield items". *)
Definition nest_yield (tag_table : TagTable) (st : nest_state) (it : item)
  : result (list item * nest_state) :=
  match it with
  | BeginTag (RichTextIndentTag next_indent _) =>
      if (next_indent >=? nest_indent st)%Z then
        '(out, indent') <-
          open_indents tag_table (Z.to_nat (next_indent - nest_indent st))
                       (nest_indent st) ;;
        Ok (out, mk_nest indent' (indent_closing st))
      else Raise AssertionError
  | EndTag (RichTextIndentTag _ _) =>
      Ok ([], mk_nest (nest_indent st) true)
  | _ => Ok ([it], st)
  end.

Definition nest_item (tag_table : TagTable) (st : nest_state) (it : item)
  : result (list item * nest_state) :=
  let '(out1, st1) := nest_closing tag_table st it in
  '(out2, st2) <- nest_yield tag_table st1 it ;;
  Ok (out1 ++ out2, st2).

(** The [for item in contents] loop, from state [st]. *)
Fixpoint nest_loop (tag_table : TagTable) (st : nest_state)
         (contents : list item) : result (list item * nest_state) :=
  match contents with
  | [] => Ok ([], st)
  | it :: rest =>
      '(out1, st1) <- nest_item tag_table st it ;;
      '(out2, st2) <- nest_loop tag_table st1 rest ;;
      Ok (out1 ++ out2, st2)
  end.

(** "close all remaining indents" *)
Definition nest_finish (tag_table : TagTable) (st : nest_state)
  : list item * nest_state :=
  let '(out, indent') :=
    close_indents tag_table (Z.to_nat (nest_indent st)) (nest_indent st) in
  (out, mk_nest indent' (indent_closing st)).

Definition nest_init : nest_state := mk_nest 0 false.

(** The run with its final state (the local variables when the generator
    is exhausted). *)
Definition nest_run (tag_table : TagTable) (contents : list item)
  : result (list item * nest_state) :=
  '(out, st) <- nest_loop tag_table nest_init contents ;;
  let '(out', st') := nest_finish tag_table st in
  Ok (out ++ out', st').

Definition nest_indent_tags (contents : list item) (tag_table : TagTable)
  : result (list item) :=
  '(out, _) <- nest_run tag_table contents ;;
  Ok out.

(** *** [unnest_indent_tags] *)

Record unnest_state : Type := mk_unnest {
  unnest_indent : Z;            (* level of indent *)
  li_stack : list string        (* stack of open indents, top first *)
}.

(** ["indent %d %s" % (indent, par_type)] *)
Definition indent_tagstr (indent : Z) (par_type : string) : string :=
  "indent " ++ dec indent ++ " " ++ par_type.

Definition unnest_item (st : unnest_state) (it : item)
  : result (list item * unnest_state) :=
  match it with
  | BeginStr param =>
      if String.eqb param "ol" then
        Ok ([], mk_unnest (unnest_indent st + 1) (li_stack st))
      else if startswith param "li" then
        let closing :=
          match li_stack st with
          | top :: _ => [EndStr top]
          | [] => []
          end in
        let par_type := slice_from 3 param in
        let tagstr := indent_tagstr (unnest_indent st) par_type in
        let bullet :=
          if String.eqb par_type "bullet"
          then [BeginStr "bullet"; Text BULLET_STR; EndStr "bullet"]
          else [] in
        Ok (closing ++ [BeginStr tagstr] ++ bullet,
            mk_unnest (unnest_indent st) (tagstr :: li_stack st))
      else Ok ([it], st)
  | EndStr param =>
      if String.eqb param "ol" then
        Ok ([], mk_unnest (unnest_indent st - 1) (li_stack st))
      else if startswith param "li" then
        let par_type := slice_from 3 param in
        match li_stack st with
        | [] => Raise IndexError            (* li_stack.pop() on [] *)
        | _ :: stack' =>
            let resume :=
              match stack' with
              | top :: _ => [BeginStr top]
              | [] => []
              end in
            Ok (EndStr (indent_tagstr (unnest_indent st) par_type) :: resume,
                mk_unnest (unnest_indent st) stack')
        end
      else Ok ([it], st)
  | _ => Ok ([it], st)
  end.

Fixpoint unnest_loop (st : unnest_state) (contents : list item)
  : result (list item * unnest_state) :=
  match contents with
  | [] => Ok ([], st)
  | it :: rest =>
      '(out1, st1) <- unnest_item st it ;;
      '(out2, st2) <- unnest_loop st1 rest ;;
      Ok (out1 ++ out2, st2)
  end.

Definition unnest_init : unnest_state := mk_unnest 0 [].

Definition unnest_indent_tags (contents : list item) : result (list item) :=
  '(out, _) <- unnest_loop unnest_init contents ;;
  Ok out.

(** *** [find_paragraphs] *)

(** [pars = {"none": P_TAG, "bullet": P_BULLET_TAG}] *)
Definition pars (par_type : par_kind) : RichTextTag :=
  match par_type with
  | par_none => P_TAG
  | par_bullet => P_BULLET_TAG
  end.

Record par_state : Type := mk_par {
  within_par : bool;
  others : list item;
  par_type : par_kind;
  par_stack : list RichTextTag;
  (* the loop variable [j] of [for j, c in enumerate(text)]: a local of the
     generator, unbound until the first iteration of that loop *)
  loop_j : option nat
}.

(** [if not within_par: within_par = True; yield ("begin", None,
    pars[par_type]); par_stack.append(pars[par_type])] *)
Definition open_par (par_type : par_kind) (within : bool)
           (stack : list RichTextTag) : list item * list RichTextTag :=
  if within then ([], stack)
  else ([BeginTag (pars par_type)], pars par_type :: stack).

(** [for j, c in enumerate(text)], on the characters [cs] that remain, the
    next index being [j].  Returns what was yielded and the locals
    [within_par], [par_stack], [i], [j] after the loop. *)
Fixpoint text_loop (text : string) (par_type : par_kind) (cs : string)
         (j : nat) (within : bool) (stack : list RichTextTag) (i : nat)
         (last_j : option nat)
  : result (list item * (bool * list RichTextTag * nat * option nat)) :=
  match cs with
  | EmptyString => Ok ([], (within, stack, i, last_j))
  | String c cs' =>
      let '(out1, stack1) := open_par par_type within stack in
      if Ascii.eqb c nl then
        match stack1 with
        | [] => Raise IndexError          (* par_stack.pop() on [] *)
        | top :: stack2 =>
            '(out2, fin) <-
              text_loop text par_type cs' (S j) false stack2 (j + 1) (Some j) ;;
            Ok (out1 ++ [Text (slice i (j + 1) text); EndTag top] ++ out2, fin)
        end
      else
        '(out2, fin) <-
          text_loop text par_type cs' (S j) true stack1 i (Some j) ;;
        Ok (out1 ++ out2, fin)
  end.

Definition par_item (st : par_state) (it : item)
  : result (list item * par_state) :=
  match it with
  | Text text =>
      let out0 := others st in
      let '(out1, stack1) :=
        open_par (par_type st) (within_par st) (par_stack st) in
      '(out2, fin) <-
        text_loop text (par_type st) text 0 true stack1 0 (loop_j st) ;;
      let '(within2, stack2, i, j) := fin in
      match j with
      | None => Raise (UnboundLocalError "j")
      | Some jv =>
          if (i <? jv + 1)%nat then
            (* yield remaining text *)
            let '(out3, stack3) := open_par (par_type st) within2 stack2 in
            Ok (out0 ++ out1 ++ out2 ++ out3 ++ [Text (slice i (jv + 1) text)],
                mk_par true [] (par_type st) stack3 j)
          else
            Ok (out0 ++ out1 ++ out2,
                mk_par within2 [] (par_type st) stack2 j)
      end
  | Anchor _ =>
      let out0 := others st in
      let '(out1, stack1) :=
        open_par (par_type st) (within_par st) (par_stack st) in
      Ok (out0 ++ out1 ++ [it],
          mk_par true [] (par_type st) stack1 (loop_j st))
  | _ =>
      (* pass other items through *)
      let par_type' :=
        match it with
        | BeginTag (RichTextIndentTag _ par_indent) => par_indent
        | _ => par_type st
        end in
      Ok ([], mk_par (within_par st) (others st ++ [it]) par_type'
                     (par_stack st) (loop_j st))
  end.

Fixpoint par_loop (st : par_state) (contents : list item)
  : result (list item * par_state) :=
  match contents with
  | [] => Ok ([], st)
  | it :: rest =>
      '(out1, st1) <- par_item st it ;;
      '(out2, st2) <- par_loop st1 rest ;;
      Ok (out1 ++ out2, st2)
  end.

(** After the loop: close the open paragraph, then flush [others]. *)
Definition par_finish (st : par_state) : result (list item) :=
  if within_par st then
    match par_stack st with
    | [] => Raise IndexError
    | top :: _ => Ok (EndTag top :: others st)
    end
  else Ok (others st).

Definition par_init : par_state := mk_par false [] par_none [] None.

Definition find_paragraphs (contents : list item) : result (list item) :=
  '(out, st) <- par_loop par_init contents ;;
  out' <- par_finish st ;;
  Ok (out ++ out').

End Stream.
Import Stream.

(** ** Document tree

    [takenote/gui/textbuffer_tools.py] (the Dom classes and the linked tree
    they derive from) is not among the sources.  Modelled from the spec: a
    node is a text node, an anchor node or an element with an ordered list
    of owned children, under a synthetic root without a tag; the tree is
    changed in place by append, insert-before, remove and replace-child.

    A node object is addressed by its [path] from the root (the position of
    each ancestor among its siblings), and the tree is passed along as the
    store those paths point into. *)

Module DomTree.

Inductive dom_kind : Type :=
| TextBufferDom                       (* the root container *)
| TextDom (text : string)
| AnchorDom (anchor : anchor_obj)
| TagDom (tag : RichTextTag)
| LiHtmlTagDom (kind : par_kind)      (* HtmlTagDom.__init__(self, LI_TAG) *)
| TagNameDom (tagname : string).

#[warnings="-register-all"]
Inductive Dom : Type :=
| Node (k : dom_kind) (children : list Dom).

Definition path : Type := list nat.

Definition kind_of (d : Dom) : dom_kind :=
  match d with Node k _ => k end.

Definition children_of (d : Dom) : list Dom :=
  match d with Node _ cs => cs end.

Definition is_leaf (d : Dom) : bool :=
  match children_of d with [] => true | _ => false end.

(** [isinstance(node, TagDom)] and [node.tag] *)
Definition tag_of (k : dom_kind) : option RichTextTag :=
  match k with
  | TagDom tag => Some tag
  | LiHtmlTagDom _ => Some LI_TAG
  | _ => None
  end.

Definition is_tagname (name : string) (k : dom_kind) : bool :=
  match k with
  | TagNameDom tagname => String.eqb tagname name
  | _ => false
  end.

Definition text_node (s : string) : Dom := Node (TextDom s) [].

Fixpoint get (d : Dom) (p : path) : option Dom :=
  match p with
  | [] => Some d
  | i :: p' =>
      match nth_error (children_of d) i with
      | Some c => get c p'
      | None => None
      end
  end.

Fixpoint update_nth {A : Type} (i : nat) (f : A -> A) (l : list A) : list A :=
  match l, i with
  | [], _ => []
  | x :: l', O => f x :: l'
  | x :: l', S i' => x :: update_nth i' f l'
  end.

(** Apply [f] to the node at [p]. *)
Fixpoint update (p : path) (f : Dom -> Dom) (d : Dom) : Dom :=
  match p with
  | [] => f d
  | i :: p' => Node (kind_of d) (update_nth i (update p' f) (children_of d))
  end.

(** [node.append_child(child)] for the node at [p] *)
Definition append_child (p : path) (child : Dom) (d : Dom) : Dom :=
  update p (fun n => Node (kind_of n) (children_of n ++ [child])) d.

(** [node.last_child()] for the node at [p] *)
Definition last_child (d : Dom) (p : path) : option Dom :=
  match get d p with
  | Some n => List.last (map Some (children_of n)) None
  | None => None
  end.

Definition num_children (d : Dom) (p : path) : nat :=
  match get d p with
  | Some n => List.length (children_of n)
  | None => O
  end.

(** [get_contents()]: the tree flattened back into a content stream, one
    item per text or anchor node and a begin/end pair around the children of
    each element. *)
Fixpoint visit_contents (d : Dom) : list item :=
  match d with
  | Node k children =>
      let inner := flat_map visit_contents children in
      match k with
      | TextBufferDom => inner
      | TextDom text => [Text text]
      | AnchorDom a => [Anchor a]
      | TagDom tag => BeginTag tag :: inner ++ [EndTag tag]
      | LiHtmlTagDom _ => BeginTag LI_TAG :: inner ++ [EndTag LI_TAG]
      | TagNameDom tagname => BeginStr tagname :: inner ++ [EndStr tagname]
      end
  end.

Definition get_contents (d : Dom) : list item := visit_contents d.

End DomTree.
Import DomTree.

(** ** Reading HTML *)

Module Reader.

(** What the tokenizer ([HTMLParser.feed] / [close], Python's library) calls
    back with.  An attribute without a value comes with [None]. *)
Inductive parse_event : Type :=
| StartTag (htmltag : string) (attrs : list (string * option string))
| EndTagEv (htmltag : string)
| Data (data : string)
| EntityRef (name : string)
| CharRef (name : string)
| ParseFail (msg : string).       (* the tokenizer raises HTMLParseError *)

Record HtmlBuffer : Type := mk_buffer {
  _newline : bool;
  _tag_stack : list (option string * path);    (* top first *)
  _within_body : bool;
  _partial : bool;
  _dom : Dom;
  _dom_ptr : path
}.

(** The state a callback leaves behind, and the exception it raised, if
    any: what has been built stays built when a callback raises. *)
Definition outcome : Type := (HtmlBuffer * option exn)%type.

Definition set_newline (b : bool) (hb : HtmlBuffer) : HtmlBuffer :=
  mk_buffer b (_tag_stack hb) (_within_body hb) (_partial hb)
            (_dom hb) (_dom_ptr hb).

Definition set_dom (d : Dom) (hb : HtmlBuffer) : HtmlBuffer :=
  mk_buffer (_newline hb) (_tag_stack hb) (_within_body hb) (_partial hb)
            d (_dom_ptr hb).

(** [self._dom_ptr.append_child(node)] *)
Definition append_node (node : Dom) (hb : HtmlBuffer) : HtmlBuffer :=
  set_dom (append_child (_dom_ptr hb) node (_dom hb)) hb.

(** [tag = TagNameDom(tagstr); self._dom_ptr.append_child(tag);
    self._dom_ptr = tag] *)
Definition open_tagname (tagstr : string) (hb : HtmlBuffer) : HtmlBuffer :=
  let ptr := _dom_ptr hb in
  let tag_ptr := ptr ++ [num_children (_dom hb) ptr] in
  mk_buffer (_newline hb) (_tag_stack hb) (_within_body hb) (_partial hb)
            (append_child ptr (Node (TagNameDom tagstr) []) (_dom hb))
            tag_ptr.

Definition add_text (more : string) (n : Dom) : Dom :=
  match n with
  | Node (TextDom text) cs => Node (TextDom (text ++ more)) cs
  | _ => n
  end.

Definition append_text (text : string) (hb : HtmlBuffer) : HtmlBuffer :=
  if (0 <? String.length text)%nat then
    let ptr := _dom_ptr hb in
    match last_child (_dom hb) ptr with
    | Some (Node (TextDom _) _) =>
        (* last_child.text += text *)
        set_dom (update (ptr ++ [num_children (_dom hb) ptr - 1])
                        (add_text text) (_dom hb)) hb
    | _ => append_node (text_node text) hb
    end
  else hb.

(** *** [parse_style] *)

Definition _justify : list string :=
  ["left"; "center"; "right"; "fill"; "justify"].

Definition str_in (s : string) (l : list string) : bool :=
  existsb (String.eqb s) l.

(** [xs[1]] *)
Definition second (xs : list string) : result string :=
  match xs with
  | _ :: x :: _ => Ok x
  | _ => Raise IndexError
  end.

(** [int(s)] for a string of decimal digits. *)
Fixpoint digits_value (acc : Z) (s : string) : Z :=
  match s with
  | EmptyString => acc
  | String c s' =>
      digits_value (10 * acc + (Z.of_nat (nat_of_ascii c) - 48))%Z s'
  end.

Definition int_of_digits (s : string) : result Z :=
  match s with
  | EmptyString => Raise ValueError
  | _ => Ok (digits_value 0 s)
  end.

(** [if len(c) == 4: x, a, b, c = c; c = x + a + a + b + b + c + c] *)
Definition expand_color (color : string) : string :=
  match color with
  | String x (String a (String b (String c EmptyString))) =>
      String x (String a (String a (String b (String b
        (String c (String c EmptyString))))))
  | _ => color
  end.

(** The body of [if color.startswith("#"): ...] shared by the two colour
    branches: the tag string, if one is made. *)
Definition color_tagstr (prefix_ : string) (color : string) : option string :=
  if startswith color "#" then
    let color' := expand_color color in
    if (String.length color' =? 7)%nat then Some (prefix_ ++ color')%string
    else None
  else None.

(** One [statement] of the loop, already stripped: the value of [tagstr]
    when the chain of [if]s is through. *)
Definition style_tagstr (statement : string) : result (option string) :=
  if startswith statement "font-size" then
    value <- second (split ":" statement) ;;
    size <- int_of_digits (filter isdigit value) ;;
    Ok (Some ("size " ++ dec size)%string)
  else if startswith statement "font-family" then
    value <- second (split ":" statement) ;;
    Ok (Some ("family " ++ strip value)%string)
  else if startswith statement "text-align" then
    value <- second (split ":" statement) ;;
    let align := strip value in
    if negb (str_in align _justify) then
      Raise (HtmlError ("unknown justification '" ++ align ++ "'"))
    else if String.eqb align "justify" then Ok (Some "fill")
    else Ok (Some align)
  else if startswith statement "color" then
    value <- second (split ":" statement) ;;
    Ok (color_tagstr "fg_color " (strip value))
  else if startswith statement "background-color" then
    value <- second (split ":" statement) ;;
    Ok (color_tagstr "bg_color " (strip value))
  else Ok None.

Fixpoint parse_statements (statements : list string) (hb : HtmlBuffer)
  : outcome :=
  match statements with
  | [] => (hb, None)
  | statement :: rest =>
      match style_tagstr (strip statement) with
      | Raise e => (hb, Some e)
      | Ok None => parse_statements rest hb
      | Ok (Some tagstr) => parse_statements rest (open_tagname tagstr hb)
      end
  end.

Definition parse_style (stylestr : option string) (hb : HtmlBuffer)
  : outcome :=
  match stylestr with
  | None => (hb, Some AttributeError)      (* None.split *)
  | Some s => parse_statements (split ";" s) hb
  end.

(** *** [parse_image] *)

(** [int(value)] of Python 2: optional surrounding blanks, an optional
    sign, optional blanks after the sign, digits. *)
Definition py_int (value : string) : option Z :=
  let v := strip value in
  let '(neg, body) :=
    match v with
    | String "-"%char r => (true, lstrip r)
    | String "+"%char r => (false, lstrip r)
    | _ => (false, v)
    end in
  match body with
  | EmptyString => None
  | _ =>
      if String.eqb (filter isdigit body) body
      then Some (if neg then (- digits_value 0 body)%Z else digits_value 0 body)
      else None
  end.

(** [try: dim = int(value) except ValueError: pass] *)
Definition parse_dim (old : option Z) (value : option string)
  : result (option Z) :=
  match value with
  | None => Raise TypeError                (* int(None) *)
  | Some v =>
      match py_int v with
      | Some z => Ok (Some z)
      | None => Ok old
      end
  end.

(** The loop over [attrs], with the locals [img.filename], [width] and
    [height]. *)
Fixpoint parse_image_attrs (attrs : list (string * option string))
         (filename : option string) (width height : option Z)
  : result anchor_obj :=
  match attrs with
  | [] => Ok (RichTextImage filename width height)   (* img.scale(w, h) *)
  | (key, value) :: rest =>
      if String.eqb key "src" then
        parse_image_attrs rest value width height
      else if String.eqb key "width" then
        width' <- parse_dim width value ;;
        parse_image_attrs rest filename width' height
      else if String.eqb key "height" then
        height' <- parse_dim height value ;;
        parse_image_attrs rest filename width height'
      else parse_image_attrs rest filename width height
  end.

Definition parse_image (attrs : list (string * option string))
  : result anchor_obj :=
  parse_image_attrs attrs None None None.

(** *** [handle_starttag] *)

Definition _html2buffer_tag : list (string * string) :=
  [("b", "bold"); ("i", "italic"); ("u", "underline"); ("nobr", "nowrap")].

Fixpoint lookup_str (key : string) (table : list (string * string))
  : option string :=
  match table with
  | [] => None
  | (k, v) :: rest => if String.eqb key k then Some v else lookup_str key rest
  end.

(** [for key, value in attrs: if key == "style": self.parse_style(value)] *)
Fixpoint style_attrs (attrs : list (string * option string))
         (hb : HtmlBuffer) : outcome :=
  match attrs with
  | [] => (hb, None)
  | (key, value) :: rest =>
      if String.eqb key "style" then
        match parse_style value hb with
        | (hb', None) => style_attrs rest hb'
        | failed => failed
        end
      else style_attrs rest hb
  end.

(** The statements of one [style] value of a [li]: the new [par_type]. *)
Fixpoint li_statements (statements : list string) (par_type : string)
  : result string :=
  match statements with
  | [] => Ok par_type
  | statement :: rest =>
      match split ":" statement with
      | [key2; value2] =>
          let value2 := strip value2 in
          if String.eqb (strip key2) "list-style-type"
             && String.eqb value2 "disc"
          then li_statements rest "bullet"
          else li_statements rest par_type
      | _ => Raise ValueError         (* key2, value2 = ... does not unpack *)
      end
  end.

Fixpoint li_attrs (attrs : list (string * option string)) (par_type : string)
  : result string :=
  match attrs with
  | [] => Ok par_type
  | (key, value) :: rest =>
      if String.eqb key "style" then
        match value with
        | None => Raise AttributeError
        | Some v =>
            par_type' <- li_statements (split ";" v) par_type ;;
            li_attrs rest par_type'
        end
      else li_attrs rest par_type
  end.

Definition handle_starttag (htmltag : string)
           (attrs : list (string * option string)) (hb : HtmlBuffer)
  : outcome :=
  (* self._newline = False; self._tag_stack.append((htmltag, self._dom_ptr)) *)
  let hb :=
    mk_buffer false ((Some htmltag, _dom_ptr hb) :: _tag_stack hb)
              (_within_body hb) (_partial hb) (_dom hb) (_dom_ptr hb) in
  if String.eqb htmltag "html" then (hb, None)
  else if String.eqb htmltag "body" then
    (mk_buffer (_newline hb) (_tag_stack hb) true (_partial hb)
               (_dom hb) (_dom_ptr hb), None)
  else
    match lookup_str htmltag _html2buffer_tag with
    | Some tagstr => (open_tagname tagstr hb, None)
    | None =>
        if String.eqb htmltag "span" then style_attrs attrs hb
        else if String.eqb htmltag "div" then style_attrs attrs hb
        else if String.eqb htmltag "p" then (append_text NL hb, None)
        else if String.eqb htmltag "br" then
          (set_newline true (append_text NL hb), None)
        else if String.eqb htmltag "hr" then
          (append_text NL
             (append_node (Node (AnchorDom RichTextHorizontalRule) [])
                (append_text NL hb)), None)
        else if String.eqb htmltag "img" then
          match parse_image attrs with
          | Ok img => (append_node (Node (AnchorDom img) []) hb, None)
          | Raise e => (hb, Some e)
          end
        else if String.eqb htmltag "ul" || String.eqb htmltag "ol" then
          (open_tagname "ol" hb, None)
        else if String.eqb htmltag "li" then
          match li_attrs attrs "none" with
          | Ok par_type => (open_tagname ("li " ++ par_type) hb, None)
          | Raise e => (hb, Some e)
          end
        else (hb, None)
    end.

(** *** [handle_endtag] *)

(** [while len(self._tag_stack) > 0 and htmltag2 != htmltag:
    htmltag2, self._dom_ptr = self._tag_stack.pop()] *)
Fixpoint pop_until (htmltag : string) (htmltag2 : option string)
         (ptr : path) (stack : list (option string * path))
  : path * list (option string * path) :=
  match stack with
  | [] => (ptr, [])
  | (tag', ptr') :: stack' =>
      match htmltag2 with
      | Some t => if String.eqb t htmltag then (ptr, stack)
                  else pop_until htmltag tag' ptr' stack'
      | None => pop_until htmltag tag' ptr' stack'
      end
  end.

Definition handle_endtag (htmltag : string) (hb : HtmlBuffer) : HtmlBuffer :=
  if negb (_partial hb)
     && (String.eqb htmltag "html" || String.eqb htmltag "body"
         || negb (_within_body hb))
  then hb
  else
    (* keep track of newline status *)
    let hb := if negb (String.eqb htmltag "br") then set_newline false hb
              else hb in
    let hb :=
      if String.eqb htmltag "ul" || String.eqb htmltag "ol"
         || String.eqb htmltag "li"
      then set_newline true hb
      else if String.eqb htmltag "p" then append_text NL hb
      else hb in
    (* pop dom stack *)
    match _tag_stack hb with
    | [] => hb
    | (htmltag2, ptr) :: stack =>
        let '(ptr', stack') := pop_until htmltag htmltag2 ptr stack in
        mk_buffer (_newline hb) stack' (_within_body hb) (_partial hb)
                  (_dom hb) ptr'
    end.

(** *** [handle_data] *)

Definition is_blank (c : ascii) : bool :=
  Ascii.eqb c nl || Ascii.eqb c " "%char.

(** [while] the string starts with a character of [[\n ]], drop it. *)
Fixpoint skip_blanks (s : string) : string :=
  match s with
  | String c s' => if is_blank c then skip_blanks s' else s
  | EmptyString => EmptyString
  end.

(** [re.sub("[\n ]+", " ", data)]: every leftmost-longest match, that is
    every maximal run of newlines and spaces, becomes one space.  [in_run]
    says that the character before was part of the current match. *)
Fixpoint collapse_from (in_run : bool) (s : string) : string :=
  match s with
  | EmptyString => EmptyString
  | String c s' =>
      if is_blank c then
        if in_run then collapse_from true s'
        else String " "%char (collapse_from true s')
      else String c (collapse_from false s')
  end.

Definition collapse_blanks (data : string) : string :=
  collapse_from false data.

(** [re.sub("^\n[\n ]*", "", data)]: one match at most, at the start of
    the string, and only if the string starts with a newline. *)
Definition strip_leading_newline (data : string) : string :=
  match data with
  | String c s' => if Ascii.eqb c nl then skip_blanks s' else data
  | EmptyString => EmptyString
  end.

(** The string [handle_data] hands to [append_text], given [self._newline]. *)
Definition data_text (newline : bool) (data : string) : string :=
  if newline then collapse_blanks (strip_leading_newline data)
  else collapse_blanks data.

Definition handle_data (data : string) (hb : HtmlBuffer) : HtmlBuffer :=
  if negb (_partial hb) && negb (_within_body hb) then hb
  else
    let data' := data_text (_newline hb) data in
    let hb := if _newline hb then set_newline false hb else hb in
    if (0 <? String.length data')%nat then append_text data' hb else hb.

(** *** Entity and character references *)

Definition _entity_char_map : list (string * string) :=
  [("&", "amp"); (">", "gt"); ("<", "lt"); (" ", "nbsp")].

(** [self._entity2char], filled from [_entity_char_map] *)
Definition _entity2char : list (string * string) :=
  rev (map (fun '(ch, name) => (name, ch)) _entity_char_map).

Definition _charref2char : list (string * string) :=
  [("09", String "009"%char "")].

Definition dict_get (table : list (string * string)) (key default : string)
  : string :=
  match lookup_str key table with
  | Some v => v
  | None => default
  end.

Definition handle_entityref (name : string) (hb : HtmlBuffer) : HtmlBuffer :=
  if negb (_partial hb) && negb (_within_body hb) then hb
  else append_text (dict_get _entity2char name "") hb.

Definition handle_charref (name : string) (hb : HtmlBuffer) : HtmlBuffer :=
  if negb (_partial hb) && negb (_within_body hb) then hb
  else append_text (dict_get _charref2char name "") hb.

(** *** [process_dom_read] *)

Definition last_child_is_ol (children : list Dom) : bool :=
  match List.last (map Some children) None with
  | Some c => is_tagname "ol" (kind_of c)
  | None => false
  end.

Definition is_li_tagname (k : dom_kind) : bool :=
  match k with
  | TagNameDom tagname => startswith tagname "li"
  | _ => false
  end.

(** [walk(node)], as the nodes that stand at the place of [node] among its
    siblings afterwards.  [has_prev] is [node.prev_sibling()]: the loop
    [for child in list(node)] runs over the children as they were before it
    started, and only the first of them has no sibling before it.  The
    newline appended to a list item is one of the children walked; walking a
    text node leaves it as it is. *)
Fixpoint walk_read (has_prev : bool) (node : Dom) : list Dom :=
  match node with
  | Node k children =>
      let before :=
        if is_tagname "ol" k && has_prev then [text_node NL] else [] in
      let implied :=
        if is_li_tagname k && negb (last_child_is_ol children)
        then [text_node NL] else [] in
      let walked :=
        (fix walk_children (first : bool) (cs : list Dom) : list Dom :=
           match cs with
           | [] => []
           | c :: cs' => walk_read (negb first) c ++ walk_children false cs'
           end) true children in
      before ++ [Node k (walked ++ implied)]
  end.

(** [walk(dom)] on the root, which has no parent to insert into. *)
Definition process_dom_read (dom : Dom) : Dom :=
  match walk_read false dom with
  | [dom'] => dom'
  | _ => dom
  end.

(** *** [read] *)

Definition handle_event (ev : parse_event) (hb : HtmlBuffer) : outcome :=
  match ev with
  | StartTag htmltag attrs => handle_starttag htmltag attrs hb
  | EndTagEv htmltag => (handle_endtag htmltag hb, None)
  | Data data => (handle_data data hb, None)
  | EntityRef name => (handle_entityref name hb, None)
  | CharRef name => (handle_charref name hb, None)
  | ParseFail msg => (hb, Some (HTMLParseError msg))
  end.

(** [for line in infile: self.feed(line)] and [self.close()], as the
    callbacks they make, up to the first exception. *)
Fixpoint feed_events (events : list parse_event) (hb : HtmlBuffer)
  : outcome :=
  match events with
  | [] => (hb, None)
  | ev :: rest =>
      match handle_event ev hb with
      | (hb', None) => feed_events rest hb'
      | failed => failed
      end
  end.

(** [HtmlBuffer.__init__] *)
Definition HtmlBuffer_init : HtmlBuffer :=
  mk_buffer false [] false false (Node TextBufferDom []) [].

(** The assignments at the head of [read]. *)
Definition read_begin (self : HtmlBuffer) (partial : bool) : HtmlBuffer :=
  mk_buffer (_newline self) [(None, [])] false partial
            (Node TextBufferDom []) [].

(** [self.process_dom_read(self._dom);
    return unnest_indent_tags(self._dom.get_contents())] *)
Definition read_finish (hb : HtmlBuffer) : result (list item) :=
  unnest_indent_tags (get_contents (process_dom_read (_dom hb))).

(** [read], on the callbacks the tokenizer makes for [infile]. *)
Definition read_events (self : HtmlBuffer) (events : list parse_event)
           (partial ignore_errors : bool) : result (list item) :=
  let '(hb, raised) := feed_events events (read_begin self partial) in
  match raised with
  | Some e =>
      (* reraise error if not ignored *)
      if negb ignore_errors then Raise e else read_finish hb
  | None => read_finish hb
  end.

End Reader.
Import Reader.

(** ** The tokenizer

    [HTMLParser] is Python's library class, not code of the converter.
    Modelled from the spec ("an incremental tag/text/entity-event parser"):
    start tags with their attributes, end tags, empty-element tags (a start
    and an end callback), entity and character references, character data,
    with declarations, comments and processing instructions skipped.  Tag
    and attribute names are lowercased.  [read] feeds the input line by
    line and the parser hands over the character data it has at the end of
    each [feed], so a data callback never extends past a newline. *)

Module Tokenizer.

Definition lower (c : ascii) : ascii :=
  let n := nat_of_ascii c in
  if (65 <=? n)%nat && (n <=? 90)%nat then ascii_of_nat (n + 32) else c.

Fixpoint lower_string (s : string) : string :=
  match s with
  | EmptyString => EmptyString
  | String c s' => String (lower c) (lower_string s')
  end.

Definition is_alpha (c : ascii) : bool :=
  let n := nat_of_ascii (lower c) in (97 <=? n)%nat && (n <=? 122)%nat.

Definition is_name_char (c : ascii) : bool :=
  is_alpha c || isdigit c || Ascii.eqb c "-"%char || Ascii.eqb c "."%char
  || Ascii.eqb c ":"%char || Ascii.eqb c "_"%char.

(** The longest prefix of characters satisfying [p], and the rest. *)
Fixpoint span (p : ascii -> bool) (s : string) : string * string :=
  match s with
  | String c s' =>
      if p c then let '(a, b) := span p s' in (String c a, b)
      else (EmptyString, s)
  | EmptyString => (EmptyString, EmptyString)
  end.

(** What comes before the first [pat] and what comes after it. *)
Fixpoint find_str (pat : string) (s : string) : option (string * string) :=
  if prefix pat s then Some (EmptyString, slice_from (String.length pat) s)
  else
    match s with
    | EmptyString => None
    | String c s' =>
        match find_str pat s' with
        | Some (a, b) => Some (String c a, b)
        | None => None
        end
    end.

(** Character data up to the next markup character or through the end of
    the line. *)
Fixpoint data_chunk (s : string) : string * string :=
  match s with
  | EmptyString => (EmptyString, EmptyString)
  | String c s' =>
      if Ascii.eqb c "<"%char || Ascii.eqb c "&"%char then (EmptyString, s)
      else if Ascii.eqb c nl then (String c EmptyString, s')
      else let '(a, b) := data_chunk s' in (String c a, b)
  end.

Definition is_attr_name_char (c : ascii) : bool :=
  negb (is_space c || Ascii.eqb c "="%char || Ascii.eqb c ">"%char
        || Ascii.eqb c "/"%char).

Definition is_unquoted_char (c : ascii) : bool :=
  negb (is_space c || Ascii.eqb c ">"%char).

(** The value after [=]: quoted with either quote, or bare. *)
Definition attr_value (s : string) : option (string * string) :=
  match s with
  | String q s' =>
      if Ascii.eqb q "034"%char || Ascii.eqb q "'"%char
      then find_str (String q EmptyString) s'
      else Some (span is_unquoted_char s)
  | EmptyString => Some (EmptyString, EmptyString)
  end.

(** The attributes of a start tag and how it closes: [Some (attrs, true,
    rest)] for [/>], [Some (attrs, false, rest)] for [>], [None] when the
    tag does not parse. *)
Fixpoint attributes (fuel : nat) (s : string)
  : option (list (string * option string) * bool * string) :=
  match fuel with
  | O => None
  | S fuel' =>
      let s := lstrip s in
      if prefix ">" s then Some ([], false, slice_from 1 s)
      else if prefix "/>" s then Some ([], true, slice_from 2 s)
      else
        let '(name, rest) := span is_attr_name_char s in
        match name with
        | EmptyString => None
        | _ =>
            let rest := lstrip rest in
            if prefix "=" rest then
              match attr_value (lstrip (slice_from 1 rest)) with
              | Some (value, rest') =>
                  match attributes fuel' rest' with
                  | Some (attrs, closed, rest'') =>
                      Some ((lower_string name, Some value) :: attrs,
                            closed, rest'')
                  | None => None
                  end
              | None => None
              end
            else
              match attributes fuel' rest with
              | Some (attrs, closed, rest'') =>
                  Some ((lower_string name, None) :: attrs, closed, rest'')
              | None => None
              end
        end
  end.

Definition starts_with_alpha (s : string) : bool :=
  match s with
  | String c _ => is_alpha c
  | EmptyString => false
  end.

(** A reference after [&]: the name, and the rest past an optional [;]. *)
Definition reference (p : ascii -> bool) (s : string) : string * string :=
  let '(name, rest) := span p s in
  (name, if prefix ";" rest then slice_from 1 rest else rest).

Fixpoint tokens (fuel : nat) (s : string) : list parse_event :=
  match fuel with
  | O => []
  | S fuel' =>
      match s with
      | EmptyString => []
      | String c s' =>
          if Ascii.eqb c "<"%char then
            if prefix "/" s' then
              match find_str ">" (slice_from 1 s') with
              | Some (name, rest) =>
                  EndTagEv (lower_string (strip name)) :: tokens fuel' rest
              | None => [ParseFail "EOF in middle of construct"]
              end
            else if prefix "!--" s' then
              match find_str "-->" (slice_from 3 s') with
              | Some (_, rest) => tokens fuel' rest
              | None => [ParseFail "EOF in middle of construct"]
              end
            else if prefix "!" s' || prefix "?" s' then
              match find_str ">" s' with
              | Some (_, rest) => tokens fuel' rest
              | None => [ParseFail "EOF in middle of construct"]
              end
            else if starts_with_alpha s' then
              let '(name, rest) := span is_name_char s' in
              match attributes (S (String.length rest)) rest with
              | Some (attrs, closed, rest') =>
                  let htmltag := lower_string name in
                  StartTag htmltag attrs
                  :: (if closed then [EndTagEv htmltag] else [])
                  ++ tokens fuel' rest'
              | None => [ParseFail "malformed start tag"]
              end
            else Data "<" :: tokens fuel' s'
          else if Ascii.eqb c "&"%char then
            if prefix "#" s' then
              let '(name, rest) := reference isdigit (slice_from 1 s') in
              match name with
              | EmptyString => Data "&#" :: tokens fuel' (slice_from 1 s')
              | _ => CharRef name :: tokens fuel' rest
              end
            else if starts_with_alpha s' then
              let '(name, rest) := reference is_name_char s' in
              EntityRef name :: tokens fuel' rest
            else Data "&" :: tokens fuel' s'
          else
            let '(data, rest) := data_chunk s in
            Data data :: tokens fuel' rest
      end
  end.

Definition tokenize (infile : string) : list parse_event :=
  tokens (S (String.length infile)) infile.

End Tokenizer.
Import Tokenizer.

(** [HtmlBuffer.read(infile, partial, ignore_errors)] *)
Definition read (self : HtmlBuffer) (infile : string)
           (partial ignore_errors : bool) : result (list item) :=
  read_events self (tokenize infile) partial ignore_errors.

(** ** Writing HTML *)

Module Writer.

Definition XHTML_HEADER : string :=
  "<!DOCTYPE html PUBLIC " ++ dquote ++ "-//W3C//DTD XHTML 1.0 Transitional//EN"
  ++ dquote ++ " " ++ dquote
  ++ "http://www.w3.org/TR/xhtml1/DTD/xhtml1-transitional.dtd" ++ dquote ++ ">"
  ++ NL ++ "<html xmlns=" ++ dquote ++ "http://www.w3.org/1999/xhtml" ++ dquote
  ++ ">" ++ NL ++ "<body>".

Definition XHTML_FOOTER : string := "</body></html>".

Definition _buffer_tag2html : list (string * string) :=
  [("bold", "b"); ("italic", "i"); ("underline", "u"); ("nowrap", "nobr")].

(** Modelled from the spec: [tag.get_property("name")], the name a tag is
    registered under.  The names are the tag strings the reader makes
    ([parse_style], [handle_starttag], [unnest_indent_tags]); a paragraph
    tag is [RichTextTag.__init__(self, "p")]. *)
Definition tag_property_name (tag : RichTextTag) : string :=
  match tag with
  | RichTextModTag name => name
  | RichTextFamilyTag family => "family " ++ family
  | RichTextSizeTag size => "size " ++ dec size
  | RichTextJustifyTag justify => justify
  | RichTextFGColorTag color => "fg_color " ++ color
  | RichTextBGColorTag color => "bg_color " ++ color
  | RichTextIndentTag indent par_indent =>
      indent_tagstr indent (par_name par_indent)
  | RichTextBulletTag => "bullet"
  | RichTextParTag _ => "p"
  | RichTextPlainTag name => name
  end.

(** *** Building the tree *)

(** Modelled from the spec: [TextBufferDom(contents)], which "materializes a
    content stream into a tree".  Text and anchors become leaves under the
    current element, a begin opens an element and descends into it, an end
    goes back up to the parent (and stays at the root when nothing is
    open). *)
Fixpoint build_from (contents : list item) (ptr : path) (dom : Dom) : Dom :=
  match contents with
  | [] => dom
  | it :: rest =>
      match it with
      | Text s => build_from rest ptr (append_child ptr (text_node s) dom)
      | Anchor a =>
          build_from rest ptr (append_child ptr (Node (AnchorDom a) []) dom)
      | BeginTag tag =>
          build_from rest (ptr ++ [num_children dom ptr])
                     (append_child ptr (Node (TagDom tag) []) dom)
      | EndTag _ => build_from rest (removelast ptr) dom
      | BeginStr _ | EndStr _ => build_from rest ptr dom
      end
  end.

Definition build (contents : list item) : Dom :=
  build_from contents [] (Node TextBufferDom []).

(** *** [prepare_dom_write], first walk *)

(** [walk(node, within_indent, par_type)], as the nodes that stand at the
    place of [node] among its siblings afterwards.  ([par_type] is passed
    along and never read.)
    - a paragraph within an indent is replaced by a list item holding its
      children, and the walk returns;
    - a paragraph outside an indent has its children moved up before it and
      is removed; the loop that follows finds it empty;
    - an indent within an indent is put inside a new list item of kind
      "none", and its children are walked within an indent. *)
Fixpoint walk_items (within_indent : bool) (node : Dom) : list Dom :=
  match node with
  | Node k children =>
      match k with
      | TagDom (RichTextParTag kind) =>
          if within_indent then [Node (LiHtmlTagDom kind) children]
          else children
      | TagDom (RichTextIndentTag _ _) =>
          let node' := Node k (flat_map (walk_items true) children) in
          if within_indent then [Node (LiHtmlTagDom par_none) [node']]
          else [node']
      | _ => [Node k (flat_map (walk_items within_indent) children)]
      end
  end.

(** *** [prepare_dom_write], second walk *)

Definition is_tagdom (k : dom_kind) : bool :=
  match tag_of k with Some _ => true | None => false end.

Definition is_bullet_dom (k : dom_kind) : bool :=
  match tag_of k with Some RichTextBulletTag => true | _ => false end.

Definition is_indent_dom (k : dom_kind) : bool :=
  match tag_of k with Some (RichTextIndentTag _ _) => true | _ => false end.

Definition is_hr_dom (k : dom_kind) : bool :=
  match k with AnchorDom RichTextHorizontalRule => true | _ => false end.

Definition is_li_dom (k : dom_kind) : bool :=
  match k with LiHtmlTagDom _ => true | _ => false end.

(** [isinstance(n, TextDom) and n.text.endswith("\n")] *)
Definition text_ends_nl (n : option Dom) : bool :=
  match n with
  | Some (Node (TextDom text) _) => endswith text NL
  | _ => false
  end.

Definition text_starts_nl (n : option Dom) : bool :=
  match n with
  | Some (Node (TextDom text) _) => startswith text NL
  | _ => false
  end.

(** [n.text = n.text[:-1]] *)
Definition chop_last (n : Dom) : Dom :=
  match n with
  | Node (TextDom text) cs => Node (TextDom (drop_last text)) cs
  | _ => n
  end.

(** [n.text = n.text[1:]] *)
Definition chop_first (n : Dom) : Dom :=
  match n with
  | Node (TextDom text) cs => Node (TextDom (slice_from 1 text)) cs
  | _ => n
  end.

Definition map_last {A : Type} (f : A -> A) : list A -> list A :=
  fix go (l : list A) : list A :=
    match l with
    | [] => []
    | [x] => [f x]
    | x :: l' => x :: go l'
    end.

(** "get right most descendant" from [child] on, and chop the newline it
    ends with: the search goes down last children, gives up at an indent,
    and ends at a leaf. *)
Fixpoint chop_rightmost (child : Dom) : Dom :=
  match child with
  | Node k [] => if text_ends_nl (Some child) then chop_last child else child
  | Node k cs =>
      if is_indent_dom k then child
      else Node k (map_last chop_rightmost cs)
  end.

(** "delete preceding newline of </li>", on the list item [node] *)
Definition chop_item_newline (node : Dom) : Dom :=
  Node (kind_of node) (map_last chop_rightmost (children_of node)).

Fixpoint remove_nth {A : Type} (i : nat) (l : list A) : list A :=
  match l, i with
  | [], _ => []
  | _ :: l', O => l'
  | x :: l', S i' => x :: remove_nth i' l'
  end.

(** [node.remove()] for the node at [p]; the root has no parent. *)
Definition remove_at (p : path) (d : Dom) : Dom :=
  match p with
  | [] => d
  | _ =>
      update (removelast p)
             (fun n => Node (kind_of n)
                            (remove_nth (List.last p O) (children_of n))) d
  end.

Definition get_opt (d : Dom) (p : option path) : option Dom :=
  match p with
  | Some q => get d q
  | None => None
  end.

(** [last_leaf[0].text = last_leaf[0].text[:-1]] when the last leaf is a
    text that ends with a newline *)
Definition chop_last_leaf (d : Dom) (last_leaf : option path) : Dom :=
  match last_leaf with
  | Some q => if text_ends_nl (get d q) then update q chop_last d else d
  | None => d
  end.

Definition last_leaf_is_hr (d : Dom) (last_leaf : option path) : bool :=
  match get_opt d last_leaf with
  | Some n => is_hr_dom (kind_of n)
  | None => false
  end.

(** The second [walk(node)].  The tree [fst st] is the store, the node is
    the one at path [p] in it, and [snd st] is [last_leaf[0]].  [shape] is
    the subtree of the node as it was when the walk began: nothing removes
    or adds a node below a node before that node is walked, so
    [list(node)] has the children of [shape], and a child that removes
    itself moves the ones after it one place down.  The result says whether
    the node removed itself. *)
Fixpoint walk_clean (shape : Dom) (p : path) (st : Dom * option path)
  : (Dom * option path) * bool :=
  let '(dom, last_leaf) := st in
  match get dom p with
  | None => (st, false)
  | Some node =>
      let k := kind_of node in
      if is_bullet_dom k then
        (* remove bullet tags and their contents *)
        ((remove_at p dom, last_leaf), true)
      else
        (* delete preceding newline of <hr/> *)
        let dom := if is_hr_dom k then chop_last_leaf dom last_leaf
                   else dom in
        (* delete preceding newline of <ol> <ul> *)
        let dom := if is_indent_dom k then chop_last_leaf dom last_leaf
                   else dom in
        (* delete preceding newline of </li> *)
        let dom := if is_li_dom k then update p chop_item_newline dom
                   else dom in
        if is_leaf node then
          (* delete succeeding newline of <hr/> *)
          let dom :=
            if last_leaf_is_hr dom last_leaf && text_starts_nl (get dom p)
            then update p chop_first dom else dom in
          (* empty tags are skipped as leaves; remove empty tags *)
          if is_tagdom k then ((remove_at p dom, last_leaf), true)
          else ((dom, Some p), false)
        else
          let st' :=
            (fix walk_children (cs : list Dom) (i : nat)
                 (st : Dom * option path) : Dom * option path :=
               match cs with
               | [] => st
               | c :: cs' =>
                   let '(st1, removed) := walk_clean c (p ++ [i]) st in
                   walk_children cs' (if removed then i else S i) st1
               end) (children_of shape) O (dom, last_leaf) in
          (* remove empty tags *)
          match get (fst st') p with
          | Some node' =>
              if is_tagdom k && is_leaf node'
              then ((remove_at p (fst st'), snd st'), true)
              else (st', false)
          | None => (st', false)
          end
  end.

Definition prepare_dom_write (dom : Dom) : Dom :=
  let dom1 :=
    match walk_items false dom with
    | [d] => d
    | _ => dom
    end in
  fst (fst (walk_clean dom1 [] (dom1, None))).

(** *** Emission *)

Definition write_text (text : string) : string :=
  let text := replace "&" "&amp;" text in
  let text := replace ">" "&gt;" text in
  let text := replace "<" "&lt;" text in
  let text := replace (String "009"%char "") "&#09;" text in
  let text := replace "  " " &nbsp;" text in
  replace NL ("<br/>" ++ NL) text.

Definition str_of_option (s : option string) : string :=
  match s with Some v => v | None => "None" end.

Definition write_anchor (anchor : anchor_obj) : string :=
  match anchor with
  | RichTextImage filename width height =>
      let size_str :=
        (match width with
         | Some w => " width=" ++ dquote ++ dec w ++ dquote
         | None => ""
         end ++
         match height with
         | Some h => " height=" ++ dquote ++ dec h ++ dquote
         | None => ""
         end)%string in
      "<img src=" ++ dquote ++ str_of_option filename ++ dquote
      ++ size_str ++ " />"
  | RichTextHorizontalRule => "<hr/>"
  | UnknownAnchor => ""          (* a warning is printed, nothing written *)
  end.

Definition nth_char (s : string) (n : nat) : string :=
  substring n 1 s.

Definition tagcolor_to_html (c : string) : result string :=
  if (String.length c =? 13)%nat then
    Ok (nth_char c 0 ++ nth_char c 1 ++ nth_char c 2 ++ nth_char c 5
        ++ nth_char c 6 ++ nth_char c 9 ++ nth_char c 10)%string
  else Raise AssertionError.

(** [IGNORE_TAGS] is a constant of [richtextbuffer.py], not among the
    sources: an argument here. *)
Definition write_tag_begin (IGNORE_TAGS : list string) (k : dom_kind)
           (tag : RichTextTag) : result string :=
  let tagname := tag_property_name tag in
  if str_in tagname IGNORE_TAGS then Ok ""
  else
    match lookup_str tagname _buffer_tag2html with
    | Some html => Ok ("<" ++ html ++ ">")%string
    | None =>
        match tag with
        | RichTextSizeTag size =>
            Ok ("<span style=" ++ dquote ++ "font-size: " ++ dec size ++ "pt"
                ++ dquote ++ ">")%string
        | RichTextJustifyTag _ =>
            let text := if String.eqb tagname "fill" then "justify"
                        else tagname in
            Ok ("<div style=" ++ dquote ++ "text-align: " ++ text ++ dquote
                ++ ">")%string
        | RichTextFamilyTag family =>
            Ok ("<span style=" ++ dquote ++ "font-family: " ++ family
                ++ dquote ++ ">")%string
        | RichTextFGColorTag color =>
            html <- tagcolor_to_html color ;;
            Ok ("<span style=" ++ dquote ++ "color: " ++ html ++ dquote
                ++ ">")%string
        | RichTextBGColorTag color =>
            html <- tagcolor_to_html color ;;
            Ok ("<span style=" ++ dquote ++ "background-color: " ++ html
                ++ dquote ++ ">")%string
        | RichTextIndentTag _ _ => Ok "<ol>"
        | _ =>
            match k with
            | LiHtmlTagDom par_bullet =>
                Ok ("<li style=" ++ dquote ++ "list-style-type: disc"
                    ++ dquote ++ ">")%string
            | LiHtmlTagDom par_none =>
                Ok ("<li style=" ++ dquote ++ "list-style-type: none"
                    ++ dquote ++ ">")%string
            | _ => Raise (HtmlError ("unknown tag '" ++ tagname ++ "'"))
            end
        end
    end.

Definition write_tag_end (k : dom_kind) (tag : RichTextTag) : string :=
  let tagname := tag_property_name tag in
  match lookup_str tagname _buffer_tag2html with
  | Some html => "</" ++ html ++ ">"
  | None =>
      if str_in tagname _justify then "</div>"
      else
        match tag with
        | RichTextIndentTag _ _ => "</ol>" ++ NL
        | _ =>
            if is_li_dom k then "</li>" ++ NL
            else
              match tag with
              | RichTextBulletTag => ""
              | _ => "</span>"
              end
        end
  end.

(** [write_dom(dom)]: everything written to [self._out] for the children
    of [dom]. *)
Fixpoint write_dom (IGNORE_TAGS : list string) (dom : Dom) : result string :=
  match dom with
  | Node _ children =>
      (fix write_children (cs : list Dom) : result string :=
         match cs with
         | [] => Ok ""
         | child :: cs' =>
             here <-
               match kind_of child with
               | TextDom text => Ok (write_text text)
               | AnchorDom anchor => Ok (write_anchor anchor)
               | k =>
                   match tag_of k with
                   | Some tag =>
                       open <- write_tag_begin IGNORE_TAGS k tag ;;
                       inner <- write_dom IGNORE_TAGS child ;;
                       Ok (open ++ inner ++ write_tag_end k tag)%string
                   | None => Raise (UnknownDom "unknown dom")
                   end
               end ;;
             rest <- write_children cs' ;;
             Ok (here ++ rest)%string
         end) children
  end.

(** [isinstance(tag, (RichTextIndentTag, RichTextParTag))] *)
Definition is_stable_tag (tag : RichTextTag) : bool :=
  match tag with
  | RichTextIndentTag _ _ | RichTextParTag _ => true
  | _ => false
  end.

(** [HtmlBuffer.write(buffer_content, tag_table, partial)]: everything
    written to [self._out].  [normalize_tags] is a function of
    [textbuffer_tools.py], not among the sources: an argument here. *)
Definition write
           (normalize_tags : list item -> (RichTextTag -> bool) -> list item)
           (IGNORE_TAGS : list string)
           (buffer_content : list item) (tag_table : TagTable)
           (partial : bool) : result string :=
  paragraphs <- find_paragraphs buffer_content ;;
  nested <- nest_indent_tags paragraphs tag_table ;;
  let contents := normalize_tags nested is_stable_tag in
  let dom := prepare_dom_write (build contents) in
  body <- write_dom IGNORE_TAGS dom ;;
  Ok ((if partial then "" else XHTML_HEADER) ++ body
      ++ (if partial then "" else XHTML_FOOTER))%string.

End Writer.
Import Writer.

(** ** Notions of the specification *)

Module Notions.

(** The text of the first [Text] item of a stream. *)
Fixpoint first_text (contents : list item) : option string :=
  match contents with
  | [] => None
  | Text s :: _ => Some s
  | _ :: rest => first_text rest
  end.

(** The item type declared by the last [Begin(Indent)] seen so far, ["none"]
    before the first. *)
Definition last_indent_kind (seen : list item) : par_kind :=
  fold_left (fun k it =>
               match it with
               | BeginTag (RichTextIndentTag _ par_indent) => par_indent
               | _ => k
               end) seen par_none.

(** The item type of the Indent that encloses the end of [seen]: that of
    the innermost [Begin(Indent)] without its [End(Indent)] yet, ["none"]
    when no Indent is open.  [open] lists the open ones, innermost first. *)
Fixpoint enclosing_from (open : list par_kind) (seen : list item)
  : par_kind :=
  match seen with
  | [] => match open with k :: _ => k | [] => par_none end
  | BeginTag (RichTextIndentTag _ par_indent) :: rest =>
      enclosing_from (par_indent :: open) rest
  | EndTag (RichTextIndentTag _ _) :: rest => enclosing_from (tl open) rest
  | _ :: rest => enclosing_from open rest
  end.

Definition enclosing_indent_kind (seen : list item) : par_kind :=
  enclosing_from [] seen.

Definition is_par_begin (it : item) : bool :=
  match it with BeginTag (RichTextParTag _) => true | _ => false end.

Definition is_content (it : item) : bool :=
  match it with Text _ | Anchor _ => true | _ => false end.

End Notions.
Import Notions.

(** ** Notions of the specification, for the indent transforms *)

Module IndentNotions.

(** A valid flat-indent stream: items of the four content kinds, in which
    [Begin(Indent n)] ... [End(Indent n)] pairs of level at least 1 follow
    one another without one opening inside another.  [open] is the indent
    that is open. *)
Fixpoint flat_indents (open : option (Z * par_kind)) (contents : list item)
  : bool :=
  match contents with
  | [] => match open with None => true | Some _ => false end
  | BeginTag (RichTextIndentTag n p) :: rest =>
      match open with
      | None => (1 <=? n)%Z && flat_indents (Some (n, p)) rest
      | Some _ => false
      end
  | EndTag (RichTextIndentTag n p) :: rest =>
      match open with
      | Some (m, q) =>
          (n =? m)%Z && par_kind_eqb p q && flat_indents None rest
      | None => false
      end
  | BeginStr _ :: _ | EndStr _ :: _ => false
  | _ :: rest => flat_indents open rest
  end.

Definition valid_flat_stream (contents : list item) : Prop :=
  flat_indents None contents = true.

Definition is_indent_item (it : item) : bool :=
  match it with
  | BeginTag (RichTextIndentTag _ _) | EndTag (RichTextIndentTag _ _) => true
  | _ => false
  end.

(** Reading a stream as a nesting of indents from depth [depth]: a
    [Begin(Indent n)] must open level [depth + 1], an [End(Indent n)] must
    close the level [depth >= 1] that is open.  The result is the depth at
    the end, [None] when some indent does not nest. *)
Fixpoint indent_walk (depth : Z) (out : list item) : option Z :=
  match out with
  | [] => Some depth
  | BeginTag (RichTextIndentTag n _) :: rest =>
      if (n =? depth + 1)%Z then indent_walk n rest else None
  | EndTag (RichTextIndentTag n _) :: rest =>
      if (n =? depth)%Z && (1 <=? depth)%Z then indent_walk (depth - 1) rest
      else None
  | _ :: rest => indent_walk depth rest
  end.

Definition is_indent_begin (it : item) : bool :=
  match it with BeginTag (RichTextIndentTag _ _) => true | _ => false end.

Definition is_indent_end (it : item) : bool :=
  match it with EndTag (RichTextIndentTag _ _) => true | _ => false end.

Definition count_items (f : item -> bool) (l : list item) : nat :=
  List.length (List.filter f l).

(** A registry that knows the indent tags by their names. *)
Definition indent_table (tag_table : TagTable) : Prop :=
  forall k : Z, exists p, tag_table (tag_name k) = RichTextIndentTag k p.




End IndentNotions.
Import IndentNotions.

(** ** The tag registry

    Modelled from the spec: "a tag registry providing lookup-by-name", the
    [tag_table] of the embedding application.  A name is the kind of the
    tag followed by its parameters. *)

Module TagRegistry.

Definition par_kind_of_name (s : string) : par_kind :=
  if String.eqb s "bullet" then par_bullet else par_none.

Definition lookup_tag : TagTable := fun name =>
  match split " "%char name with
  | ["indent"; level; par] =>
      match NilZero.int_of_string level with
      | Some d => RichTextIndentTag (Z.of_int d) (par_kind_of_name par)
      | None => RichTextPlainTag name
      end
  | ["size"; size] =>
      match NilZero.int_of_string size with
      | Some d => RichTextSizeTag (Z.of_int d)
      | None => RichTextPlainTag name
      end
  | ["fg_color"; color] => RichTextFGColorTag color
  | ["bg_color"; color] => RichTextBGColorTag color
  | ["bullet"] => RichTextBulletTag
  | "family" :: _ => RichTextFamilyTag (slice_from 7 name)
  | _ =>
      if str_in name ["bold"; "italic"; "underline"; "nowrap"]
      then RichTextModTag name
      else if str_in name ["left"; "center"; "right"; "fill"]
      then RichTextJustifyTag name
      else RichTextPlainTag name
  end.

End TagRegistry.
Import TagRegistry.

(** ** Notions of the specification, for the reader *)

Module ReaderNotions.

Definition all_blank (run : string) : Prop :=
  forall c, In c (list_ascii_of_string run) -> is_blank c = true.

Definition starts_blank (s : string) : bool :=
  match s with
  | String c _ => is_blank c
  | EmptyString => false
  end.

(** "Every maximal run of newline/space characters collapses to a single
    space": [collapsed s t] reads [s] as its maximal runs of blanks and the
    characters between them, and [t] has one space for each run. *)
Inductive collapsed : string -> string -> Prop :=
| collapsed_nil : collapsed EmptyString EmptyString
| collapsed_char (c : ascii) (s t : string) :
    is_blank c = false -> collapsed s t ->
    collapsed (String c s) (String c t)
| collapsed_run (run s t : string) :
    run <> EmptyString -> all_blank run -> starts_blank s = false ->
    collapsed s t ->
    collapsed (run ++ s) (String " "%char t).

(** The character data as the claim C3 words it: after a [<br>] the whole
    leading run of blanks goes, whatever it starts with, and the runs that
    remain collapse. *)
Definition data_text_as_claimed (after_br : bool) (data : string) : string :=
  collapse_blanks (if after_br then skip_blanks data else data).

Definition is_hex_digit (c : ascii) : bool :=
  let n := nat_of_ascii c in
  ((48 <=? n) && (n <=? 57) || (97 <=? n) && (n <=? 102)
   || (65 <=? n) && (n <=? 70))%nat.

Fixpoint all_hex (s : string) : bool :=
  match s with
  | EmptyString => true
  | String c s' => is_hex_digit c && all_hex s'
  end.

(** The colour of a tag as the text buffer holds it: [#] and twelve
    hexadecimal digits, four for each channel. *)
Definition internal_color (c : string) : bool :=
  match c with
  | String x digits =>
      Ascii.eqb x "#"%char && (String.length digits =? 12)%nat
      && all_hex digits
  | EmptyString => false
  end.

End ReaderNotions.
Import ReaderNotions.

(** ** The extension system ([keepnote/extension.py]) *)

Module ExtensionSystem.

(** A version is a tuple of integers, [(0, 6, 1)] for 0.6.1; Python orders
    tuples lexicographically, a proper prefix coming first. *)
Definition version : Type := list Z.

Fixpoint version_compare (a b : version) : comparison :=
  match a, b with
  | [], [] => Eq
  | [], _ :: _ => Lt
  | _ :: _, [] => Gt
  | x :: a', y :: b' =>
      match (x ?= y)%Z with
      | Eq => version_compare a' b'
      | c => c
      end
  end.

(** [a == b] on tuples: the same length and equal components. *)
Fixpoint version_eqb (a b : version) : bool :=
  match a, b with
  | [], [] => true
  | x :: a', y :: b' => (x =? y)%Z && version_eqb a' b'
  | _, _ => false
  end.

Definition version_gt (a b : version) : bool :=
  match version_compare a b with Gt => true | _ => false end.

Definition version_ge (a b : version) : bool :=
  match version_compare a b with Lt => false | _ => true end.

Definition version_le (a b : version) : bool :=
  match version_compare a b with Gt => false | _ => true end.

Definition version_lt (a b : version) : bool :=
  match version_compare a b with Lt => true | _ => false end.

(** A dependency [(NAME, REL, VERSION)]. *)
Definition dependency : Type := (string * string * version)%type.

(** [dependency_satisfied(ext, dep)]; [ext] is [None] or an extension, of
    which only [ext.version] is read. *)
Definition dependency_satisfied (ext : option version) (dep : dependency)
  : bool :=
  let '(name, rel, version) := dep in
  match ext with
  | None => String.eqb rel "!="
  | Some ext_version =>
      if String.eqb rel ">" then
        if negb (version_gt ext_version version) then false else true
      else if String.eqb rel ">=" then
        if negb (version_ge ext_version version) then false else true
      else if String.eqb rel "==" then
        if negb (version_eqb ext_version version) then false else true
      else if String.eqb rel "<=" then
        if negb (version_le ext_version version) then false else true
      else if String.eqb rel "<" then
        if negb (version_lt ext_version version) then false else true
      else true
  end.

(** Windows are objects of the application, told apart by identity: a
    number here.  A Python [set] of them is a list without repetitions. *)
Definition window : Type := nat.

Definition set_mem (w : window) (s : list window) : bool :=
  existsb (Nat.eqb w) s.

Definition set_add (w : window) (s : list window) : list window :=
  if set_mem w s then s else s ++ [w].

Definition set_remove (w : window) (s : list window) : list window :=
  List.filter (fun x => negb (Nat.eqb x w)) s.

(** The calls an extension makes to the hooks a subclass overrides and to
    the application. *)
Inductive callback : Type :=
| on_add_ui (w : window)
| on_remove_ui (w : window)
| on_extension_enabled (enable : bool)     (* self._app.on_extension_enabled *)
| on_enabled (enable : bool).

Record Extension : Type := mk_extension {
  _enabled : bool;
  __windows : list window;
  __uis : list window
}.

(** [Extension.__init__] *)
Definition Extension_init : Extension := mk_extension false [] [].

(** [for window in self.__windows: if window not in self.__uis:
    self.on_add_ui(window); self.__uis.add(window)] *)
Fixpoint add_missing_uis (windows uis : list window)
  : list callback * list window :=
  match windows with
  | [] => ([], uis)
  | w :: rest =>
      if set_mem w uis then add_missing_uis rest uis
      else
        let '(calls, uis') := add_missing_uis rest (set_add w uis) in
        (on_add_ui w :: calls, uis')
  end.

(** [enable(self, enable)]: [inr dep] is [raise DependencyException(self,
    dep)]; otherwise the new state, the calls made and the value returned.
    [app_satisfied] is [self._app.dependency_satisfied] and [depends] is
    [self.get_depends()]. *)
Definition enable (app_satisfied : dependency -> bool)
           (depends : list dependency) (enable : bool) (self : Extension)
  : (Extension * list callback * bool) + dependency :=
  match List.find (fun dep => negb (app_satisfied dep)) depends with
  | Some dep => inr dep
  | None =>
      let '(calls, uis) :=
        if enable then add_missing_uis (__windows self) (__uis self)
        else (map on_remove_ui (__uis self), []) in
      inl (mk_extension enable (__windows self) uis,
           calls ++ [on_extension_enabled enable; on_enabled enable],
           enable)
  end.

(** [get_depends] of the base class *)
Definition get_depends : list dependency :=
  [("keepnote", ">=", [0; 6; 1]%Z)].

Definition on_new_window (w : window) (self : Extension)
  : Extension * list callback :=
  if _enabled self then
    (mk_extension (_enabled self) (set_add w (__windows self))
                  (set_add w (__uis self)),
     [on_add_ui w])
  else
    (mk_extension (_enabled self) (set_add w (__windows self)) (__uis self),
     []).

Definition on_close_window (w : window) (self : Extension)
  : Extension * list callback :=
  if set_mem w (__windows self) then
    if set_mem w (__uis self) then
      (mk_extension (_enabled self) (set_remove w (__windows self))
                    (set_remove w (__uis self)),
       [on_remove_ui w])
    else
      (mk_extension (_enabled self) (set_remove w (__windows self))
                    (__uis self),
       [])
  else (self, []).

(** What the application does with an extension. *)
Inductive operation : Type :=
| Enable (enable : bool)
| NewWindow (w : window)
| CloseWindow (w : window).

(** One operation; an [enable] that raises leaves the extension as it
    was. *)
Definition apply_operation (app_satisfied : dependency -> bool)
           (depends : list dependency) (op : operation) (self : Extension)
  : Extension * list callback :=
  match op with
  | Enable b =>
      match enable app_satisfied depends b self with
      | inl (self', calls, _) => (self', calls)
      | inr _ => (self, [])
      end
  | NewWindow w => on_new_window w self
  | CloseWindow w => on_close_window w self
  end.

Fixpoint run_operations (app_satisfied : dependency -> bool)
         (depends : list dependency) (ops : list operation)
         (self : Extension) : Extension * list callback :=
  match ops with
  | [] => (self, [])
  | op :: rest =>
      let '(self1, calls1) := apply_operation app_satisfied depends op self in
      let '(self2, calls2) := run_operations app_satisfied depends rest self1 in
      (self2, calls1 ++ calls2)
  end.

(** Whether the user interface of [w] is in place after the calls [calls],
    [None] when some [on_add_ui w] comes with the interface in place or some
    [on_remove_ui w] without it. *)
Fixpoint ui_after (w : window) (present : bool) (calls : list callback)
  : option bool :=
  match calls with
  | [] => Some present
  | on_add_ui w' :: rest =>
      if Nat.eqb w' w then
        if present then None else ui_after w true rest
      else ui_after w present rest
  | on_remove_ui w' :: rest =>
      if Nat.eqb w' w then
        if present then ui_after w false rest else None
      else ui_after w present rest
  | _ :: rest => ui_after w present rest
  end.

(** The application opens a window once: [on_new_window] comes for a
    window the extension does not have. *)
Fixpoint new_windows_fresh (app_satisfied : dependency -> bool)
         (depends : list dependency) (ops : list operation)
         (self : Extension) : bool :=
  match ops with
  | [] => true
  | op :: rest =>
      match op with
      | NewWindow w => negb (set_mem w (__windows self))
      | _ => true
      end
      && new_windows_fresh app_satisfied depends rest
           (fst (apply_operation app_satisfied depends op self))
  end.

End ExtensionSystem.

(** ** Notions for the further properties *)

Module StreamNotions.

Definition is_li_param (param : string) : bool :=
  negb (String.eqb param "ol") && startswith param "li".

(** Whether a stream closes a list item when none is open, [depth] items
    being open at its start. *)
Fixpoint li_underflow (depth : nat) (contents : list item) : bool :=
  match contents with
  | [] => false
  | BeginStr param :: rest =>
      li_underflow (if is_li_param param then S depth else depth) rest
  | EndStr param :: rest =>
      if is_li_param param then
        match depth with
        | O => true
        | S depth' => li_underflow depth' rest
        end
      else li_underflow depth rest
  | _ :: rest => li_underflow depth rest
  end.

Definition is_par_item (it : item) : bool :=
  match it with
  | BeginTag (RichTextParTag _) | EndTag (RichTextParTag _) => true
  | _ => false
  end.

Definition not_par_item (it : item) : bool := negb (is_par_item it).

(** [piece] put before the first of [pieces]. *)
Definition glue (piece : string) (pieces : list string) : list string :=
  match pieces with
  | [] => match piece with EmptyString => [] | _ => [piece] end
  | p :: ps => (piece ++ p)%string :: ps
  end.

(** A text cut after each of its newlines. *)
Fixpoint split_lines (s : string) : list string :=
  match s with
  | EmptyString => []
  | String c s' =>
      if Ascii.eqb c nl then String c EmptyString :: split_lines s'
      else glue (String c EmptyString) (split_lines s')
  end.

(** The text items a [Text] item becomes: its lines, and one empty text for
    the empty text. *)
Definition text_pieces (text : string) : list item :=
  match text with
  | EmptyString => [Text EmptyString]
  | _ => map Text (split_lines text)
  end.

Definition split_texts (contents : list item) : list item :=
  flat_map (fun it => match it with
                      | Text text => text_pieces text
                      | _ => [it]
                      end) contents.

(** Reading a stream as a sequence of paragraphs: a paragraph begins only
    when none is open and ends with the tag it began with, and every text
    and anchor lies in a paragraph.  [open] is the paragraph that is open;
    the result says that the stream reads so and ends with none open. *)
Fixpoint paragraphs_ok (open : option par_kind) (out : list item) : bool :=
  match out with
  | [] => match open with None => true | Some _ => false end
  | BeginTag (RichTextParTag k) :: rest =>
      match open with
      | None => paragraphs_ok (Some k) rest
      | Some _ => false
      end
  | EndTag (RichTextParTag k) :: rest =>
      match open with
      | Some k' => par_kind_eqb k k' && paragraphs_ok None rest
      | None => false
      end
  | Text _ :: rest | Anchor _ :: rest =>
      match open with
      | Some _ => paragraphs_ok open rest
      | None => false
      end
  | _ :: rest => paragraphs_ok open rest
  end.

Fixpoint no_double_space (s : string) : bool :=
  match s with
  | String a ((String b _) as s') =>
      negb (Ascii.eqb a " "%char && Ascii.eqb b " "%char)
      && no_double_space s'
  | _ => true
  end.

End StreamNotions.
Import StreamNotions.

(** ** Notions on the callbacks of the reader *)

Module EventNotions.

(** Every start tag of [events] is closed by an end tag of the same name,
    the tags properly nested; [open] holds the names of the tags that are
    open, the innermost first. *)
Fixpoint well_nested (open : list string) (events : list parse_event) : bool :=
  match events with
  | [] => match open with [] => true | _ => false end
  | StartTag htmltag _ :: rest => well_nested (htmltag :: open) rest
  | EndTagEv htmltag :: rest =>
      match open with
      | top :: open' => String.eqb top htmltag && well_nested open' rest
      | [] => false
      end
  | _ :: rest => well_nested open rest
  end.

Definition is_document_tag (htmltag : string) : bool :=
  String.eqb htmltag "html" || String.eqb htmltag "body".

(** No [html] or [body] tag among the events. *)
Definition inner_event (ev : parse_event) : bool :=
  match ev with
  | StartTag htmltag _ | EndTagEv htmltag => negb (is_document_tag htmltag)
  | _ => true
  end.

(** The reader acts on the end tags of [events]: it reads a fragment, or it
    is within the body and the events stay there. *)
Definition acts_on_end_tags (hb : HtmlBuffer) (events : list parse_event)
  : bool :=
  _partial hb || (_within_body hb && forallb inner_event events).

Definition entry_is (htmltag : string) (entry : option string * path) : bool :=
  match fst entry with
  | Some t => String.eqb t htmltag
  | None => false
  end.

(** A [width] or [height] attribute that comes without a value. *)
Definition dim_without_value (attr : string * option string) : bool :=
  let '(key, value) := attr in
  (String.eqb key "width" || String.eqb key "height")
  && match value with None => true | Some _ => false end.

End EventNotions.
Import EventNotions.

(** ** Notions on the tree after reading *)

Module TreeNotions.

Definition is_newline_text (it : item) : bool :=
  match it with
  | Text text => String.eqb text NL
  | _ => false
  end.

Definition not_newline_text (it : item) : bool := negb (is_newline_text it).

(** The last of [children] is a newline text or an [ol] element. *)
Definition ends_line (children : list Dom) : bool :=
  match List.last (map Some children) None with
  | Some (Node (TextDom text) _) => String.eqb text NL
  | Some (Node k _) => is_tagname "ol" k
  | None => false
  end.

(** Every list item of the tree ends with a newline text or an [ol]. *)
Fixpoint items_end_lines (d : Dom) : bool :=
  match d with
  | Node k children =>
      (if is_li_tagname k then ends_line children else true)
      && forallb items_end_lines children
  end.

End TreeNotions.
Import TreeNotions.

(** ** Notions on the written text *)

Module WriterNotions.

Definition tab : ascii := "009"%char.

Definition is_markup_char (c : ascii) : bool :=
  Ascii.eqb c "<"%char || Ascii.eqb c ">"%char || Ascii.eqb c tab.

(** The only markup of [s] is the line break [<br/>]: outside of line
    breaks [s] has no [<], no [>] and no tab.  [skip] counts the
    characters of a line break still to pass. *)
Fixpoint only_breaks (skip : nat) (s : string) : bool :=
  match s with
  | EmptyString => true
  | String c s' =>
      match skip with
      | S skip' => only_breaks skip' s'
      | O =>
          if prefix "<br/>" s then only_breaks 4 s'
          else negb (is_markup_char c) && only_breaks 0 s'
      end
  end.

End WriterNotions.
Import WriterNotions.

(** ** Notions on the attributes of a list item *)

Module ItemNotions.

Fixpoint count_char (sep : ascii) (s : string) : nat :=
  match s with
  | EmptyString => O
  | String c s' =>
      if Ascii.eqb c sep then S (count_char sep s') else count_char sep s'
  end.

(** A statement of the form [key:value], with one colon. *)
Definition one_colon (statement : string) : bool :=
  (count_char ":" statement =? 1)%nat.

(** An attribute of a [li] tag that [handle_starttag] gets through: any
    attribute but [style], and a [style] with a value whose statements, the
    pieces between semicolons, have one colon each. *)
Definition li_attr_ok (attr : string * option string) : bool :=
  let '(key, value) := attr in
  negb (String.eqb key "style")
  || match value with
     | Some v => forallb one_colon (split ";" v)
     | None => false
     end.

End ItemNotions.
Import ItemNotions.

(** ** Notions on flat indents and on written tags *)

Module MarkupNotions.

(** The name of an indent tag, as [unnest_indent_tags] makes them. *)
Definition is_indent_str (param : string) : bool :=
  startswith param "indent ".

Definition no_indent_str (it : item) : bool :=
  match it with
  | BeginStr param | EndStr param => negb (is_indent_str param)
  | _ => true
  end.

(** The indent tags of [out] do not nest: one begins only when none is
    open, and one ends only when one is open.  [open] says whether one is
    open; the result is whether one is open at the end, if [out] reads
    so. *)
Fixpoint flat_indent_strs (open : bool) (out : list item) : option bool :=
  match out with
  | [] => Some open
  | BeginStr param :: rest =>
      if is_indent_str param then
        if open then None else flat_indent_strs true rest
      else flat_indent_strs open rest
  | EndStr param :: rest =>
      if is_indent_str param then
        if open then flat_indent_strs false rest else None
      else flat_indent_strs open rest
  | _ :: rest => flat_indent_strs open rest
  end.

End MarkupNotions.
Import MarkupNotions.

(** ** Notions on the tree to write *)

Module WriteTreeNotions.

Definition is_par_dom (k : dom_kind) : bool :=
  match k with
  | TagDom (RichTextParTag _) => true
  | _ => false
  end.

(** A paragraph element somewhere in the tree. *)
Fixpoint has_par (d : Dom) : bool :=
  match d with
  | Node k children => is_par_dom k || existsb has_par children
  end.

(** No paragraph element of the tree holds a paragraph element. *)
Fixpoint pars_hold_no_par (d : Dom) : bool :=
  match d with
  | Node k children =>
      (if is_par_dom k then negb (existsb has_par children) else true)
      && forallb pars_hold_no_par children
  end.

Definition is_content_item (it : item) : bool :=
  match it with
  | Text _ | Anchor _ => true
  | _ => false
  end.

End WriteTreeNotions.
Import WriteTreeNotions.

(** ** Notions on style declarations *)

Module StyleNotions.

(** A declaration [property: value] read as CSS has it: the property is
    what stands before the first colon, the value what stands after it. *)
Fixpoint before_colon (s : string) : string :=
  match s with
  | EmptyString => EmptyString
  | String c s' =>
      if Ascii.eqb c ":"%char then EmptyString else String c (before_colon s')
  end.

Fixpoint after_colon (s : string) : option string :=
  match s with
  | EmptyString => None
  | String c s' => if Ascii.eqb c ":"%char then Some s' else after_colon s'
  end.

(** A [text-align] declaration whose value is not one of left, center,
    right, fill, justify. *)
Definition text_align_outside (statement : string) : bool :=
  String.eqb (strip (before_colon statement)) "text-align"
  && match after_colon statement with
     | Some value => negb (str_in (strip value) _justify)
     | None => false
     end.

(** The style has such a declaration among its statements. *)
Definition has_text_align_outside (stylestr : string) : bool :=
  existsb text_align_outside (split ";" stylestr).

End StyleNotions.
Import StyleNotions.

(** * Properties *)

(** ** [find_paragraphs] *)

Section FindParagraphs.

(** A paragraph is open exactly when its tag is on the stack. *)
Definition par_inv (st : par_state) : Prop :=
  within_par st = true -> par_stack st <> [].

Lemma open_par_stack (k : par_kind) (within : bool) (stack : list RichTextTag) :
  (within = true -> stack <> []) -> snd (open_par k within stack) <> [].
Proof.
  unfold open_par. destruct within; simpl; intros H.
  - apply H; reflexivity.
  - discriminate.
Qed.

Lemma text_loop_ok (text : string) (k : par_kind) :
  forall (cs : string) (j : nat) (within : bool) (stack : list RichTextTag)
         (i : nat) (lj : option nat),
    (within = true -> stack <> []) ->
    exists out within' stack' i' lj',
      text_loop text k cs j within stack i lj
      = Ok (out, (within', stack', i', lj'))
      /\ (within' = true -> stack' <> [])
      /\ (cs = EmptyString -> lj' = lj)
      /\ (cs <> EmptyString -> lj' <> None).
Proof.
  induction cs as [|c cs IH]; intros j within stack i lj Hinv; simpl.
  - exists [], within, stack, i, lj. repeat split; auto; congruence.
  - pose proof (open_par_stack k within stack Hinv) as Hne.
    destruct (open_par k within stack) as [out1 stack1]; simpl in Hne.
    destruct (Ascii.eqb c nl).
    + destruct stack1 as [|top stack2]; [congruence|].
      destruct (IH (S j) false stack2 (j + 1)%nat (Some j))
        as (out & w & s & i' & lj' & E & Hw & Hnil & Hcons);
        [discriminate|].
      rewrite E; simpl.
      eexists _, w, s, i', lj'.
      split; [reflexivity|]. split; [exact Hw|]. split; [discriminate|].
      intros _. destruct cs; [rewrite Hnil by reflexivity|apply Hcons];
        discriminate.
    + destruct (IH (S j) true stack1 i (Some j))
        as (out & w & s & i' & lj' & E & Hw & Hnil & Hcons); [auto|].
      rewrite E; simpl.
      eexists _, w, s, i', lj'.
      split; [reflexivity|]. split; [exact Hw|]. split; [discriminate|].
      intros _. destruct cs; [rewrite Hnil by reflexivity|apply Hcons];
        discriminate.
Qed.

(** A [Text] item fails only for the empty string met with [j] unbound. *)
Lemma par_item_text (st : par_state) (s : string) :
  par_inv st ->
  (s = EmptyString /\ loop_j st = None
   /\ par_item st (Text s) = Raise (UnboundLocalError "j"))
  \/ ((s <> EmptyString \/ loop_j st <> None)
      /\ exists out st', par_item st (Text s) = Ok (out, st')
                         /\ par_inv st' /\ loop_j st' <> None).
Proof.
  intros Hinv. unfold par_item.
  pose proof (open_par_stack (par_type st) (within_par st) (par_stack st) Hinv)
    as Hne.
  destruct (open_par (par_type st) (within_par st) (par_stack st))
    as [out1 stack1]; simpl in Hne.
  destruct (text_loop_ok s (par_type st) s 0 true stack1 0 (loop_j st))
    as (out2 & w & stk & i & lj & E & Hw & Hnil & Hcons); [auto|].
  rewrite E; simpl.
  destruct lj as [jv|].
  - right. split.
    + destruct s; [right|left; discriminate].
      rewrite <- (Hnil eq_refl). discriminate.
    + destruct (i <? jv + 1)%nat.
      * pose proof (open_par_stack (par_type st) w stk Hw) as Hne3.
        destruct (open_par (par_type st) w stk) as [out3 stack3].
        eexists _, _. split; [reflexivity|].
        split; [intros _; exact Hne3|discriminate].
      * eexists _, _. split; [reflexivity|].
        split; [exact Hw|discriminate].
  - left. destruct s as [|c s'].
    + repeat split. symmetry. apply Hnil. reflexivity.
    + exfalso. apply Hcons; [discriminate|reflexivity].
Qed.

Lemma par_item_other (st : par_state) (it : item) :
  par_inv st ->
  (forall s, it <> Text s) ->
  exists out st', par_item st it = Ok (out, st')
                  /\ par_inv st' /\ loop_j st' = loop_j st.
Proof.
  intros Hinv Hnt. unfold par_item.
  destruct it as [s|a|t|t|s|s]; try (exfalso; eapply Hnt; reflexivity);
    try (eexists _, _; split; [reflexivity|split; [exact Hinv|reflexivity]]).
  pose proof (open_par_stack (par_type st) (within_par st) (par_stack st) Hinv)
    as Hne.
  destruct (open_par (par_type st) (within_par st) (par_stack st))
    as [out1 stack1].
  eexists _, _. split; [reflexivity|]. split; [intros _; exact Hne|reflexivity].
Qed.

Lemma par_loop_bound (contents : list item) :
  forall st, par_inv st -> loop_j st <> None ->
             exists out st', par_loop st contents = Ok (out, st')
                             /\ par_inv st'.
Proof.
  induction contents as [|it rest IH]; intros st Hinv Hj; simpl.
  - eexists _, _; split; [reflexivity|assumption].
  - assert (exists out1 st1, par_item st it = Ok (out1, st1)
                             /\ par_inv st1 /\ loop_j st1 <> None)
      as (out1 & st1 & E1 & Hinv1 & Hj1).
    { destruct it as [s|a|t|t|s|s].
      1: { destruct (par_item_text st s Hinv) as [(_ & Hn & _)|(_ & H)];
           [congruence|exact H]. }
      all: match goal with
           | |- context [par_item ?st0 ?it] =>
               destruct (par_item_other st0 it Hinv) as (o & s' & E & Hi & Hl);
               [discriminate|
                exists o, s'; repeat split; [exact E|exact Hi|congruence]]
           end. }
    rewrite E1; simpl.
    destruct (IH st1 Hinv1 Hj1) as (out2 & st2 & E2 & Hinv2).
    rewrite E2; simpl. eexists _, _; split; [reflexivity|assumption].
Qed.

Lemma par_loop_unbound (contents : list item) :
  forall st, par_inv st -> loop_j st = None ->
    (first_text contents = Some EmptyString
     /\ par_loop st contents = Raise (UnboundLocalError "j"))
    \/ (first_text contents <> Some EmptyString
        /\ exists out st', par_loop st contents = Ok (out, st')
                           /\ par_inv st').
Proof.
  induction contents as [|it rest IH]; intros st Hinv Hj.
  - right. split; [discriminate|].
    eexists _, _; split; [reflexivity|assumption].
  - destruct it as [s|a|t|t|s|s].
    1: { cbn [par_loop first_text].
         destruct (par_item_text st s Hinv)
           as [(Hs & _ & E)|(Hs & out1 & st1 & E1 & Hinv1 & Hj1)].
         - left. subst s. rewrite E. split; reflexivity.
         - right. split.
           + destruct Hs as [Hs|Hs]; congruence.
           + rewrite E1; simpl.
             destruct (par_loop_bound rest st1 Hinv1 Hj1)
               as (out2 & st2 & E2 & Hinv2).
             rewrite E2; simpl.
             eexists _, _; split; [reflexivity|assumption]. }
    all: match goal with
         | |- context [par_loop ?st0 (?it :: _)] =>
             destruct (par_item_other st0 it Hinv) as (o & s' & E & Hi & Hl);
             [discriminate|]
         end;
      cbn [par_loop first_text]; rewrite E; cbn [bind];
      (destruct (IH s' Hi) as [(Hf & E2)|(Hf & out2 & st2 & E2 & Hinv2)];
       [congruence
       |left; split; [exact Hf|rewrite E2; reflexivity]
       |right; split; [exact Hf|rewrite E2; simpl;
                                eexists _, _; split; [reflexivity|assumption]]]).
Qed.

Lemma par_finish_ok (st : par_state) :
  par_inv st -> exists out, par_finish st = Ok out.
Proof.
  unfold par_inv, par_finish. intros H.
  destruct (within_par st).
  - destruct (par_stack st); [exfalso; apply H; reflexivity|].
    eexists; reflexivity.
  - eexists; reflexivity.
Qed.

Definition no_par_begins (l : list item) : Prop :=
  Forall (fun it => is_par_begin it = false) l.

Lemma pars_kind (k k' : par_kind) :
  BeginTag (pars k) = BeginTag (RichTextParTag k') -> k' = k.
Proof. destruct k; simpl; intros H; injection H; auto. Qed.

Lemma open_par_begins (k : par_kind) (within : bool)
      (stack : list RichTextTag) (k' : par_kind) :
  In (BeginTag (RichTextParTag k')) (fst (open_par k within stack)) -> k' = k.
Proof.
  unfold open_par. destruct within; simpl; [tauto|].
  intros [H|[]]. apply pars_kind. exact H.
Qed.

Lemma text_loop_begins (text : string) (k : par_kind) :
  forall (cs : string) (j : nat) (within : bool) (stack : list RichTextTag)
         (i : nat) (lj : option nat) out fin,
    text_loop text k cs j within stack i lj = Ok (out, fin) ->
    forall k', In (BeginTag (RichTextParTag k')) out -> k' = k.
Proof.
  induction cs as [|c cs IH]; intros j within stack i lj out fin E k' Hin;
    simpl in E.
  - injection E as <- _. destruct Hin.
  - pose proof (open_par_begins k within stack k') as Hopen.
    destruct (open_par k within stack) as [out1 stack1]; simpl in Hopen.
    destruct (Ascii.eqb c nl).
    + destruct stack1 as [|top stack2]; [discriminate|].
      destruct (text_loop text k cs (S j) false stack2 (j + 1)%nat (Some j))
        as [[out2 fin2]|e] eqn:E2; simpl in E; [|discriminate].
      injection E as <- _.
      apply in_app_or in Hin. destruct Hin as [Hin|Hin]; [auto|].
      simpl in Hin. destruct Hin as [Hin|[Hin|Hin]]; try discriminate.
      eapply IH; eassumption.
    + destruct (text_loop text k cs (S j) true stack1 i (Some j))
        as [[out2 fin2]|e] eqn:E2; simpl in E; [|discriminate].
      injection E as <- _.
      apply in_app_or in Hin. destruct Hin as [Hin|Hin]; [auto|].
      eapply IH; eassumption.
Qed.

Lemma no_par_begins_in (l : list item) (k : par_kind) :
  no_par_begins l -> ~ In (BeginTag (RichTextParTag k)) l.
Proof.
  intros H Hin. unfold no_par_begins in H. rewrite Forall_forall in H.
  specialize (H _ Hin). discriminate.
Qed.

(** What one item does to [par_type] and [others], and which paragraphs it
    opens. *)
Lemma par_item_kind (st st' : par_state) (it : item) (out : list item) :
  par_item st it = Ok (out, st') ->
  par_type st'
  = match it with
    | BeginTag (RichTextIndentTag _ par_indent) => par_indent
    | _ => par_type st
    end
  /\ (no_par_begins (others st) -> is_par_begin it = false ->
      no_par_begins (others st'))
  /\ (no_par_begins (others st) ->
      forall k, In (BeginTag (RichTextParTag k)) out ->
                is_content it = true /\ k = par_type st).
Proof.
  unfold par_item. intros E.
  destruct it as [s|a|t|t|s|s].
  - pose proof (open_par_begins (par_type st) (within_par st) (par_stack st))
      as Hopen.
    destruct (open_par (par_type st) (within_par st) (par_stack st))
      as [out1 stack1]; simpl in Hopen.
    destruct (text_loop s (par_type st) s 0 true stack1 0 (loop_j st))
      as [[out2 [[[w stk] i] lj]]|e] eqn:E2; simpl in E; [|discriminate].
    pose proof (text_loop_begins _ _ _ _ _ _ _ _ _ _ E2) as Hloop.
    destruct lj as [jv|]; [|discriminate].
    destruct (i <? jv + 1)%nat.
    + pose proof (open_par_begins (par_type st) w stk) as Hopen3.
      destruct (open_par (par_type st) w stk) as [out3 stack3];
        simpl in Hopen3.
      injection E as <- <-. simpl.
      split; [reflexivity|]. split; [intros; constructor|].
      intros Hno k Hin. split; [reflexivity|].
      repeat (apply in_app_or in Hin; destruct Hin as [Hin|Hin]); auto.
      * exfalso. eapply no_par_begins_in; eassumption.
      * simpl in Hin. destruct Hin as [Hin|[]]. discriminate.
    + injection E as <- <-. simpl.
      split; [reflexivity|]. split; [intros; constructor|].
      intros Hno k Hin. split; [reflexivity|].
      repeat (apply in_app_or in Hin; destruct Hin as [Hin|Hin]); auto.
      exfalso. eapply no_par_begins_in; eassumption.
  - pose proof (open_par_begins (par_type st) (within_par st) (par_stack st))
      as Hopen.
    destruct (open_par (par_type st) (within_par st) (par_stack st))
      as [out1 stack1]; simpl in Hopen.
    injection E as <- <-. simpl.
    split; [reflexivity|]. split; [intros; constructor|].
    intros Hno k Hin. split; [reflexivity|].
    repeat (apply in_app_or in Hin; destruct Hin as [Hin|Hin]); auto.
    + exfalso. eapply no_par_begins_in; eassumption.
    + simpl in Hin. destruct Hin as [Hin|[]]. discriminate.
  - injection E as <- <-. simpl.
    split; [reflexivity|]. split.
    + intros Hno Hit. apply Forall_app. split; [exact Hno|].
      constructor; [exact Hit|constructor].
    + intros _ k [].
  - injection E as <- <-. simpl.
    split; [reflexivity|]. split.
    + intros Hno Hit. apply Forall_app. split; [exact Hno|].
      constructor; [exact Hit|constructor].
    + intros _ k [].
  - injection E as <- <-. simpl.
    split; [reflexivity|]. split.
    + intros Hno Hit. apply Forall_app. split; [exact Hno|].
      constructor; [exact Hit|constructor].
    + intros _ k [].
  - injection E as <- <-. simpl.
    split; [reflexivity|]. split.
    + intros Hno Hit. apply Forall_app. split; [exact Hno|].
      constructor; [exact Hit|constructor].
    + intros _ k [].
Qed.

Definition indent_kind_step (k : par_kind) (it : item) : par_kind :=
  match it with
  | BeginTag (RichTextIndentTag _ par_indent) => par_indent
  | _ => k
  end.

Lemma par_loop_kind (seen : list item) :
  forall st st' out,
    par_loop st seen = Ok (out, st') ->
    no_par_begins seen ->
    par_type st' = fold_left indent_kind_step seen (par_type st)
    /\ (no_par_begins (others st) -> no_par_begins (others st')).
Proof.
  induction seen as [|it rest IH]; intros st st' out E Hseen; simpl in E.
  - injection E as _ <-. split; [reflexivity|auto].
  - destruct (par_item st it) as [[out1 st1]|e] eqn:E1; simpl in E;
      [|discriminate].
    destruct (par_loop st1 rest) as [[out2 st2]|e] eqn:E2; simpl in E;
      [|discriminate].
    injection E as _ <-.
    inversion Hseen as [|? ? Hit Hrest]; subst.
    destruct (par_item_kind _ _ _ _ E1) as (Ht & Ho & _).
    destruct (IH _ _ _ E2 Hrest) as (Ht2 & Ho2).
    split.
    + rewrite Ht2, Ht. reflexivity.
    + intros Hno. apply Ho2. apply Ho; assumption.
Qed.

End FindParagraphs.

Lemma par_init_inv : par_inv par_init.
Proof. unfold par_inv, par_init; simpl; discriminate. Qed.

(** C10, as amended.  [find_paragraphs] fails exactly on the streams whose
    first [Text] item carries the empty string, and then with the unbound
    local [j]; on every other stream it runs to the end and yields its
    output.  (An empty [Text] after an earlier [Text] finds [j] still bound
    from that one and does not fail.) *)
Theorem find_paragraphs_fails_iff_first_text_empty (contents : list item) :
  (first_text contents = Some EmptyString
   <-> find_paragraphs contents = Raise (UnboundLocalError "j"))
  /\ (first_text contents <> Some EmptyString
      <-> exists out, find_paragraphs contents = Ok out).
Proof.
  unfold find_paragraphs.
  destruct (par_loop_unbound contents par_init par_init_inv eq_refl)
    as [(Hf & E)|(Hf & out & st & E & Hinv)]; rewrite E; simpl.
  - split; split; intros H; try reflexivity; try assumption.
    + congruence.
    + destruct H as (o & H). discriminate.
  - destruct (par_finish_ok st Hinv) as (out' & E'). rewrite E'; simpl.
    split; split; intros H; try assumption.
    + congruence.
    + discriminate.
    + eexists; reflexivity.
Qed.

Definition stream_empty_text_later : list item := [Text "a"; Text ""].

(** C10 as stated fails: the transform is total on a stream that has an
    empty [Text] item, when that item is not the first [Text]. *)
Lemma find_paragraphs_total_with_empty_text :
  In (Text "") stream_empty_text_later
  /\ find_paragraphs stream_empty_text_later
     = Ok [BeginTag P_TAG; Text "a"; Text ""; EndTag P_TAG].
Proof. split; [right; left; reflexivity|reflexivity]. Qed.

(** C5, as amended.  In a stream without paragraph tags of its own, a
    paragraph is opened only at a text or anchor item, and its kind is the
    item type of the last [Begin(Indent)] seen before that item, whether or
    not that indent has ended since (["none"] before the first). *)
Theorem paragraph_kind_follows_last_indent
        (seen : list item) (it : item) (out emitted : list item)
        (st st' : par_state) (k : par_kind) :
  no_par_begins seen ->
  par_loop par_init seen = Ok (out, st) ->
  par_item st it = Ok (emitted, st') ->
  In (BeginTag (RichTextParTag k)) emitted ->
  is_content it = true /\ k = last_indent_kind seen.
Proof.
  intros Hseen Eloop Eitem Hin.
  destruct (par_loop_kind seen _ _ _ Eloop Hseen) as (Hk & Hno).
  destruct (par_item_kind _ _ _ _ Eitem) as (_ & _ & Hbegin).
  destruct (Hbegin (Hno (Forall_nil _)) k Hin) as (Hc & Hkind).
  split; [exact Hc|]. rewrite Hkind, Hk. reflexivity.
Qed.

Definition bullet_indent : RichTextTag := RichTextIndentTag 1 par_bullet.

Definition stream_indent_ended : list item :=
  [BeginTag bullet_indent; Text ("a" ++ NL); EndTag bullet_indent].

Definition state_indent_ended : par_state :=
  mk_par false [EndTag bullet_indent] par_bullet [] (Some 1%nat).

Lemma par_loop_indent_ended :
  par_loop par_init stream_indent_ended
  = Ok ([BeginTag bullet_indent; BeginTag P_BULLET_TAG; Text ("a" ++ NL);
         EndTag P_BULLET_TAG], state_indent_ended).
Proof. reflexivity. Qed.

Lemma par_item_after_indent :
  par_item state_indent_ended (Text ("b" ++ NL))
  = Ok ([EndTag bullet_indent; BeginTag P_BULLET_TAG; Text ("b" ++ NL);
         EndTag P_BULLET_TAG],
        mk_par false [] par_bullet [] (Some 1%nat)).
Proof. reflexivity. Qed.

Lemma paragraph_kind_follows_last_indent_witness :
  is_content (Text ("b" ++ NL)) = true
  /\ par_bullet = last_indent_kind stream_indent_ended.
Proof.
  apply (paragraph_kind_follows_last_indent
           stream_indent_ended (Text ("b" ++ NL))
           [BeginTag bullet_indent; BeginTag P_BULLET_TAG; Text ("a" ++ NL);
            EndTag P_BULLET_TAG]
           [EndTag bullet_indent; BeginTag P_BULLET_TAG; Text ("b" ++ NL);
            EndTag P_BULLET_TAG]
           state_indent_ended (mk_par false [] par_bullet [] (Some 1%nat))
           par_bullet).
  - repeat constructor.
  - exact par_loop_indent_ended.
  - exact par_item_after_indent.
  - simpl. right. left. reflexivity.
Defined.

(** C5 as stated fails: after the bullet indent has ended no Indent
    encloses the text that follows, and yet the paragraph opened around it
    is a bullet paragraph. *)
Lemma paragraph_after_indent_end_is_bullet :
  enclosing_indent_kind stream_indent_ended = par_none
  /\ exists out st emitted st',
      par_loop par_init stream_indent_ended = Ok (out, st)
      /\ par_item st (Text ("b" ++ NL)) = Ok (emitted, st')
      /\ In (BeginTag (RichTextParTag par_bullet)) emitted.
Proof.
  split; [reflexivity|].
  eexists _, _, _, _. split; [exact par_loop_indent_ended|].
  split; [exact par_item_after_indent|].
  right. left. reflexivity.
Qed.

(** ** The tag registry knows the indent tags *)

Section Registry.

Definition no_blank (s : string) : Prop :=
  forall c, In c (list_ascii_of_string s) -> c <> " "%char.

Lemma split_no_blank (a : string) :
  no_blank a -> split " "%char a = [a].
Proof.
  induction a as [|c a IH]; intros H; simpl; [reflexivity|].
  destruct (Ascii.eqb_spec c " "%char) as [->|_].
  - exfalso. apply (H " "%char); simpl; auto.
  - rewrite IH; [reflexivity|].
    intros c' Hin. apply H. simpl. auto.
Qed.

Lemma split_at_blank (a b : string) :
  no_blank a ->
  split " "%char (a ++ String " "%char b) = a :: split " "%char b.
Proof.
  induction a as [|c a IH]; intros H; simpl; [reflexivity|].
  destruct (Ascii.eqb_spec c " "%char) as [->|_].
  - exfalso. apply (H " "%char); simpl; auto.
  - rewrite IH; [reflexivity|].
    intros c' Hin. apply H. simpl. auto.
Qed.

Lemma uint_no_blank (d : Decimal.uint) :
  no_blank (NilEmpty.string_of_uint d).
Proof.
  induction d; simpl; intros c Hin; try destruct Hin as [<-|Hin];
    try discriminate; try (apply IHd; assumption); try contradiction.
Qed.

Lemma dec_no_blank (z : Z) : no_blank (dec z).
Proof.
  unfold dec, NilZero.string_of_int, NilZero.string_of_uint.
  assert (Hone : no_blank "0").
  { intros c [<-|[]]. discriminate. }
  destruct (Z.to_int z) as [d|d].
  - destruct d; try exact Hone; apply uint_no_blank.
  - intros c [<-|Hin]; [discriminate|].
    revert c Hin. destruct d; try exact Hone; apply uint_no_blank.
Qed.

Lemma int_of_dec (z : Z) :
  NilZero.int_of_string (dec z) = Some (Z.to_int z).
Proof.
  unfold dec. apply NilZero.isi.
  - destruct z; simpl; try discriminate.
    intros H. injection H as H.
    exact (DecimalPos.Unsigned.to_uint_nonnil _ H).
  - destruct z; simpl; try discriminate.
    intros H. injection H as H.
    exact (DecimalPos.Unsigned.to_uint_nonnil _ H).
Qed.

Lemma lookup_tag_indent (k : Z) :
  lookup_tag (tag_name k) = RichTextIndentTag k par_none.
Proof.
  unfold lookup_tag, tag_name.
  change ("indent " ++ dec k ++ " none")%string
    with ("indent" ++ String " "%char (dec k ++ String " "%char "none"))%string.
  rewrite split_at_blank.
  2: { intros c Hin. simpl in Hin.
       repeat (destruct Hin as [<-|Hin]; [discriminate|]). contradiction. }
  rewrite split_at_blank by apply dec_no_blank.
  rewrite split_no_blank.
  2: { intros c Hin. simpl in Hin.
       repeat (destruct Hin as [<-|Hin]; [discriminate|]). contradiction. }
  cbv iota beta. rewrite int_of_dec.
  rewrite DecimalZ.of_to. reflexivity.
Qed.

Lemma lookup_tag_indent_table : indent_table lookup_tag.
Proof. intros k. exists par_none. apply lookup_tag_indent. Qed.

End Registry.

(** ** [nest_indent_tags] *)

Section NestIndentTags.

Variable tag_table : TagTable.

Lemma indent_walk_app (a b : list item) :
  forall d, indent_walk d (a ++ b)
            = match indent_walk d a with
              | Some d' => indent_walk d' b
              | None => None
              end.
Proof.
  induction a as [|it a IH]; intros d; simpl; [reflexivity|].
  destruct it as [s|x|t|t|s|s]; try apply IH.
  - destruct t; try apply IH. destruct (indent =? d + 1)%Z; [apply IH|reflexivity].
  - destruct t; try apply IH.
    destruct ((indent =? d)%Z && (1 <=? d)%Z); [apply IH|reflexivity].
Qed.

Lemma indent_walk_counts (out : list item) :
  forall d d', indent_walk d out = Some d' ->
               (Z.of_nat (count_items is_indent_begin out)
                - Z.of_nat (count_items is_indent_end out) = d' - d)%Z.
Proof.
  unfold count_items.
  induction out as [|it out IH]; intros d d' H; simpl in H.
  - injection H as <-. simpl. lia.
  - destruct it as [s|x|t|t|s|s];
      cbn [List.filter is_indent_begin is_indent_end Datatypes.length];
      try (apply IH; exact H).
    + destruct t;
        cbn [List.filter is_indent_begin is_indent_end Datatypes.length];
        try (apply IH; exact H).
      destruct (Z.eqb_spec indent (d + 1)); [|discriminate].
      specialize (IH _ _ H). rewrite Nat2Z.inj_succ. lia.
    + destruct t;
        cbn [List.filter is_indent_begin is_indent_end Datatypes.length];
        try (apply IH; exact H).
      destruct (Z.eqb_spec indent d); simpl in H; [|discriminate].
      destruct (Z.leb_spec 1 d); [|discriminate].
      specialize (IH _ _ H). rewrite Nat2Z.inj_succ. lia.
Qed.

Lemma close_indents_indent (n : nat) :
  forall indent, snd (close_indents tag_table n indent)
                 = (indent - Z.of_nat n)%Z.
Proof.
  induction n as [|n IH]; intros indent.
  - simpl. lia.
  - cbn [close_indents]. specialize (IH (indent - 1)%Z).
    destruct (close_indents tag_table n (indent - 1)) as [out indent'].
    simpl in *. lia.
Qed.

Lemma close_indents_walk (n : nat) (indent : Z) :
  indent_table tag_table ->
  (Z.of_nat n <= indent)%Z ->
  indent_walk indent (fst (close_indents tag_table n indent))
  = Some (indent - Z.of_nat n)%Z.
Proof.
  intros Htab. revert indent. induction n as [|n IH]; intros indent Hle.
  - simpl. f_equal. lia.
  - cbn [close_indents]. specialize (IH (indent - 1)%Z).
    destruct (close_indents tag_table n (indent - 1)) as [out indent'].
    destruct (Htab indent) as (p & ->). cbn [fst indent_walk] in *.
    rewrite Z.eqb_refl.
    destruct (Z.leb_spec 1 indent); [|lia]. cbn [andb].
    rewrite IH by lia. f_equal. lia.
Qed.

Lemma close_indents_items (n : nat) :
  forall indent it, In it (fst (close_indents tag_table n indent)) ->
                    exists t, it = EndTag t.
Proof.
  induction n as [|n IH]; intros indent it Hin; [destruct Hin|].
  cbn [close_indents] in Hin. specialize (IH (indent - 1)%Z it).
  destruct (close_indents tag_table n (indent - 1)) as [out indent'].
  simpl in *. destruct Hin as [<-|Hin]; eauto.
Qed.

Lemma open_indents_ok (n : nat) :
  forall indent, (0 <= indent)%Z ->
    exists out, open_indents tag_table n indent
                = Ok (out, (indent + Z.of_nat n)%Z)
                /\ (forall it, In it out -> exists t, it = BeginTag t)
                /\ (indent_table tag_table ->
                    indent_walk indent out = Some (indent + Z.of_nat n)%Z).
Proof.
  induction n as [|n IH]; intros indent Hle.
  - exists []. simpl. repeat split.
    + do 2 f_equal. lia.
    + intros it [].
    + intros _. f_equal. lia.
  - cbn [open_indents].
    destruct (Z.ltb_spec 0 (indent + 1)); [|lia].
    destruct (IH (indent + 1)%Z) as (out & E & Hitems & Hwalk); [lia|].
    rewrite E. cbn [bind].
    eexists. split; [|split].
    + do 2 f_equal. lia.
    + intros it [<-|Hin]; eauto.
    + intros Htab. destruct (Htab (indent + 1)%Z) as (p & ->). simpl.
      rewrite Z.eqb_refl. rewrite Hwalk by assumption. f_equal. lia.
Qed.

(** The state of the transform along a valid flat stream: inside an indent
    no close is pending; between indents a close is pending or every level
    is closed. *)
Definition nest_inv (open : option (Z * par_kind)) (st : nest_state) : Prop :=
  (0 <= nest_indent st)%Z
  /\ match open with
     | Some _ => indent_closing st = false
     | None => indent_closing st = true \/ nest_indent st = 0%Z
     end.

Definition plain_item (it : item) : Prop :=
  match it with BeginStr _ | EndStr _ => False | _ => True end.

Lemma nest_loop_valid (contents : list item) :
  forall open st,
    flat_indents open contents = true ->
    nest_inv open st ->
    exists out st',
      nest_loop tag_table st contents = Ok (out, st')
      /\ (0 <= nest_indent st')%Z
      /\ Forall plain_item out
      /\ (indent_table tag_table ->
          indent_walk (nest_indent st) out = Some (nest_indent st')).
Proof.
  induction contents as [|it rest IH]; intros open st Hvalid (Hpos & Hinv).
  - exists [], st. simpl. repeat split; auto.
  - cbn [nest_loop].
    assert (Hstep :
      exists out1 st1 open1,
        nest_item tag_table st it = Ok (out1, st1)
        /\ flat_indents open1 rest = true
        /\ nest_inv open1 st1
        /\ Forall plain_item out1
        /\ (indent_table tag_table ->
            indent_walk (nest_indent st) out1 = Some (nest_indent st1))).
    { unfold nest_item, nest_closing, nest_yield.
      destruct st as [indent closing]. simpl in *.
      destruct it as [s|a|t|t|s|s]; try discriminate.
      - (* text *)
        destruct closing.
        + pose proof (close_indents_indent (Z.to_nat indent) indent) as Hi.
          pose proof (close_indents_walk (Z.to_nat indent) indent) as Hw.
          pose proof (close_indents_items (Z.to_nat indent) indent) as Hit.
          destruct (close_indents tag_table (Z.to_nat indent) indent)
            as [out ind']. simpl in *. subst ind'.
          eexists _, _, open. split; [reflexivity|]. split; [exact Hvalid|].
          split; [|split].
          * split; simpl; [lia|]. destruct open; [discriminate|right; lia].
          * apply Forall_app. split; [|repeat constructor].
            apply Forall_forall. intros x Hx.
            destruct (Hit x Hx) as (t & ->). exact I.
          * intros Htab. simpl. rewrite indent_walk_app.
            rewrite Hw by (auto; lia). reflexivity.
        + eexists _, _, open. split; [reflexivity|]. split; [exact Hvalid|].
          split; [split; assumption|]. split; [repeat constructor|].
          intros _. reflexivity.
      - (* anchor *)
        destruct closing.
        + pose proof (close_indents_indent (Z.to_nat indent) indent) as Hi.
          pose proof (close_indents_walk (Z.to_nat indent) indent) as Hw.
          pose proof (close_indents_items (Z.to_nat indent) indent) as Hit.
          destruct (close_indents tag_table (Z.to_nat indent) indent)
            as [out ind']. simpl in *. subst ind'.
          eexists _, _, open. split; [reflexivity|]. split; [exact Hvalid|].
          split; [|split].
          * split; simpl; [lia|]. destruct open; [discriminate|right; lia].
          * apply Forall_app. split; [|repeat constructor].
            apply Forall_forall. intros x Hx.
            destruct (Hit x Hx) as (t & ->). exact I.
          * intros Htab. simpl. rewrite indent_walk_app.
            rewrite Hw by (auto; lia). reflexivity.
        + eexists _, _, open. split; [reflexivity|]. split; [exact Hvalid|].
          split; [split; assumption|]. split; [repeat constructor|].
          intros _. reflexivity.
      - (* begin *)
        destruct t as [n|f|z|j|c|c|next p| |k|n];
          try (destruct closing;
               (eexists _, _, open; split; [reflexivity|];
                split; [exact Hvalid|]; split; [split; assumption|];
                split; [repeat constructor|]; intros _; reflexivity)).
        destruct open as [o|]; [discriminate|].
        apply andb_prop in Hvalid. destruct Hvalid as (Hlevel & Hvalid).
        apply Z.leb_le in Hlevel.
        assert (Hclose :
          exists out1 indent1,
            (if closing
             then let '(out, indent') :=
                    close_indents tag_table (Z.to_nat (indent - next)) indent
                  in (out, mk_nest indent' false)
             else ([], mk_nest indent closing))
            = (out1, mk_nest indent1 false)
            /\ (0 <= indent1 <= next)%Z
            /\ Forall plain_item out1
            /\ (indent_table tag_table ->
                indent_walk indent out1 = Some indent1)).
        { destruct closing.
          - pose proof (close_indents_indent (Z.to_nat (indent - next)) indent)
              as Hi.
            pose proof (close_indents_walk (Z.to_nat (indent - next)) indent) as Hw.
            pose proof (close_indents_items (Z.to_nat (indent - next)) indent)
              as Hit.
            destruct (close_indents tag_table (Z.to_nat (indent - next)) indent)
              as [out ind']. simpl in *. subst ind'.
            eexists _, _. split; [reflexivity|]. split; [lia|]. split.
            + apply Forall_forall. intros x Hx.
              destruct (Hit x Hx) as (t & ->). exact I.
            + intros Htab. apply Hw; [assumption|lia].
          - destruct Hinv as [Hinv|Hinv]; [discriminate|]. subst indent.
            eexists _, _. split; [reflexivity|]. split; [lia|].
            split; [constructor|]. intros _. reflexivity. }
        destruct Hclose as (out1 & indent1 & -> & Hrange & Hplain1 & Hwalk1).
        cbn [nest_indent indent_closing].
        destruct (Z.geb_spec next indent1); [|lia].
        destruct (open_indents_ok (Z.to_nat (next - indent1)) indent1)
          as (out2 & E2 & Hitems2 & Hwalk2); [lia|].
        rewrite E2. cbn [bind].
        eexists _, _, (Some (next, p)). split; [reflexivity|].
        split; [exact Hvalid|]. split; [|split].
        * split; simpl; [lia|reflexivity].
        * apply Forall_app. split; [exact Hplain1|].
          apply Forall_forall. intros x Hx.
          destruct (Hitems2 x Hx) as (t & ->). exact I.
        * intros Htab. simpl. rewrite indent_walk_app.
          rewrite Hwalk1 by assumption. rewrite Hwalk2 by assumption.
          reflexivity.
      - (* end *)
        destruct t as [n|f|z|j|c|c|next p| |k|n];
          try (destruct closing;
               (eexists _, _, open; split; [reflexivity|];
                split; [exact Hvalid|]; split; [split; assumption|];
                split; [repeat constructor|]; intros _; reflexivity)).
        destruct open as [[m q]|]; [|discriminate].
        apply andb_prop in Hvalid. destruct Hvalid as (_ & Hvalid).
        subst closing.
        eexists _, _, None. split; [reflexivity|]. split; [exact Hvalid|].
        split; [split; simpl; auto|]. split; [constructor|].
        intros _. reflexivity. }
    destruct Hstep as (out1 & st1 & open1 & E1 & Hvalid1 & Hinv1 & Hplain1
                       & Hwalk1).
    rewrite E1. cbn [bind].
    destruct (IH open1 st1 Hvalid1 Hinv1)
      as (out2 & st2 & E2 & Hpos2 & Hplain2 & Hwalk2).
    rewrite E2. cbn [bind].
    eexists _, _. split; [reflexivity|]. split; [exact Hpos2|].
    split; [apply Forall_app; split; assumption|].
    intros Htab. rewrite indent_walk_app.
    rewrite Hwalk1 by assumption. apply Hwalk2. assumption.
Qed.

(** On a valid flat stream the transform runs to its end, back at depth 0,
    and yields items of the four content kinds. *)
Lemma nest_run_valid (contents : list item) :
  valid_flat_stream contents ->
  exists out st,
    nest_run tag_table contents = Ok (out, st)
    /\ nest_indent st = 0%Z
    /\ Forall plain_item out
    /\ (indent_table tag_table -> indent_walk 0 out = Some 0%Z).
Proof.
  intros Hvalid. unfold nest_run.
  destruct (nest_loop_valid contents None nest_init Hvalid)
    as (out & st & E & Hpos & Hplain & Hwalk).
  { split; simpl; [lia|right; reflexivity]. }
  rewrite E. cbn [bind]. unfold nest_finish.
  pose proof (close_indents_indent (Z.to_nat (nest_indent st)) (nest_indent st))
    as Hi.
  pose proof (close_indents_walk (Z.to_nat (nest_indent st)) (nest_indent st))
    as Hw.
  pose proof (close_indents_items (Z.to_nat (nest_indent st)) (nest_indent st))
    as Hit.
  destruct (close_indents tag_table (Z.to_nat (nest_indent st)) (nest_indent st))
    as [out' ind']. simpl in *. subst ind'.
  eexists _, _. split; [reflexivity|]. split; [simpl; lia|]. split.
  - apply Forall_app. split; [exact Hplain|].
    apply Forall_forall. intros x Hx. destruct (Hit x Hx) as (t & ->). exact I.
  - intros Htab. rewrite indent_walk_app. rewrite Hwalk by assumption.
    rewrite Hw by (auto; lia). f_equal. lia.
Qed.

End NestIndentTags.

(** C4.  On every valid flat-indent stream, with a registry that knows the
    indent tags, [nest_indent_tags] runs to its end; the [Begin(Indent)] and
    [End(Indent)] items it yields nest, each begin opening the level one
    above the open one and each end closing the open level, from depth 0
    back to depth 0; there are as many of the one as of the other; and the
    depth the transform tracks is 0 when the stream is exhausted. *)
Theorem nest_indent_tags_balanced
        (tag_table : TagTable) (contents : list item) :
  indent_table tag_table ->
  valid_flat_stream contents ->
  exists out st,
    nest_run tag_table contents = Ok (out, st)
    /\ nest_indent_tags contents tag_table = Ok out
    /\ nest_indent st = 0%Z
    /\ indent_walk 0 out = Some 0%Z
    /\ count_items is_indent_begin out = count_items is_indent_end out.
Proof.
  intros Htab Hvalid.
  destruct (nest_run_valid tag_table contents Hvalid)
    as (out & st & E & Hzero & _ & Hwalk).
  exists out, st. split; [exact E|].
  split; [unfold nest_indent_tags; rewrite E; reflexivity|].
  split; [exact Hzero|]. split; [auto|].
  pose proof (indent_walk_counts out 0 0 (Hwalk Htab)) as Hc. lia.
Qed.

Definition stream_two_levels : list item :=
  [BeginTag (RichTextIndentTag 2 par_bullet); Text ("a" ++ NL);
   EndTag (RichTextIndentTag 2 par_bullet);
   BeginTag (RichTextIndentTag 1 par_none); Text ("b" ++ NL);
   EndTag (RichTextIndentTag 1 par_none); Text "c"].

Lemma nest_indent_tags_balanced_witness :
  exists out st,
    nest_run lookup_tag stream_two_levels = Ok (out, st)
    /\ nest_indent_tags stream_two_levels lookup_tag = Ok out
    /\ nest_indent st = 0%Z
    /\ indent_walk 0 out = Some 0%Z
    /\ count_items is_indent_begin out = count_items is_indent_end out.
Proof.
  apply (nest_indent_tags_balanced lookup_tag stream_two_levels).
  - exact lookup_tag_indent_table.
  - reflexivity.
Defined.

(** ** [unnest_indent_tags] *)

Section UnnestIndentTags.

Lemma unnest_loop_plain (contents : list item) :
  Forall plain_item contents ->
  forall st, unnest_loop st contents = Ok (contents, st).
Proof.
  induction 1 as [|it rest Hit _ IH]; intros st; simpl; [reflexivity|].
  destruct it as [s|a|t|t|s|s]; try contradiction;
    simpl; rewrite IH; reflexivity.
Qed.

Lemma nest_loop_no_indents (tag_table : TagTable) (contents : list item) :
  forallb (fun it => negb (is_indent_item it)) contents = true ->
  forall indent,
    nest_loop tag_table (mk_nest indent false) contents
    = Ok (contents, mk_nest indent false).
Proof.
  induction contents as [|it rest IH]; intros H indent; simpl in *;
    [reflexivity|].
  apply andb_prop in H. destruct H as (Hit & Hrest).
  unfold nest_item, nest_closing, nest_yield. simpl.
  destruct it as [s|a|t|t|s|s]; simpl; try (rewrite IH by assumption; reflexivity);
    destruct t; try discriminate; simpl; rewrite IH by assumption; reflexivity.
Qed.



End UnnestIndentTags.






(** C2, as amended.  On every valid flat-indent stream [nest_indent_tags]
    runs to its end, and [unnest_indent_tags] passes what it yields through
    unchanged: the composition returns the nested stream.  That is the
    stream itself when it has no indent tags. *)
Theorem unnest_keeps_nested_stream
        (tag_table : TagTable) (contents : list item) :
  valid_flat_stream contents ->
  exists out,
    nest_indent_tags contents tag_table = Ok out
    /\ unnest_indent_tags out = Ok out
    /\ (forallb (fun it => negb (is_indent_item it)) contents = true ->
        out = contents).
Proof.
  intros Hvalid.
  destruct (nest_run_valid tag_table contents Hvalid)
    as (out & st & E & _ & Hplain & _).
  exists out. split; [unfold nest_indent_tags; rewrite E; reflexivity|].
  split.
  - unfold unnest_indent_tags. rewrite unnest_loop_plain by assumption.
    reflexivity.
  - intros Hno. unfold nest_run in E.
    change nest_init with (mk_nest 0 false) in E.
    rewrite nest_loop_no_indents in E by assumption.
    cbn in E. injection E as <- _. apply app_nil_r.
Qed.

Definition stream_level_two : list item :=
  [BeginTag (RichTextIndentTag 2 par_none); Text "a";
   EndTag (RichTextIndentTag 2 par_none)].

Lemma unnest_keeps_nested_stream_witness :
  exists out,
    nest_indent_tags stream_level_two lookup_tag = Ok out
    /\ unnest_indent_tags out = Ok out
    /\ (forallb (fun it => negb (is_indent_item it)) stream_level_two = true ->
        out = stream_level_two).
Proof.
  apply (unnest_keeps_nested_stream lookup_tag stream_level_two).
  reflexivity.
Defined.

(** C2 as stated fails: a valid flat stream with an indent of level 2 comes
    back from nesting and un-nesting with levels 1 and 2 opened and closed
    around its text, not as the flat stream it was. *)
Lemma unnest_after_nest_is_not_identity :
  valid_flat_stream stream_level_two
  /\ (nested <- nest_indent_tags stream_level_two lookup_tag ;;
      unnest_indent_tags nested)
     = Ok [BeginTag (RichTextIndentTag 1 par_none);
           BeginTag (RichTextIndentTag 2 par_none); Text "a";
           EndTag (RichTextIndentTag 2 par_none);
           EndTag (RichTextIndentTag 1 par_none)]
  /\ (nested <- nest_indent_tags stream_level_two lookup_tag ;;
      unnest_indent_tags nested)
     <> Ok stream_level_two.
Proof.
  split; [reflexivity|].
  assert (E : (nested <- nest_indent_tags stream_level_two lookup_tag ;;
               unnest_indent_tags nested)
              = Ok [BeginTag (RichTextIndentTag 1 par_none);
                    BeginTag (RichTextIndentTag 2 par_none); Text "a";
                    EndTag (RichTextIndentTag 2 par_none);
                    EndTag (RichTextIndentTag 1 par_none)])
    by (vm_compute; reflexivity).
  split; [exact E|]. rewrite E. discriminate.
Qed.

(** ** Character data *)

Section CharacterData.

Lemma skip_blanks_split (s : string) :
  exists run, s = (run ++ skip_blanks s)%string
              /\ all_blank run
              /\ starts_blank (skip_blanks s) = false.
Proof.
  induction s as [|c s (run & E & Hrun & Hstart)]; simpl.
  - exists EmptyString. repeat split. intros c [].
  - destruct (is_blank c) eqn:Hc.
    + exists (String c run). simpl. rewrite <- E. repeat split; auto.
      intros c' [<-|Hin]; auto.
    + exists EmptyString. simpl. rewrite Hc. repeat split. intros c' [].
Qed.

Lemma skip_blanks_length (s : string) :
  (String.length (skip_blanks s) <= String.length s)%nat.
Proof.
  induction s as [|c s IH]; simpl; [lia|].
  destruct (is_blank c); simpl; lia.
Qed.

(** Inside a run, what is left of the run is skipped. *)
Lemma collapse_from_run (s : string) :
  collapse_from true s = collapse_from false (skip_blanks s).
Proof.
  induction s as [|c s IH]; simpl; [reflexivity|].
  destruct (is_blank c) eqn:Hc; [exact IH|].
  simpl. rewrite Hc. reflexivity.
Qed.

Lemma collapse_from_run_app (run s : string) :
  all_blank run -> starts_blank s = false ->
  collapse_from true (run ++ s) = collapse_from false s.
Proof.
  induction run as [|c run IH]; intros Hrun Hs; simpl.
  - destruct s as [|c s]; [reflexivity|]. simpl in *. rewrite Hs. reflexivity.
  - rewrite (Hrun c) by (simpl; auto).
    apply IH; [|exact Hs]. intros c' Hin. apply Hrun. simpl. auto.
Qed.

Lemma collapse_blanks_collapsed_len (n : nat) :
  forall s, (String.length s <= n)%nat -> collapsed s (collapse_blanks s).
Proof.
  unfold collapse_blanks.
  induction n as [|n IH]; intros s Hlen.
  - destruct s; [constructor|simpl in Hlen; lia].
  - destruct s as [|c s]; [constructor|]. simpl in Hlen. simpl.
    destruct (is_blank c) eqn:Hc.
    + rewrite collapse_from_run.
      destruct (skip_blanks_split s) as (run & E & Hrun & Hstart).
      rewrite E at 1.
      change (String c (run ++ skip_blanks s))
        with (String c run ++ skip_blanks s)%string.
      apply collapsed_run; auto.
      * discriminate.
      * intros c' [<-|Hin]; auto.
      * apply IH. pose proof (skip_blanks_length s). lia.
    + apply collapsed_char; [exact Hc|]. apply IH. lia.
Qed.

Lemma collapse_blanks_collapsed (s : string) :
  collapsed s (collapse_blanks s).
Proof. apply (collapse_blanks_collapsed_len (String.length s)). lia. Qed.

Lemma collapsed_unique (s t : string) :
  collapsed s t -> t = collapse_blanks s.
Proof.
  unfold collapse_blanks.
  induction 1 as [|c s t Hc _ IH|run s t Hne Hrun Hs _ IH].
  - reflexivity.
  - simpl. rewrite Hc. f_equal. exact IH.
  - destruct run as [|c run]; [congruence|]. simpl.
    rewrite (Hrun c) by (simpl; auto). f_equal. rewrite IH. symmetry.
    apply collapse_from_run_app; [|exact Hs].
    intros c' Hin. apply Hrun. simpl. auto.
Qed.

Lemma startswith_newline (c : ascii) (s : string) :
  startswith (String c s) NL = Ascii.eqb c nl.
Proof.
  unfold startswith, NL. cbn [prefix].
  destruct (Ascii.ascii_dec nl c) as [<-|Hne].
  - rewrite Ascii.eqb_refl. destruct s; reflexivity.
  - destruct (Ascii.eqb_spec c nl); congruence.
Qed.

End CharacterData.

(** C3, as amended.  For every data string, what [handle_data] appends is
    the data with every maximal run of newlines and spaces collapsed to one
    space; when the newline flag is set (by a [<br>], or by the end of a
    list or list item) and the data starts with a newline, the whole leading
    run is removed first.  A leading run that starts with a space is not
    removed: it collapses like any other. *)
Theorem handle_data_whitespace (newline : bool) (data : string)
        (hb : HtmlBuffer) :
  let kept := if newline && startswith data NL then skip_blanks data
              else data in
  collapsed kept (data_text newline data)
  /\ (forall t, collapsed kept t -> t = data_text newline data)
  /\ (exists run, data = (run ++ skip_blanks data)%string
                  /\ all_blank run
                  /\ starts_blank (skip_blanks data) = false)
  /\ (_partial hb || _within_body hb = true ->
      _dom (handle_data data hb)
      = _dom (append_text (data_text (_newline hb) data) hb)).
Proof.
  assert (Hkept : data_text newline data
                  = collapse_blanks
                      (if newline && startswith data NL then skip_blanks data
                       else data)).
  { unfold data_text, strip_leading_newline.
    destruct newline; [|reflexivity].
    destruct data as [|c s]; [reflexivity|].
    rewrite startswith_newline. cbn [andb skip_blanks].
    destruct (Ascii.eqb_spec c nl) as [->|Hne]; reflexivity. }
  cbv zeta. rewrite Hkept. split; [apply collapse_blanks_collapsed|].
  split; [apply collapsed_unique|]. split; [apply skip_blanks_split|].
  intros Hactive. destruct hb as [nline stack body partial dom ptr].
  unfold handle_data, append_text, set_newline, set_dom, append_node.
  cbn [_partial _within_body _newline _dom _dom_ptr _tag_stack] in *.
  replace (negb partial && negb body) with false
    by (destruct partial, body; simpl in *; congruence).
  destruct nline; cbn [_partial _within_body _newline _dom _dom_ptr _tag_stack];
    destruct (0 <? String.length _)%nat; try reflexivity;
    destruct (last_child dom ptr) as [[[] ?]|]; reflexivity.
Qed.

(** C3 as stated fails: after a [<br>], a leading run that starts with a
    space is kept as one space. *)
Lemma leading_space_after_br_is_kept :
  data_text true " a" = " a"
  /\ data_text_as_claimed true " a" = "a"
  /\ _newline (fst (handle_starttag "br" [] HtmlBuffer_init)) = true.
Proof. repeat split. Qed.

(** ** [parse_style] *)

Section ParseStyle.

Lemma startswith_text_align (statement : string) :
  startswith statement "text-align" = true ->
  startswith statement "font-size" = false
  /\ startswith statement "font-family" = false.
Proof.
  unfold startswith. destruct statement as [|c s]; [discriminate|].
  cbn [prefix]. destruct (Ascii.ascii_dec "t"%char c) as [<-|_];
    [|discriminate].
  intros _. split; reflexivity.
Qed.

Lemma second_raises (xs : list string) (e : exn) :
  second xs = Raise e -> e = IndexError.
Proof.
  unfold second. destruct xs as [|? [|? ?]]; intros H;
    try discriminate; injection H as <-; reflexivity.
Qed.

(** The only statement that raises [HtmlError] is a [text-align] with a
    value outside [_justify]. *)
Lemma style_tagstr_html_error (statement msg : string) :
  style_tagstr statement = Raise (HtmlError msg) ->
  startswith statement "text-align" = true
  /\ exists value, second (split ":" statement) = Ok value
                   /\ str_in (strip value) _justify = false.
Proof.
  unfold style_tagstr.
  destruct (second (split ":" statement)) as [v|e] eqn:E;
    [|apply second_raises in E; subst e];
    repeat match goal with
           | |- context [if startswith statement ?p then _ else _] =>
               destruct (startswith statement p) eqn:?
           end;
    cbn [bind]; try discriminate.
  - unfold int_of_digits. destruct (filter isdigit v); discriminate.
  - destruct (str_in (strip v) _justify) eqn:Hin; cbn [negb].
    + destruct (String.eqb (strip v) "justify"); discriminate.
    + intros _. split; [reflexivity|]. exists v. split; [reflexivity|exact Hin].
Qed.

Lemma style_tagstr_text_align (statement value : string) :
  startswith statement "text-align" = true ->
  second (split ":" statement) = Ok value ->
  style_tagstr statement
  = if str_in (strip value) _justify
    then Ok (Some (if String.eqb (strip value) "justify" then "fill"
                   else strip value))
    else Raise (HtmlError ("unknown justification '" ++ strip value ++ "'")).
Proof.
  intros Hstart Hvalue. unfold style_tagstr.
  destruct (startswith_text_align statement Hstart) as (-> & ->).
  rewrite Hstart, Hvalue. cbn [bind].
  destruct (str_in (strip value) _justify); cbn [negb]; [|reflexivity].
  destruct (String.eqb (strip value) "justify"); reflexivity.
Qed.

Definition statement_ok (statement : string) : Prop :=
  is_ok (style_tagstr (strip statement)) = true.

Lemma parse_statements_raises (statements : list string) :
  forall hb hb' e,
    parse_statements statements hb = (hb', Some e) ->
    exists pre statement post,
      statements = pre ++ statement :: post
      /\ Forall statement_ok pre
      /\ style_tagstr (strip statement) = Raise e.
Proof.
  induction statements as [|s rest IH]; intros hb hb' e H; simpl in H.
  - discriminate.
  - destruct (style_tagstr (strip s)) as [[tagstr|]|e'] eqn:Es.
    + destruct (IH _ _ _ H) as (pre & st & post & -> & Hpre & Hst).
      exists (s :: pre), st, post. split; [reflexivity|].
      split; [|exact Hst]. constructor; [|exact Hpre].
      unfold statement_ok. rewrite Es. reflexivity.
    + destruct (IH _ _ _ H) as (pre & st & post & -> & Hpre & Hst).
      exists (s :: pre), st, post. split; [reflexivity|].
      split; [|exact Hst]. constructor; [|exact Hpre].
      unfold statement_ok. rewrite Es. reflexivity.
    + injection H as _ <-. exists [], s, rest.
      split; [reflexivity|]. split; [constructor|exact Es].
Qed.

Lemma parse_statements_reaches (pre : list string) :
  forall statement post e hb,
    Forall statement_ok pre ->
    style_tagstr (strip statement) = Raise e ->
    exists hb', parse_statements (pre ++ statement :: post) hb = (hb', Some e).
Proof.
  induction pre as [|s pre IH]; intros statement post e hb Hpre Hst; simpl.
  - rewrite Hst. eexists; reflexivity.
  - inversion Hpre as [|? ? Hs Hpre']; subst. unfold statement_ok in Hs.
    destruct (style_tagstr (strip s)) as [[tagstr|]|e']; try discriminate;
      apply IH; assumption.
Qed.

Lemma parse_statements_app (pre post : list string) :
  forall hb,
    parse_statements (pre ++ post) hb
    = match parse_statements pre hb with
      | (hb1, None) => parse_statements post hb1
      | failed => failed
      end.
Proof.
  induction pre as [|s pre IH]; intros hb; cbn [app parse_statements];
    [reflexivity|].
  destruct (style_tagstr (strip s)) as [[tagstr|]|e]; [apply IH|apply IH|].
  reflexivity.
Qed.

Lemma parse_statements_passes (pre : list string) :
  Forall statement_ok pre ->
  forall hb, exists hb1, parse_statements pre hb = (hb1, None).
Proof.
  induction 1 as [|s pre Hs _ IH]; intros hb; cbn [parse_statements].
  - eexists; reflexivity.
  - unfold statement_ok in Hs.
    destruct (style_tagstr (strip s)) as [[tagstr|]|e]; try discriminate;
      apply IH.
Qed.

End ParseStyle.

(** C7, as amended.  [parse_style] raises [HtmlError] if and only if the
    scan of the statements of the style (its pieces between semicolons) gets
    to one, every statement before it having been taken without an
    exception, whose text, stripped, starts with the characters
    [text-align] and whose second colon-separated field, stripped, is not
    one of left, center, right, fill, justify.  When that field is one of
    the five, the statements before having been taken, [parse_style] appends
    under the insertion point the element named by the field, [fill] for
    [justify], makes it the insertion point, and goes on with the statements
    that follow. *)
Theorem parse_style_html_error_iff (stylestr : string) (hb : HtmlBuffer) :
  ((exists hb' msg, parse_style (Some stylestr) hb = (hb', Some (HtmlError msg)))
   <-> exists pre statement post value,
        split ";" stylestr = pre ++ statement :: post
        /\ Forall statement_ok pre
        /\ startswith (strip statement) "text-align" = true
        /\ second (split ":" (strip statement)) = Ok value
        /\ str_in (strip value) _justify = false)
  /\ (forall pre statement post value,
         split ";" stylestr = pre ++ statement :: post ->
         Forall statement_ok pre ->
         startswith (strip statement) "text-align" = true ->
         second (split ":" (strip statement)) = Ok value ->
         str_in (strip value) _justify = true ->
         exists hb1,
           parse_statements pre hb = (hb1, None)
           /\ parse_style (Some stylestr) hb
              = parse_statements post
                  (mk_buffer
                     (_newline hb1) (_tag_stack hb1) (_within_body hb1)
                     (_partial hb1)
                     (append_child
                        (_dom_ptr hb1)
                        (Node (TagNameDom
                                 (if String.eqb (strip value) "justify"
                                  then "fill" else strip value)) [])
                        (_dom hb1))
                     (_dom_ptr hb1
                      ++ [num_children (_dom hb1) (_dom_ptr hb1)]))).
Proof.
  split; [split|].
  - intros (hb' & msg & H). unfold parse_style in H.
    destruct (parse_statements_raises _ _ _ _ H)
      as (pre & st & post & E & Hpre & Hst).
    destruct (style_tagstr_html_error _ _ Hst) as (Hstart & value & Hv & Hin).
    exists pre, st, post, value. auto.
  - intros (pre & st & post & value & E & Hpre & Hstart & Hv & Hin).
    unfold parse_style. rewrite E.
    pose proof (style_tagstr_text_align _ _ Hstart Hv) as Hst.
    rewrite Hin in Hst.
    destruct (parse_statements_reaches pre st post _ hb Hpre Hst) as (hb' & H).
    exists hb', ("unknown justification '" ++ strip value ++ "'")%string.
    exact H.
  - intros pre statement post value E Hpre Hstart Hv Hin.
    destruct (parse_statements_passes pre Hpre hb) as (hb1 & Hhb1).
    exists hb1. split; [exact Hhb1|].
    unfold parse_style. rewrite E, parse_statements_app, Hhb1.
    cbn [parse_statements].
    rewrite (style_tagstr_text_align _ _ Hstart Hv), Hin. reflexivity.
Qed.

(** C7 as stated fails, in both directions.  The statement
    [text-align-last: auto] is no [text-align] declaration and raises
    [HtmlError], its text starting with the characters [text-align]; and
    the [text-align] declaration with the value [center: bogus], which is
    not one of the five, raises nothing: what is looked at is the field
    between the first colon and the second. *)
Lemma text_align_is_tested_by_prefix :
  (has_text_align_outside "text-align-last: auto" = false
   /\ parse_style (Some "text-align-last: auto") HtmlBuffer_init
      = (HtmlBuffer_init, Some (HtmlError "unknown justification 'auto'")))
  /\ (has_text_align_outside "text-align: center: bogus" = true
      /\ parse_style (Some "text-align: center: bogus") HtmlBuffer_init
         = (open_tagname "center" HtmlBuffer_init, None)).
Proof. repeat split. Qed.

(** ** [read] *)

Section Read.

(** Induction on a tree, with the property at hand for every child. *)
Fixpoint Dom_children_ind (P : Dom -> Prop)
         (step : forall k cs, Forall P cs -> P (Node k cs)) (d : Dom) : P d :=
  match d with
  | Node k cs =>
      step k cs
           ((fix children (l : list Dom) : Forall P l :=
               match l with
               | [] => Forall_nil P
               | c :: l' =>
                   Forall_cons c (Dom_children_ind P step c) (children l')
               end) cs)
  end.

Lemma unnest_loop_app (a b : list item) :
  forall st,
    unnest_loop st (a ++ b)
    = ('(out1, st1) <- unnest_loop st a ;;
       '(out2, st2) <- unnest_loop st1 b ;;
       Ok (out1 ++ out2, st2)).
Proof.
  induction a as [|it a IH]; intros st; simpl.
  - destruct (unnest_loop st b) as [[out2 st2]|e]; reflexivity.
  - destruct (unnest_item st it) as [[out1 st1]|e]; cbn [bind]; [|reflexivity].
    rewrite IH.
    destruct (unnest_loop st1 a) as [[out2 st2]|e]; cbn [bind]; [|reflexivity].
    destruct (unnest_loop st2 b) as [[out3 st3]|e]; cbn [bind]; [|reflexivity].
    rewrite app_assoc. reflexivity.
Qed.

(** A stream on which un-nesting goes through from any state and comes
    back to the state it started in. *)
Definition unnest_neutral (contents : list item) : Prop :=
  forall st, exists out, unnest_loop st contents = Ok (out, st).

Lemma unnest_neutral_app (a b : list item) :
  unnest_neutral a -> unnest_neutral b -> unnest_neutral (a ++ b).
Proof.
  intros Ha Hb st. rewrite unnest_loop_app.
  destruct (Ha st) as (out1 & ->). cbn [bind].
  destruct (Hb st) as (out2 & ->). cbn [bind].
  eexists; reflexivity.
Qed.

Lemma unnest_neutral_children (cs : list Dom) :
  Forall (fun c => unnest_neutral (visit_contents c)) cs ->
  unnest_neutral (flat_map visit_contents cs).
Proof.
  induction 1 as [|c cs Hc _ IH]; simpl.
  - intros st. eexists; reflexivity.
  - apply unnest_neutral_app; assumption.
Qed.

Lemma unnest_neutral_plain (it : item) :
  plain_item it -> unnest_neutral [it].
Proof.
  intros H st. rewrite unnest_loop_plain by (constructor; auto).
  eexists; reflexivity.
Qed.

Lemma unnest_neutral_tagname (tagname : string) (inner : list item) :
  unnest_neutral inner ->
  unnest_neutral (BeginStr tagname :: inner ++ [EndStr tagname]).
Proof.
  intros Hinner [indent stack].
  cbn [unnest_loop unnest_item unnest_indent li_stack].
  destruct (String.eqb tagname "ol") eqn:Hol; cbn [bind].
  - rewrite unnest_loop_app.
    destruct (Hinner (mk_unnest (indent + 1) stack)) as (out & ->).
    cbn [bind unnest_loop unnest_item unnest_indent li_stack].
    rewrite Hol. cbn [bind].
    replace (indent + 1 - 1)%Z with indent by lia.
    eexists; reflexivity.
  - destruct (startswith tagname "li") eqn:Hli; cbn [bind].
    + rewrite unnest_loop_app.
      destruct (Hinner (mk_unnest indent
                          (indent_tagstr indent (slice_from 3 tagname) :: stack)))
        as (out & ->).
      cbn [bind unnest_loop unnest_item unnest_indent li_stack].
      rewrite Hol, Hli. cbn [bind]. eexists; reflexivity.
    + rewrite unnest_loop_app.
      destruct (Hinner (mk_unnest indent stack)) as (out & ->).
      cbn [bind unnest_loop unnest_item unnest_indent li_stack].
      rewrite Hol, Hli. cbn [bind]. eexists; reflexivity.
Qed.

(** Un-nesting never fails on the flattening of a tree: every list item it
    closes is one it opened. *)
Lemma unnest_neutral_visit (d : Dom) : unnest_neutral (visit_contents d).
Proof.
  induction d as [k cs IH] using Dom_children_ind.
  pose proof (unnest_neutral_children cs IH) as Hinner.
  destruct k as [|text|a|tag|kind|tagname]; cbn [visit_contents].
  - exact Hinner.
  - apply unnest_neutral_plain. exact I.
  - apply unnest_neutral_plain. exact I.
  - change (BeginTag tag :: flat_map visit_contents cs ++ [EndTag tag])
      with ([BeginTag tag] ++ flat_map visit_contents cs ++ [EndTag tag]).
    repeat apply unnest_neutral_app; auto;
      apply unnest_neutral_plain; exact I.
  - change (BeginTag LI_TAG :: flat_map visit_contents cs ++ [EndTag LI_TAG])
      with ([BeginTag LI_TAG] ++ flat_map visit_contents cs ++ [EndTag LI_TAG]).
    repeat apply unnest_neutral_app; auto;
      apply unnest_neutral_plain; exact I.
  - apply unnest_neutral_tagname. exact Hinner.
Qed.

Lemma read_finish_ok (hb : HtmlBuffer) : exists out, read_finish hb = Ok out.
Proof.
  unfold read_finish, unnest_indent_tags, get_contents.
  destruct (unnest_neutral_visit (process_dom_read (_dom hb)) unnest_init)
    as (out & ->).
  eexists; reflexivity.
Qed.

End Read.

(** C9.  Whatever the callbacks the tokenizer makes for the input
    ([read self infile partial ignore_errors] is [read_events] on
    [tokenize infile]): when one of them raises and [ignore_errors] is
    false, [read] raises that exception; when [ignore_errors] is true,
    [read] does not raise, and what it returns is the tree as built up to
    that point, after the post-read fixups, flattened and un-nested. *)
Theorem read_error_policy (self : HtmlBuffer) (events : list parse_event)
        (partial : bool) :
  let fed := feed_events events (read_begin self partial) in
  (forall e, snd fed = Some e ->
             read_events self events partial false = Raise e)
  /\ read_events self events partial true
     = unnest_indent_tags (get_contents (process_dom_read (_dom (fst fed))))
  /\ (exists out, read_events self events partial true = Ok out)
  /\ (snd fed = None ->
      read_events self events partial false
      = read_events self events partial true).
Proof.
  cbv zeta. unfold read_events.
  destruct (feed_events events (read_begin self partial)) as [hb raised].
  cbn [fst snd].
  assert (Hfinish : forall ignore_errors,
             match raised with
             | Some e => if negb ignore_errors then Raise e else read_finish hb
             | None => read_finish hb
             end = if ignore_errors then read_finish hb
                   else match raised with
                        | Some e => Raise e
                        | None => read_finish hb
                        end).
  { intros []; destruct raised; reflexivity. }
  rewrite !Hfinish. split; [|split; [|split]].
  - intros e ->. reflexivity.
  - reflexivity.
  - apply read_finish_ok.
  - intros ->. reflexivity.
Qed.

Definition unknown_align_events : list parse_event :=
  [StartTag "div" [("style", Some "text-align: middle")]; Data "a"].

Lemma parse_style_html_error_iff_witness :
  (exists hb' msg,
      parse_style (Some "color: #fff; text-align: middle") HtmlBuffer_init
      = (hb', Some (HtmlError msg)))
  /\ exists hb1,
      parse_statements ["color: #fff"] HtmlBuffer_init = (hb1, None)
      /\ parse_style (Some "color: #fff; text-align: justify") HtmlBuffer_init
         = (mk_buffer
              (_newline hb1) (_tag_stack hb1) (_within_body hb1)
              (_partial hb1)
              (append_child (_dom_ptr hb1) (Node (TagNameDom "fill") [])
                            (_dom hb1))
              (_dom_ptr hb1 ++ [num_children (_dom hb1) (_dom_ptr hb1)]),
            None).
Proof.
  split.
  - apply (proj1 (parse_style_html_error_iff
                    "color: #fff; text-align: middle" HtmlBuffer_init)).
    exists ["color: #fff"], " text-align: middle", [], " middle".
    split; [reflexivity|]. split; [repeat constructor|].
    repeat split.
  - apply (proj2 (parse_style_html_error_iff
                    "color: #fff; text-align: justify" HtmlBuffer_init)
                 ["color: #fff"] " text-align: justify" [] " justify").
    + reflexivity.
    + repeat constructor.
    + reflexivity.
    + reflexivity.
    + reflexivity.
Defined.

Lemma read_error_policy_witness :
  read_events HtmlBuffer_init unknown_align_events true false
  = Raise (HtmlError "unknown justification 'middle'")
  /\ exists out, read_events HtmlBuffer_init unknown_align_events true true
                 = Ok out.
Proof.
  split.
  - apply (proj1 (read_error_policy HtmlBuffer_init unknown_align_events true)).
    reflexivity.
  - apply (proj1 (proj2 (proj2
             (read_error_policy HtmlBuffer_init unknown_align_events true)))).
Defined.

(** ** Colours *)

Section Colors.

(** A character that is no blank and no separator of a style. *)
Definition plain_char (c : ascii) : bool :=
  negb (is_space c || Ascii.eqb c ":"%char || Ascii.eqb c ";"%char).

Fixpoint plain_string (s : string) : bool :=
  match s with
  | EmptyString => true
  | String c s' => plain_char c && plain_string s'
  end.

(** Blanks only: the padding [strip] removes. *)
Fixpoint blank_string (s : string) : bool :=
  match s with
  | EmptyString => true
  | String c s' => is_space c && blank_string s'
  end.

(** No occurrence of the separator [sep]. *)
Fixpoint lacks (sep : ascii) (s : string) : bool :=
  match s with
  | EmptyString => true
  | String c s' => negb (Ascii.eqb c sep) && lacks sep s'
  end.

Definition style_separator (sep : ascii) : Prop :=
  sep = ":"%char \/ sep = ";"%char.

Lemma hex_digit_plain (c : ascii) :
  is_hex_digit c = true -> plain_char c = true.
Proof.
  destruct c as [[] [] [] [] [] [] [] []]; vm_compute; intros H;
    try discriminate H; reflexivity.
Qed.

Lemma space_not_separator (c : ascii) :
  is_space c = true ->
  Ascii.eqb c ":"%char = false /\ Ascii.eqb c ";"%char = false.
Proof.
  destruct c as [[] [] [] [] [] [] [] []]; vm_compute; intros H;
    try discriminate H; split; reflexivity.
Qed.

Lemma plain_char_facts (c : ascii) :
  plain_char c = true ->
  is_space c = false /\ Ascii.eqb c ":"%char = false
  /\ Ascii.eqb c ";"%char = false.
Proof.
  unfold plain_char. intros H. apply negb_true_iff in H.
  apply orb_false_elim in H. destruct H as (H & H3).
  apply orb_false_elim in H. destruct H as (H1 & H2). auto.
Qed.

Lemma string_app_assoc (a b c : string) :
  ((a ++ b) ++ c = a ++ (b ++ c))%string.
Proof. induction a as [|x a IH]; simpl; [reflexivity|]. rewrite IH. reflexivity. Qed.

Lemma startswith_self (p rest : string) : startswith (p ++ rest) p = true.
Proof.
  unfold startswith. induction p as [|c p IH]; simpl.
  - destruct rest; reflexivity.
  - destruct (Ascii.ascii_dec c c); [exact IH|congruence].
Qed.

Lemma lacks_app (sep : ascii) (a b : string) :
  lacks sep (a ++ b) = lacks sep a && lacks sep b.
Proof.
  induction a as [|c a IH]; simpl; [reflexivity|].
  rewrite IH. apply andb_assoc.
Qed.

Lemma plain_lacks (sep : ascii) (s : string) :
  style_separator sep -> plain_string s = true -> lacks sep s = true.
Proof.
  intros Hsep. induction s as [|c s IH]; simpl; [reflexivity|].
  intros H. apply andb_prop in H. destruct H as (Hc & Hs).
  destruct (plain_char_facts c Hc) as (_ & H1 & H2).
  rewrite (IH Hs). destruct Hsep; subst sep; rewrite ?H1, ?H2; reflexivity.
Qed.

Lemma blank_lacks (sep : ascii) (s : string) :
  style_separator sep -> blank_string s = true -> lacks sep s = true.
Proof.
  intros Hsep. induction s as [|c s IH]; simpl; [reflexivity|].
  intros H. apply andb_prop in H. destruct H as (Hc & Hs).
  destruct (space_not_separator c Hc) as (H1 & H2).
  rewrite (IH Hs). destruct Hsep; subst sep; rewrite ?H1, ?H2; reflexivity.
Qed.

Lemma split_lacks (sep : ascii) (s : string) :
  lacks sep s = true -> split sep s = [s].
Proof.
  induction s as [|c s IH]; simpl; [reflexivity|].
  intros H. apply andb_prop in H. destruct H as (Hc & Hs).
  apply negb_true_iff in Hc. rewrite Hc, (IH Hs). reflexivity.
Qed.

Lemma split_before_sep (sep : ascii) (a b : string) :
  lacks sep a = true ->
  split sep (a ++ String sep b) = a :: split sep b.
Proof.
  induction a as [|c a IH]; simpl.
  - rewrite Ascii.eqb_refl. reflexivity.
  - intros H. apply andb_prop in H. destruct H as (Hc & Ha).
    apply negb_true_iff in Hc. rewrite Hc, (IH Ha). reflexivity.
Qed.

Lemma lstrip_plain (s : string) :
  plain_string s = true -> lstrip s = s.
Proof.
  destruct s as [|c s]; simpl; [reflexivity|].
  intros H. apply andb_prop in H. destruct H as (Hc & _).
  destruct (plain_char_facts c Hc) as (-> & _). reflexivity.
Qed.

Lemma lstrip_blank_app (pad s : string) :
  blank_string pad = true -> lstrip (pad ++ s) = lstrip s.
Proof.
  induction pad as [|c pad IH]; simpl; [reflexivity|].
  intros H. apply andb_prop in H. destruct H as (-> & Hpad). auto.
Qed.

Lemma rstrip_plain (s : string) :
  plain_string s = true -> rstrip s = s.
Proof.
  induction s as [|c s IH]; simpl; [reflexivity|].
  intros H. apply andb_prop in H. destruct H as (Hc & Hs).
  rewrite (IH Hs). destruct (plain_char_facts c Hc) as (-> & _).
  destruct s; reflexivity.
Qed.

Lemma rstrip_blank (pad : string) :
  blank_string pad = true -> rstrip pad = EmptyString.
Proof.
  induction pad as [|c pad IH]; simpl; [reflexivity|].
  intros H. apply andb_prop in H. destruct H as (-> & Hpad).
  rewrite (IH Hpad). reflexivity.
Qed.

Lemma rstrip_app_blank (s pad : string) :
  blank_string pad = true -> rstrip (s ++ pad) = rstrip s.
Proof.
  intros Hpad. induction s as [|c s IH]; simpl.
  - apply rstrip_blank, Hpad.
  - rewrite IH. reflexivity.
Qed.

Lemma rstrip_before_plain (a s : string) :
  plain_string s = true -> s <> EmptyString ->
  rstrip (a ++ s) = (a ++ s)%string.
Proof.
  intros Hs Hne. induction a as [|c a IH]; simpl.
  - apply rstrip_plain. exact Hs.
  - rewrite IH. destruct (a ++ s)%string eqn:E; [|reflexivity].
    destruct a; simpl in E; [congruence|discriminate].
Qed.

(** The two colour properties and the tag each of them makes. *)
Definition color_properties (property tagprefix : string) : Prop :=
  (property = "color" /\ tagprefix = "fg_color ")
  \/ (property = "background-color" /\ tagprefix = "bg_color ").

(** A declaration [<property> : <value>], blanks allowed around the colon,
    as the loop of [parse_style] sees it once stripped. *)
Lemma color_statement (property tagprefix pad1 pad2 value : string) :
  color_properties property tagprefix ->
  blank_string pad1 = true -> blank_string pad2 = true ->
  plain_string value = true ->
  style_tagstr (property ++ pad1 ++ String ":"%char (pad2 ++ value))
  = Ok (color_tagstr tagprefix value).
Proof.
  intros Hprop Hpad1 Hpad2 Hvalue.
  assert (Hcolon : style_separator ":"%char) by (left; reflexivity).
  assert (Hsplit : split ":" (property ++ pad1 ++ String ":"%char (pad2 ++ value))
                   = [(property ++ pad1)%string; (pad2 ++ value)%string]).
  { rewrite <- string_app_assoc. rewrite split_before_sep.
    - rewrite split_lacks; [reflexivity|]. rewrite lacks_app.
      rewrite (blank_lacks _ _ Hcolon Hpad2), (plain_lacks _ _ Hcolon Hvalue).
      reflexivity.
    - rewrite lacks_app, (blank_lacks _ _ Hcolon Hpad1).
      destruct Hprop as [(-> & _)|(-> & _)]; reflexivity. }
  assert (Hstrip : strip (pad2 ++ value) = value).
  { unfold strip. rewrite (lstrip_blank_app _ _ Hpad2).
    rewrite (lstrip_plain value Hvalue). apply rstrip_plain, Hvalue. }
  unfold style_tagstr. rewrite Hsplit. cbn [second bind]. rewrite Hstrip.
  destruct Hprop as [(-> & ->)|(-> & ->)];
    rewrite startswith_self; reflexivity.
Qed.

(** A style that is one such declaration, with blanks around it. *)
Lemma color_style (property tagprefix pad0 pad1 pad2 pad3 value : string)
      (hb : HtmlBuffer) :
  color_properties property tagprefix ->
  blank_string pad0 = true -> blank_string pad1 = true ->
  blank_string pad2 = true -> blank_string pad3 = true ->
  plain_string value = true -> value <> EmptyString ->
  parse_style
    (Some (pad0 ++ (property ++ pad1 ++ String ":"%char (pad2 ++ value))
           ++ pad3)%string) hb
  = match color_tagstr tagprefix value with
    | Some tagstr => (open_tagname tagstr hb, None)
    | None => (hb, None)
    end.
Proof.
  intros Hprop Hpad0 Hpad1 Hpad2 Hpad3 Hvalue Hne.
  assert (Hsemi : style_separator ";"%char) by (right; reflexivity).
  set (statement := (property ++ pad1 ++ String ":"%char (pad2 ++ value))%string).
  assert (Hsplit : split ";" (pad0 ++ statement ++ pad3)
                   = [(pad0 ++ statement ++ pad3)%string]).
  { apply split_lacks. unfold statement.
    rewrite !lacks_app. cbn [lacks]. rewrite !lacks_app.
    rewrite (blank_lacks _ _ Hsemi Hpad0), (blank_lacks _ _ Hsemi Hpad1),
      (blank_lacks _ _ Hsemi Hpad2), (blank_lacks _ _ Hsemi Hpad3),
      (plain_lacks _ _ Hsemi Hvalue).
    destruct Hprop as [(-> & _)|(-> & _)]; reflexivity. }
  assert (Hstrip : strip (pad0 ++ statement ++ pad3) = statement).
  { unfold strip. rewrite (lstrip_blank_app _ _ Hpad0).
    replace (lstrip (statement ++ pad3)) with (statement ++ pad3)%string
      by (unfold statement;
          destruct Hprop as [(-> & _)|(-> & _)]; reflexivity).
    rewrite (rstrip_app_blank _ _ Hpad3). unfold statement.
    replace (property ++ pad1 ++ String ":"%char (pad2 ++ value))%string
      with ((property ++ pad1 ++ String ":"%char pad2) ++ value)%string.
    - apply rstrip_before_plain; assumption.
    - rewrite !string_app_assoc. reflexivity. }
  unfold parse_style. rewrite Hsplit. cbn [parse_statements].
  rewrite Hstrip. unfold statement.
  rewrite (color_statement _ _ _ _ _ Hprop Hpad1 Hpad2 Hvalue).
  destruct (color_tagstr tagprefix value); reflexivity.
Qed.

End Colors.

(** C6.  A [color] or [background-color] declaration whose value is the
    shorthand [#RGB], with any blanks around the declaration, the colon and
    the value, makes the colour tag with the seven characters [#RRGGBB],
    each digit doubled; and the seven characters the writer puts in a style
    for an internal colour ([tagcolor_to_html] of [#] and twelve
    hexadecimal digits) come back from [parse_style] as the same seven
    characters. *)
Theorem color_round_trip (a b c : ascii) (internal : string)
        (pad0 pad1 pad2 pad3 : string) (hb : HtmlBuffer) :
  is_hex_digit a = true -> is_hex_digit b = true -> is_hex_digit c = true ->
  internal_color internal = true ->
  blank_string pad0 = true -> blank_string pad1 = true ->
  blank_string pad2 = true -> blank_string pad3 = true ->
  let short := String "#" (String a (String b (String c ""))) in
  let long :=
    String "#" (String a (String a (String b (String b
      (String c (String c "")))))) in
  parse_style
    (Some (pad0 ++ ("color" ++ pad1 ++ String ":"%char (pad2 ++ short))
           ++ pad3)%string) hb
  = (open_tagname ("fg_color " ++ long) hb, None)
  /\ parse_style
       (Some (pad0 ++ ("background-color" ++ pad1
                       ++ String ":"%char (pad2 ++ short)) ++ pad3)%string) hb
     = (open_tagname ("bg_color " ++ long) hb, None)
  /\ exists html,
      tagcolor_to_html internal = Ok html
      /\ String.length html = 7%nat
      /\ write_tag_begin [] (TagDom (RichTextFGColorTag internal))
                         (RichTextFGColorTag internal)
         = Ok ("<span style=" ++ dquote ++ "color: " ++ html ++ dquote ++ ">")%string
      /\ write_tag_begin [] (TagDom (RichTextBGColorTag internal))
                         (RichTextBGColorTag internal)
         = Ok ("<span style=" ++ dquote ++ "background-color: " ++ html
               ++ dquote ++ ">")%string
      /\ parse_style (Some ("color: " ++ html)%string) hb
         = (open_tagname ("fg_color " ++ html) hb, None)
      /\ parse_style (Some ("background-color: " ++ html)%string) hb
         = (open_tagname ("bg_color " ++ html) hb, None).
Proof.
  intros Ha Hb Hc Hint Hpad0 Hpad1 Hpad2 Hpad3. cbv zeta.
  pose proof (hex_digit_plain a Ha) as Pa.
  pose proof (hex_digit_plain b Hb) as Pb.
  pose proof (hex_digit_plain c Hc) as Pc.
  assert (Hshort : plain_string (String "#" (String a (String b (String c ""))))
                   = true).
  { cbn [plain_string]. rewrite Pa, Pb, Pc. reflexivity. }
  assert (Hfg : color_properties "color" "fg_color ") by (left; auto).
  assert (Hbg : color_properties "background-color" "bg_color ")
    by (right; auto).
  split; [|split].
  - exact (color_style "color" "fg_color " pad0 pad1 pad2 pad3 _ hb Hfg
                       Hpad0 Hpad1 Hpad2 Hpad3 Hshort ltac:(discriminate)).
  - exact (color_style "background-color" "bg_color " pad0 pad1 pad2 pad3 _
                       hb Hbg Hpad0 Hpad1 Hpad2 Hpad3 Hshort
                       ltac:(discriminate)).
  - unfold internal_color in Hint.
    destruct internal as [|x digits]; [discriminate|].
    apply andb_prop in Hint. destruct Hint as (Hint & Hhex).
    apply andb_prop in Hint. destruct Hint as (Hx & Hlen).
    apply Ascii.eqb_eq in Hx. subst x.
    do 12 (destruct digits as [|? digits]; [discriminate|]).
    destruct digits; [|discriminate]. clear Hlen.
    cbn [all_hex] in Hhex.
    repeat match goal with
           | H : _ && _ = true |- _ => apply andb_prop in H; destruct H
           end.
    eexists. split; [reflexivity|]. split; [reflexivity|].
    split; [reflexivity|]. split; [reflexivity|].
    match goal with
    | |- parse_style (Some ("color: " ++ ?h)%string) _ = _ /\ _ =>
        let html := eval cbv [nth_char substring append] in h in
        assert (Hhtml : plain_string html = true);
        [|split;
          [exact (color_style "color" "fg_color " "" "" " " "" html hb Hfg
                              eq_refl eq_refl eq_refl eq_refl Hhtml
                              ltac:(discriminate))
          |exact (color_style "background-color" "bg_color " "" "" " " ""
                              html hb Hbg eq_refl eq_refl eq_refl eq_refl
                              Hhtml ltac:(discriminate))]]
    end.
    cbn [plain_string].
    repeat match goal with
           | H : is_hex_digit ?d = true |- _ =>
               rewrite (hex_digit_plain d H); clear H
           end.
    reflexivity.
Qed.

Lemma color_round_trip_witness :
  parse_style (Some " color : #1a9 ") HtmlBuffer_init
  = (open_tagname "fg_color #11aa99" HtmlBuffer_init, None)
  /\ parse_style (Some " background-color : #1a9 ") HtmlBuffer_init
     = (open_tagname "bg_color #11aa99" HtmlBuffer_init, None)
  /\ exists html,
      tagcolor_to_html "#12345678abcd" = Ok html
      /\ String.length html = 7%nat
      /\ write_tag_begin [] (TagDom (RichTextFGColorTag "#12345678abcd"))
                         (RichTextFGColorTag "#12345678abcd")
         = Ok ("<span style=" ++ dquote ++ "color: " ++ html ++ dquote ++ ">")%string
      /\ write_tag_begin [] (TagDom (RichTextBGColorTag "#12345678abcd"))
                         (RichTextBGColorTag "#12345678abcd")
         = Ok ("<span style=" ++ dquote ++ "background-color: " ++ html
               ++ dquote ++ ">")%string
      /\ parse_style (Some ("color: " ++ html)%string) HtmlBuffer_init
         = (open_tagname ("fg_color " ++ html) HtmlBuffer_init, None)
      /\ parse_style (Some ("background-color: " ++ html)%string)
                     HtmlBuffer_init
         = (open_tagname ("bg_color " ++ html) HtmlBuffer_init, None).
Proof.
  apply (color_round_trip "1" "a" "9" "#12345678abcd" " " " " " " " "
                          HtmlBuffer_init);
    reflexivity.
Defined.

(** * Further properties *)

(** ** The extension system *)

Section Extensions.

Import ExtensionSystem.

Lemma version_compare_eq (a : version) :
  forall b, version_compare a b = Eq <-> version_eqb a b = true.
Proof.
  induction a as [|x a IH]; intros [|y b]; simpl; split; try discriminate;
    try reflexivity.
  - destruct (Z.compare_spec x y) as [->|H|H]; try discriminate.
    intros E. rewrite Z.eqb_refl. apply IH. exact E.
  - intros H. apply andb_prop in H. destruct H as (Hxy & Hab).
    apply Z.eqb_eq in Hxy. subst y. rewrite Z.compare_refl. apply IH, Hab.
Qed.

Lemma version_compare_antisym (a : version) :
  forall b, version_compare b a = CompOpp (version_compare a b).
Proof.
  induction a as [|x a IH]; intros [|y b]; simpl; try reflexivity.
  rewrite (Z.compare_antisym x y).
  destruct (x ?= y)%Z; simpl; auto.
Qed.

Lemma version_compare_trans (c : comparison) (a : version) :
  forall b d, version_compare a b = c -> version_compare b d = c ->
              version_compare a d = c.
Proof.
  induction a as [|x a IH]; intros [|y b] [|z d]; simpl; try congruence.
  destruct (Z.compare_spec x y) as [Hxy|Hxy|Hxy];
    destruct (Z.compare_spec y z) as [Hyz|Hyz|Hyz];
    destruct (Z.compare_spec x z) as [Hxz|Hxz|Hxz];
    try lia; try congruence; apply IH.
Qed.

Lemma version_eqb_compare (a b : version) :
  version_eqb a b = match version_compare a b with Eq => true | _ => false end.
Proof.
  pose proof (version_compare_eq a b) as H.
  destruct (version_compare a b); destruct (version_eqb a b); try reflexivity;
    try (destruct H as (H & _); discriminate (H eq_refl));
    try (destruct H as (_ & H); discriminate (H eq_refl)).
Qed.

Lemma version_eqb_eq (a : version) :
  forall b, version_eqb a b = true <-> a = b.
Proof.
  induction a as [|x a IH]; intros [|y b]; simpl; split; try discriminate;
    try reflexivity.
  - intros H. apply andb_prop in H. destruct H as (Hxy & Hab).
    apply Z.eqb_eq in Hxy. apply IH in Hab. congruence.
  - intros H. injection H as -> ->. rewrite Z.eqb_refl. apply IH. reflexivity.
Qed.

Lemma version_ge_trans (a b d : version) :
  version_ge a b = true -> version_ge b d = true -> version_ge a d = true.
Proof.
  unfold version_ge. intros Hab Hbd.
  destruct (version_compare a b) eqn:Eab; try discriminate;
    destruct (version_compare b d) eqn:Ebd; try discriminate.
  - rewrite (version_compare_trans Eq a b d Eab Ebd). reflexivity.
  - apply version_compare_eq, version_eqb_eq in Eab. subst b.
    rewrite Ebd. reflexivity.
  - apply version_compare_eq, version_eqb_eq in Ebd. subst d.
    rewrite Eab. reflexivity.
  - rewrite (version_compare_trans Gt a b d Eab Ebd). reflexivity.
Qed.

Lemma version_ge_gt_trans (a b d : version) :
  version_ge a b = true -> version_gt b d = true -> version_gt a d = true.
Proof.
  unfold version_ge, version_gt. intros Hab Hbd.
  destruct (version_compare a b) eqn:Eab; try discriminate;
    destruct (version_compare b d) eqn:Ebd; try discriminate.
  - apply version_compare_eq, version_eqb_eq in Eab. subst b.
    rewrite Ebd. reflexivity.
  - rewrite (version_compare_trans Gt a b d Eab Ebd). reflexivity.
Qed.

(** X1.  For an extension that is present, the relations [<], [==] and [>]
    of a dependency are those of an order on versions: exactly one of the
    three is satisfied; [>=] is satisfied when [>] or [==] is, [<=] when [<]
    or [==] is; and [==] is satisfied exactly by the version itself. *)
Theorem dependency_relations_order
        (name : string) (ext_version v : version) :
  let sat rel := dependency_satisfied (Some ext_version) (name, rel, v) in
  (sat "<" = true /\ sat "==" = false /\ sat ">" = false
   \/ sat "<" = false /\ sat "==" = true /\ sat ">" = false
   \/ sat "<" = false /\ sat "==" = false /\ sat ">" = true)
  /\ sat ">=" = (sat ">" || sat "==")
  /\ sat "<=" = (sat "<" || sat "==")
  /\ (sat "==" = true <-> ext_version = v).
Proof.
  cbv zeta. unfold dependency_satisfied. cbn [String.eqb Ascii.eqb Bool.eqb].
  unfold version_gt, version_ge, version_le, version_lt.
  rewrite version_eqb_compare.
  pose proof (version_compare_eq ext_version v) as Heq.
  rewrite version_eqb_eq in Heq.
  destruct (version_compare ext_version v); cbn [negb orb];
    (split; [|split; [reflexivity|split; [reflexivity|]]]).
  - right. left. auto.
  - split; [intros _; apply Heq; reflexivity|reflexivity].
  - left. auto.
  - split; [discriminate|]. intros H. apply Heq in H. discriminate.
  - right. right. auto.
  - split; [discriminate|]. intros H. apply Heq in H. discriminate.
Qed.

(** X2.  A lower bound that some version of an extension satisfies is
    satisfied by every version that is not older, and an upper bound by
    every version that is not newer. *)
Theorem dependency_bounds_monotone
        (name : string) (newer older bound : version) :
  version_ge newer older = true ->
  (dependency_satisfied (Some older) (name, ">=", bound) = true ->
   dependency_satisfied (Some newer) (name, ">=", bound) = true)
  /\ (dependency_satisfied (Some older) (name, ">", bound) = true ->
      dependency_satisfied (Some newer) (name, ">", bound) = true)
  /\ (dependency_satisfied (Some newer) (name, "<=", bound) = true ->
      dependency_satisfied (Some older) (name, "<=", bound) = true)
  /\ (dependency_satisfied (Some newer) (name, "<", bound) = true ->
      dependency_satisfied (Some older) (name, "<", bound) = true).
Proof.
  intros Hge. unfold dependency_satisfied.
  cbn [String.eqb Ascii.eqb Bool.eqb].
  assert (Hflip : forall a b, version_le a b = version_ge b a).
  { intros a b. unfold version_le, version_ge.
    rewrite (version_compare_antisym a b).
    destruct (version_compare a b); reflexivity. }
  assert (Hflip' : forall a b, version_lt a b = version_gt b a).
  { intros a b. unfold version_lt, version_gt.
    rewrite (version_compare_antisym a b).
    destruct (version_compare a b); reflexivity. }
  repeat split.
  - destruct (version_ge older bound) eqn:H; [|discriminate]. intros _.
    rewrite (version_ge_trans _ _ _ Hge H). reflexivity.
  - destruct (version_gt older bound) eqn:H; [|discriminate]. intros _.
    rewrite (version_ge_gt_trans _ _ _ Hge H). reflexivity.
  - rewrite !Hflip.
    destruct (version_ge bound newer) eqn:H; [|discriminate]. intros _.
    rewrite (version_ge_trans _ _ _ H Hge). reflexivity.
  - rewrite !Hflip'.
    destruct (version_gt bound newer) eqn:H; [|discriminate]. intros _.
    unfold version_gt, version_ge in *.
    destruct (version_compare bound newer) eqn:E1; try discriminate.
    destruct (version_compare newer older) eqn:E2; try discriminate.
    + apply version_compare_eq, version_eqb_eq in E2. subst older.
      rewrite E1. reflexivity.
    + rewrite (version_compare_trans Gt _ _ _ E1 E2). reflexivity.
Qed.

Lemma dependency_bounds_monotone_witness :
  (dependency_satisfied (Some [0; 6; 1]%Z) ("keepnote", ">=", [0; 6]%Z) = true ->
   dependency_satisfied (Some [0; 7]%Z) ("keepnote", ">=", [0; 6]%Z) = true)
  /\ (dependency_satisfied (Some [0; 6; 1]%Z) ("keepnote", ">", [0; 6]%Z) = true ->
      dependency_satisfied (Some [0; 7]%Z) ("keepnote", ">", [0; 6]%Z) = true)
  /\ (dependency_satisfied (Some [0; 7]%Z) ("keepnote", "<=", [0; 6]%Z) = true ->
      dependency_satisfied (Some [0; 6; 1]%Z) ("keepnote", "<=", [0; 6]%Z) = true)
  /\ (dependency_satisfied (Some [0; 7]%Z) ("keepnote", "<", [0; 6]%Z) = true ->
      dependency_satisfied (Some [0; 6; 1]%Z) ("keepnote", "<", [0; 6]%Z) = true).
Proof.
  apply (dependency_bounds_monotone "keepnote" [0; 7]%Z [0; 6; 1]%Z [0; 6]%Z).
  reflexivity.
Defined.

(** *** Windows and user interfaces *)

Variable app_satisfied : dependency -> bool.
Variable depends : list dependency.

Lemma set_mem_add (w x : window) (s : list window) :
  set_mem x (set_add w s) = Nat.eqb x w || set_mem x s.
Proof.
  unfold set_add, set_mem.
  destruct (existsb (Nat.eqb w) s) eqn:Hw.
  - destruct (Nat.eqb_spec x w) as [->|_]; [|reflexivity].
    rewrite Hw. reflexivity.
  - rewrite existsb_app. simpl. rewrite orb_false_r. apply orb_comm.
Qed.

Lemma set_mem_remove (w x : window) (s : list window) :
  set_mem x (set_remove w s) = negb (Nat.eqb x w) && set_mem x s.
Proof.
  unfold set_remove, set_mem. induction s as [|y s IH]; simpl.
  - apply eq_sym, andb_false_r.
  - destruct (Nat.eqb_spec y w) as [->|Hyw]; simpl; rewrite IH.
    + destruct (Nat.eqb_spec x w); simpl; reflexivity.
    + destruct (Nat.eqb_spec x y) as [->|_]; simpl; [|reflexivity].
      destruct (Nat.eqb_spec y w); [contradiction|reflexivity].
Qed.

Lemma set_mem_In (x : window) (s : list window) :
  set_mem x s = true <-> In x s.
Proof.
  unfold set_mem. rewrite existsb_exists. split.
  - intros (y & Hin & E). apply Nat.eqb_eq in E. subst. exact Hin.
  - intros Hin. exists x. split; [exact Hin|apply Nat.eqb_refl].
Qed.

Lemma set_add_NoDup (w : window) (s : list window) :
  NoDup s -> NoDup (set_add w s).
Proof.
  intros H. unfold set_add. destruct (set_mem w s) eqn:Hw; [exact H|].
  apply NoDup_app; [exact H|repeat constructor; intros []|].
  intros x Hin [<-|[]].
  apply set_mem_In in Hin. congruence.
Qed.

Lemma set_remove_NoDup (w : window) (s : list window) :
  NoDup s -> NoDup (set_remove w s).
Proof. intros H. apply NoDup_filter. exact H. Qed.

(** The user interfaces an extension keeps: those of all its windows while
    it is enabled, none while it is disabled. *)
Definition uis_inv (self : Extension) : Prop :=
  NoDup (__uis self)
  /\ if _enabled self
     then forall w, set_mem w (__uis self) = set_mem w (__windows self)
     else __uis self = [].

Lemma add_missing_uis_mem (windows : list window) :
  forall uis x,
    set_mem x (snd (add_missing_uis windows uis))
    = set_mem x windows || set_mem x uis.
Proof.
  induction windows as [|w rest IH]; intros uis x; simpl; [reflexivity|].
  destruct (set_mem w uis) eqn:Hw.
  - rewrite IH. destruct (Nat.eqb_spec x w) as [->|_]; simpl; [|reflexivity].
    rewrite Hw. apply orb_true_r.
  - specialize (IH (set_add w uis) x).
    destruct (add_missing_uis rest (set_add w uis)) as [calls uis'].
    simpl in *. rewrite IH, set_mem_add.
    destruct (Nat.eqb x w), (set_mem x rest); reflexivity.
Qed.

Lemma add_missing_uis_NoDup (windows : list window) :
  forall uis, NoDup uis -> NoDup (snd (add_missing_uis windows uis)).
Proof.
  induction windows as [|w rest IH]; intros uis H; simpl; [exact H|].
  destruct (set_mem w uis); [apply IH, H|].
  specialize (IH (set_add w uis) (set_add_NoDup w uis H)).
  destruct (add_missing_uis rest (set_add w uis)). exact IH.
Qed.

Lemma apply_operation_inv (op : operation) (self : Extension) :
  uis_inv self ->
  uis_inv (fst (apply_operation app_satisfied depends op self)).
Proof.
  intros Hself. pose proof Hself as (Hnd & Hinv).
  destruct self as [enabled windows uis].
  cbn [_enabled __windows __uis] in *.
  destruct op as [b|w|w]; cbn [apply_operation].
  - unfold enable.
    destruct (List.find _ depends); [exact Hself|].
    cbn [_enabled __windows __uis].
    destruct b.
    + pose proof (add_missing_uis_mem windows uis) as Hmem.
      pose proof (add_missing_uis_NoDup windows uis Hnd) as Hnd'.
      destruct (add_missing_uis windows uis) as [calls uis'].
      unfold uis_inv. cbn [fst snd _enabled __windows __uis] in *.
      split; [exact Hnd'|].
      intros x. rewrite Hmem.
      destruct enabled; [rewrite Hinv; apply orb_diag|].
      subst uis. apply orb_false_r.
    + unfold uis_inv. cbn [fst snd _enabled __windows __uis].
      split; [constructor|reflexivity].
  - unfold on_new_window. cbn [_enabled __windows __uis].
    destruct enabled; unfold uis_inv; cbn [fst _enabled __windows __uis].
    + split; [apply set_add_NoDup, Hnd|].
      intros x. rewrite !set_mem_add, Hinv. reflexivity.
    + split; assumption.
  - unfold on_close_window. cbn [_enabled __windows __uis].
    destruct (set_mem w windows) eqn:Hw; [|exact Hself].
    destruct (set_mem w uis) eqn:Hu; unfold uis_inv;
      cbn [fst _enabled __windows __uis].
    + split; [apply set_remove_NoDup, Hnd|].
      destruct enabled.
      * intros x. rewrite !set_mem_remove, Hinv. reflexivity.
      * subst uis. discriminate.
    + split; [exact Hnd|].
      destruct enabled; [|assumption].
      intros x. rewrite set_mem_remove, Hinv.
      destruct (Nat.eqb_spec x w) as [->|_]; [|reflexivity].
      rewrite <- Hinv, Hu. reflexivity.
Qed.

Lemma run_operations_inv (ops : list operation) :
  forall self, uis_inv self ->
               uis_inv (fst (run_operations app_satisfied depends ops self)).
Proof.
  induction ops as [|op rest IH]; intros self H; simpl; [exact H|].
  pose proof (apply_operation_inv op self H) as H1.
  destruct (apply_operation app_satisfied depends op self) as [self1 calls1].
  specialize (IH self1 H1).
  destruct (run_operations app_satisfied depends rest self1). exact IH.
Qed.

Lemma ui_after_app (w : window) (a b : list callback) :
  forall present,
    ui_after w present (a ++ b)
    = match ui_after w present a with
      | Some present' => ui_after w present' b
      | None => None
      end.
Proof.
  induction a as [|c a IH]; intros present; simpl; [reflexivity|].
  destruct c as [w'|w'|e|e]; try apply IH;
    destruct (Nat.eqb w' w); try apply IH; destruct present;
    try reflexivity; apply IH.
Qed.

Lemma ui_after_add_missing (w : window) (windows : list window) :
  forall uis,
    ui_after w (set_mem w uis) (fst (add_missing_uis windows uis))
    = Some (set_mem w (snd (add_missing_uis windows uis))).
Proof.
  induction windows as [|w0 rest IH]; intros uis; simpl; [reflexivity|].
  destruct (set_mem w0 uis) eqn:Hw0; [apply IH|].
  specialize (IH (set_add w0 uis)). rewrite set_mem_add in IH.
  destruct (add_missing_uis rest (set_add w0 uis)) as [calls uis'].
  cbn [fst snd ui_after] in *.
  rewrite (Nat.eqb_sym w0 w).
  destruct (Nat.eqb_spec w w0) as [->|_]; cbn [orb] in IH.
  - rewrite Hw0. exact IH.
  - exact IH.
Qed.

Lemma ui_after_remove_all (w : window) (uis : list window) :
  NoDup uis ->
  ui_after w (set_mem w uis) (map on_remove_ui uis) = Some false.
Proof.
  induction 1 as [|x uis Hx _ IH]; [reflexivity|].
  cbn [map ui_after]. unfold set_mem in *. cbn [existsb].
  rewrite (Nat.eqb_sym x w).
  destruct (Nat.eqb_spec w x) as [->|_]; cbn [orb]; [|exact IH].
  assert (Hnot : existsb (Nat.eqb x) uis = false).
  { destruct (existsb (Nat.eqb x) uis) eqn:E; [|reflexivity].
    exfalso. apply Hx. apply set_mem_In. exact E. }
  rewrite Hnot in IH. exact IH.
Qed.

Lemma apply_operation_calls (op : operation) (self : Extension) (w : window) :
  uis_inv self ->
  new_windows_fresh app_satisfied depends [op] self = true ->
  ui_after w (set_mem w (__uis self))
           (snd (apply_operation app_satisfied depends op self))
  = Some (set_mem w (__uis (fst (apply_operation app_satisfied depends op
                                                   self)))).
Proof.
  intros (Hnd & Hinv) Hfresh. destruct self as [enabled windows uis].
  cbn [_enabled __windows __uis new_windows_fresh] in *.
  destruct op as [b|w0|w0]; cbn [apply_operation].
  - unfold enable. destruct (List.find _ depends); [reflexivity|].
    cbn [_enabled __windows __uis]. destruct b.
    + pose proof (ui_after_add_missing w windows uis) as Hcalls.
      destruct (add_missing_uis windows uis) as [calls uis'].
      cbn [fst snd __uis] in *. rewrite ui_after_app, Hcalls. reflexivity.
    + cbn [fst snd __uis]. rewrite ui_after_app.
      rewrite (ui_after_remove_all w uis Hnd). reflexivity.
  - unfold on_new_window. cbn [_enabled __windows __uis].
    destruct enabled; cbn [fst snd __uis ui_after]; [|reflexivity].
    rewrite set_mem_add, (Nat.eqb_sym w0 w).
    destruct (Nat.eqb_spec w w0) as [->|_]; [|reflexivity].
    rewrite Hinv. rewrite andb_true_r in Hfresh.
    apply negb_true_iff in Hfresh. rewrite Hfresh. reflexivity.
  - unfold on_close_window. cbn [_enabled __windows __uis].
    destruct (set_mem w0 windows); [|reflexivity].
    destruct (set_mem w0 uis) eqn:Hu; cbn [fst snd __uis ui_after];
      [|reflexivity].
    rewrite set_mem_remove, (Nat.eqb_sym w0 w).
    destruct (Nat.eqb_spec w w0) as [->|_]; [|reflexivity].
    rewrite Hu. reflexivity.
Qed.

Lemma run_operations_calls (ops : list operation) (w : window) :
  forall self,
    uis_inv self ->
    new_windows_fresh app_satisfied depends ops self = true ->
    ui_after w (set_mem w (__uis self))
             (snd (run_operations app_satisfied depends ops self))
    = Some (set_mem w (__uis (fst (run_operations app_satisfied depends ops
                                                     self)))).
Proof.
  induction ops as [|op rest IH]; intros self Hinv Hfresh; [reflexivity|].
  cbn [new_windows_fresh] in Hfresh.
  apply andb_prop in Hfresh. destruct Hfresh as (Hop & Hrest).
  pose proof (apply_operation_inv op self Hinv) as Hinv1.
  pose proof (apply_operation_calls op self w Hinv) as Hcalls1.
  cbn [new_windows_fresh] in Hcalls1. rewrite Hop in Hcalls1.
  specialize (Hcalls1 eq_refl).
  cbn [run_operations].
  destruct (apply_operation app_satisfied depends op self) as [self1 calls1].
  cbn [fst snd] in *.
  specialize (IH self1 Hinv1 Hrest).
  destruct (run_operations app_satisfied depends rest self1)
    as [self2 calls2].
  cbn [fst snd] in *. rewrite ui_after_app, Hcalls1. exact IH.
Qed.

End Extensions.

(** X3.  Whatever the application does with an extension (enable or disable
    it, with dependencies met or not; open and close windows, in any
    order), the windows that have its user interface are all its windows
    while it is enabled, and none while it is disabled. *)
Theorem extension_uis_follow_enabled
        (app_satisfied : ExtensionSystem.dependency -> bool)
        (depends : list ExtensionSystem.dependency)
        (ops : list ExtensionSystem.operation) :
  let self :=
    fst (ExtensionSystem.run_operations app_satisfied depends ops
           ExtensionSystem.Extension_init) in
  if ExtensionSystem._enabled self
  then forall w, ExtensionSystem.set_mem w (ExtensionSystem.__uis self)
                 = ExtensionSystem.set_mem w (ExtensionSystem.__windows self)
  else ExtensionSystem.__uis self = [].
Proof.
  cbv zeta.
  apply (run_operations_inv app_satisfied depends ops
           ExtensionSystem.Extension_init).
  split; [constructor|reflexivity].
Qed.

(** X4.  When the application opens each window once, an extension never
    calls [on_add_ui] for a window whose user interface is in place, nor
    [on_remove_ui] for a window without it, and in the end the windows with
    a user interface in place are those it holds in [__uis]. *)
Theorem extension_ui_calls_alternate
        (app_satisfied : ExtensionSystem.dependency -> bool)
        (depends : list ExtensionSystem.dependency)
        (ops : list ExtensionSystem.operation) (w : ExtensionSystem.window) :
  ExtensionSystem.new_windows_fresh app_satisfied depends ops
    ExtensionSystem.Extension_init = true ->
  let run := ExtensionSystem.run_operations app_satisfied depends ops
               ExtensionSystem.Extension_init in
  ExtensionSystem.ui_after w false (snd run)
  = Some (ExtensionSystem.set_mem w (ExtensionSystem.__uis (fst run))).
Proof.
  intros Hfresh. cbv zeta.
  apply (run_operations_calls app_satisfied depends ops w
           ExtensionSystem.Extension_init); [|exact Hfresh].
  split; [constructor|reflexivity].
Qed.

Definition extension_session : list ExtensionSystem.operation :=
  [ExtensionSystem.NewWindow 1; ExtensionSystem.Enable true;
   ExtensionSystem.NewWindow 2; ExtensionSystem.Enable true;
   ExtensionSystem.CloseWindow 1; ExtensionSystem.Enable false;
   ExtensionSystem.NewWindow 1; ExtensionSystem.Enable true].

Lemma extension_ui_calls_alternate_witness :
  ExtensionSystem.ui_after 2 false
    (snd (ExtensionSystem.run_operations
            (fun _ => true) ExtensionSystem.get_depends extension_session
            ExtensionSystem.Extension_init))
  = Some (ExtensionSystem.set_mem 2
            (ExtensionSystem.__uis
               (fst (ExtensionSystem.run_operations
                       (fun _ => true) ExtensionSystem.get_depends
                       extension_session ExtensionSystem.Extension_init)))).
Proof.
  apply (extension_ui_calls_alternate
           (fun _ => true) ExtensionSystem.get_depends extension_session 2).
  reflexivity.
Defined.

(** ** More on [nest_indent_tags] and [unnest_indent_tags] *)

Section IndentTransforms.

Variable tag_table : TagTable.
Hypothesis known_indents : indent_table tag_table.

Definition not_indent_item (it : item) : bool := negb (is_indent_item it).

Lemma close_indents_only_indents (n : nat) :
  forall indent,
    List.filter not_indent_item (fst (close_indents tag_table n indent)) = [].
Proof.
  induction n as [|n IH]; intros indent; [reflexivity|].
  cbn [close_indents]. specialize (IH (indent - 1)%Z).
  destruct (close_indents tag_table n (indent - 1)) as [out indent'].
  destruct (known_indents indent) as (p & ->). exact IH.
Qed.

Lemma open_indents_only_indents (n : nat) :
  forall indent out indent',
    open_indents tag_table n indent = Ok (out, indent') ->
    List.filter not_indent_item out = [].
Proof.
  induction n as [|n IH]; intros indent out indent' E; cbn [open_indents] in E.
  - injection E as <- _. reflexivity.
  - destruct (0 <? indent + 1)%Z; [|discriminate].
    destruct (open_indents tag_table n (indent + 1)) as [[out1 i1]|e] eqn:E1;
      cbn [bind] in E; [|discriminate].
    injection E as <- _.
    destruct (known_indents (indent + 1)%Z) as (p & ->).
    exact (IH _ _ _ E1).
Qed.

Lemma nest_item_passes (st st' : nest_state) (it : item) (out : list item) :
  nest_item tag_table st it = Ok (out, st') ->
  List.filter not_indent_item out = List.filter not_indent_item [it].
Proof.
  unfold nest_item. intros E.
  assert (Hclosing :
            List.filter not_indent_item (fst (nest_closing tag_table st it))
            = []).
  { unfold nest_closing. destruct (indent_closing st); [|reflexivity].
    destruct it as [s|a|t|t|s|s]; try reflexivity.
    - pose proof (close_indents_only_indents (Z.to_nat (nest_indent st))
                                             (nest_indent st)) as H.
      destruct (close_indents tag_table _ (nest_indent st)). exact H.
    - pose proof (close_indents_only_indents (Z.to_nat (nest_indent st))
                                             (nest_indent st)) as H.
      destruct (close_indents tag_table _ (nest_indent st)). exact H.
    - destruct t; try reflexivity.
      pose proof (close_indents_only_indents
                    (Z.to_nat (nest_indent st - indent)) (nest_indent st)) as H.
      destruct (close_indents tag_table _ (nest_indent st)). exact H. }
  destruct (nest_closing tag_table st it) as [out1 st1].
  cbn [fst] in Hclosing.
  destruct (nest_yield tag_table st1 it) as [[out2 st2]|e] eqn:E2;
    cbn [bind] in E; [|discriminate].
  injection E as <- _. rewrite filter_app, Hclosing. cbn [app].
  unfold nest_yield in E2.
  destruct it as [s|a|t|t|s|s]; try (injection E2 as <- _; reflexivity).
  - destruct t; try (injection E2 as <- _; reflexivity).
    destruct (indent >=? nest_indent st1)%Z; [|discriminate].
    destruct (open_indents tag_table _ (nest_indent st1))
      as [[out3 i3]|e] eqn:E3; cbn [bind] in E2; [|discriminate].
    injection E2 as <- _. exact (open_indents_only_indents _ _ _ _ E3).
  - destruct t; injection E2 as <- _; reflexivity.
Qed.

Lemma nest_loop_passes (contents : list item) :
  forall st st' out,
    nest_loop tag_table st contents = Ok (out, st') ->
    List.filter not_indent_item out = List.filter not_indent_item contents.
Proof.
  induction contents as [|it rest IH]; intros st st' out E;
    cbn [nest_loop] in E.
  - injection E as <- _. reflexivity.
  - destruct (nest_item tag_table st it) as [[out1 st1]|e] eqn:E1;
      cbn [bind] in E; [|discriminate].
    destruct (nest_loop tag_table st1 rest) as [[out2 st2]|e] eqn:E2;
      cbn [bind] in E; [|discriminate].
    injection E as <- _. rewrite filter_app.
    rewrite (nest_item_passes _ _ _ _ E1), (IH _ _ _ E2).
    change (it :: rest) with ([it] ++ rest). rewrite filter_app. reflexivity.
Qed.

End IndentTransforms.

(** X5.  With a registry that knows the indent tags, what
    [nest_indent_tags] yields differs from its input in the indent begins
    and ends only: every other item comes out once, in its place. *)
Theorem nest_indent_tags_passes_other_items
        (tag_table : TagTable) (contents out : list item) :
  indent_table tag_table ->
  nest_indent_tags contents tag_table = Ok out ->
  List.filter not_indent_item out = List.filter not_indent_item contents.
Proof.
  intros Htab E. unfold nest_indent_tags, nest_run in E.
  destruct (nest_loop tag_table nest_init contents) as [[out1 st1]|e] eqn:E1;
    cbn [bind] in E; [|discriminate].
  unfold nest_finish in E.
  pose proof (close_indents_only_indents tag_table Htab
                (Z.to_nat (nest_indent st1)) (nest_indent st1)) as Hfin.
  destruct (close_indents tag_table _ (nest_indent st1)) as [out2 i2].
  cbn [bind fst] in *. injection E as <-.
  rewrite filter_app, Hfin, app_nil_r.
  exact (nest_loop_passes tag_table Htab _ _ _ _ E1).
Qed.

Lemma nest_indent_tags_passes_other_items_witness :
  List.filter not_indent_item
    [BeginTag (RichTextIndentTag 1 par_none);
     BeginTag (RichTextIndentTag 2 par_none); Text "a";
     EndTag (RichTextIndentTag 2 par_none);
     EndTag (RichTextIndentTag 1 par_none)]
  = List.filter not_indent_item stream_level_two.
Proof.
  apply (nest_indent_tags_passes_other_items lookup_tag stream_level_two).
  - exact lookup_tag_indent_table.
  - vm_compute. reflexivity.
Defined.

(** X6.  A [Begin(Indent)] of a lower level right after a [Begin(Indent)],
    the first one not yet ended, trips the assertion of
    [nest_indent_tags]. *)
Theorem nest_indent_tags_asserts_flat
        (tag_table : TagTable) (n m : Z) (p q : par_kind)
        (rest : list item) :
  (0 <= n)%Z -> (m < n)%Z ->
  nest_indent_tags (BeginTag (RichTextIndentTag n p)
                    :: BeginTag (RichTextIndentTag m q) :: rest) tag_table
  = Raise AssertionError.
Proof.
  intros Hn Hm. unfold nest_indent_tags, nest_run.
  cbn [nest_loop nest_item nest_closing nest_yield nest_init indent_closing
       nest_indent].
  destruct (Z.geb_spec n 0); [|lia].
  destruct (open_indents_ok tag_table (Z.to_nat (n - 0)) 0)
    as (out & E & _); [lia|].
  rewrite E.
  cbn [bind nest_loop nest_item nest_closing nest_yield indent_closing
       nest_indent].
  destruct (Z.geb_spec m (0 + Z.of_nat (Z.to_nat (n - 0)))); [lia|].
  reflexivity.
Qed.

Lemma nest_indent_tags_asserts_flat_witness :
  nest_indent_tags [BeginTag (RichTextIndentTag 2 par_none);
                    BeginTag (RichTextIndentTag 1 par_bullet); Text "a"]
                   lookup_tag
  = Raise AssertionError.
Proof.
  apply (nest_indent_tags_asserts_flat lookup_tag 2 1 par_none par_bullet);
    lia.
Defined.

Section UnnestFailure.

Lemma unnest_loop_fails_iff (contents : list item) :
  forall st,
    (li_underflow (List.length (li_stack st)) contents = true ->
     unnest_loop st contents = Raise IndexError)
    /\ (li_underflow (List.length (li_stack st)) contents = false ->
        exists out st', unnest_loop st contents = Ok (out, st')).
Proof.
  induction contents as [|it rest IH]; intros [indent stack].
  - split; [discriminate|]. intros _. eexists _, _. reflexivity.
  - cbn [unnest_loop li_stack].
    assert (Hplain : forall st1 : unnest_state,
               li_stack st1 = stack ->
               (li_underflow (List.length stack) rest = true ->
                ('(out2, st2) <- unnest_loop st1 rest ;;
                 Ok ([it] ++ out2, st2)) = Raise IndexError)
               /\ (li_underflow (List.length stack) rest = false ->
                   exists out st',
                     ('(out2, st2) <- unnest_loop st1 rest ;;
                      Ok ([it] ++ out2, st2)) = Ok (out, st'))).
    { intros st1 <-. destruct (IH st1) as (Ht & Hf). split.
      - intros H. rewrite (Ht H). reflexivity.
      - intros H. destruct (Hf H) as (o & s & ->). eexists _, _. reflexivity. }
    destruct it as [s|a|t|t|param|param];
      try (exact (Hplain (mk_unnest indent stack) eq_refl)).
    + cbn [unnest_item li_underflow unnest_indent li_stack]. unfold is_li_param.
      destruct (String.eqb param "ol"); cbn [negb andb bind].
      * destruct (IH (mk_unnest (indent + 1) stack)) as (Ht & Hf). split.
        -- intros H. rewrite (Ht H). reflexivity.
        -- intros H. destruct (Hf H) as (o & s & ->). eexists _, _. reflexivity.
      * destruct (startswith param "li"); cbn [bind].
        -- destruct (IH (mk_unnest indent
                           (indent_tagstr indent (slice_from 3 param) :: stack)))
             as (Ht & Hf). split.
           ++ intros H. rewrite (Ht H). reflexivity.
           ++ intros H. destruct (Hf H) as (o & s & ->).
              eexists _, _. reflexivity.
        -- exact (Hplain (mk_unnest indent stack) eq_refl).
    + cbn [unnest_item li_underflow unnest_indent li_stack]. unfold is_li_param.
      destruct (String.eqb param "ol"); cbn [negb andb bind].
      * destruct (IH (mk_unnest (indent - 1) stack)) as (Ht & Hf). split.
        -- intros H. rewrite (Ht H). reflexivity.
        -- intros H. destruct (Hf H) as (o & s & ->). eexists _, _. reflexivity.
      * destruct (startswith param "li"); cbn [bind].
        -- destruct stack as [|top stack']; cbn [List.length bind].
           ++ split; [reflexivity|discriminate].
           ++ destruct (IH (mk_unnest indent stack')) as (Ht & Hf). split.
              ** intros H. rewrite (Ht H). reflexivity.
              ** intros H. destruct (Hf H) as (o & s & ->).
                 eexists _, _. reflexivity.
        -- exact (Hplain (mk_unnest indent stack) eq_refl).
Qed.

End UnnestFailure.

(** X7.  [unnest_indent_tags] fails exactly on the streams that end a list
    item when no list item is open, and then with the [IndexError] of
    popping the empty stack; on every other stream it runs to the end. *)
Theorem unnest_indent_tags_fails_iff (contents : list item) :
  (li_underflow 0 contents = true
   <-> unnest_indent_tags contents = Raise IndexError)
  /\ (li_underflow 0 contents = false
      <-> exists out, unnest_indent_tags contents = Ok out).
Proof.
  unfold unnest_indent_tags.
  destruct (unnest_loop_fails_iff contents unnest_init) as (Ht & Hf).
  cbn [unnest_init li_stack List.length] in *.
  destruct (li_underflow 0 contents).
  - rewrite (Ht eq_refl). cbn [bind]. split; split; try reflexivity;
      try discriminate. intros (o & H). discriminate.
  - destruct (Hf eq_refl) as (o & s & ->). cbn [bind].
    split; split; try reflexivity; try discriminate.
    intros _. eexists. reflexivity.
Qed.

(** ** More on [find_paragraphs] *)

Section Paragraphs.

Definition is_par_tag (t : RichTextTag) : bool :=
  match t with RichTextParTag _ => true | _ => false end.

(** The paragraph that is open, by the locals [within_par] and
    [par_stack]. *)
Definition open_paragraph (within : bool) (stack : list RichTextTag)
  : option par_kind :=
  if within then
    match stack with
    | RichTextParTag k :: _ => Some k
    | _ => None
    end
  else None.

(** Neither a paragraph tag nor content: an item that waits in [others]. *)
Definition neutral_item (it : item) : bool :=
  not_par_item it && negb (is_content it).

Lemma paragraphs_ok_neutral (l tail : list item) (open : option par_kind) :
  forallb neutral_item l = true ->
  paragraphs_ok open (l ++ tail) = paragraphs_ok open tail.
Proof.
  induction l as [|it l IH]; intros H; [reflexivity|].
  cbn [forallb] in H. apply andb_prop in H. destruct H as (Hit & Hl).
  cbn [app paragraphs_ok].
  destruct it as [s|a|t|t|s|s]; try discriminate; try (apply IH, Hl);
    destruct t; try discriminate; apply IH, Hl.
Qed.

Lemma open_par_paragraph (k : par_kind) (within : bool)
      (stack : list RichTextTag) (tail : list item) :
  forallb is_par_tag stack = true ->
  (within = true -> stack <> []) ->
  exists k',
    open_paragraph true (snd (open_par k within stack)) = Some k'
    /\ forallb is_par_tag (snd (open_par k within stack)) = true
    /\ paragraphs_ok (open_paragraph within stack)
                     (fst (open_par k within stack) ++ tail)
       = paragraphs_ok (Some k') tail.
Proof.
  intros Hstack Hne. unfold open_par. destruct within; cbn [fst snd app].
  - destruct stack as [|t stack]; [exfalso; apply Hne; reflexivity|].
    cbn [forallb] in Hstack. apply andb_prop in Hstack.
    destruct Hstack as (Ht & Hs). destruct t; try discriminate.
    exists kind. cbn [open_paragraph forallb is_par_tag]. rewrite Hs. auto.
  - exists k. destruct k; cbn; rewrite Hstack; auto.
Qed.

Lemma text_loop_paragraphs (text : string) (k : par_kind) :
  forall (cs : string) (j : nat) (stack : list RichTextTag) (within : bool)
         (i : nat) (lj : option nat) out fin tail,
    forallb is_par_tag stack = true ->
    (within = true -> stack <> []) ->
    text_loop text k cs j within stack i lj = Ok (out, fin) ->
    let '(within', stack', _, _) := fin in
    forallb is_par_tag stack' = true
    /\ (within' = true -> stack' <> [])
    /\ (cs <> EmptyString ->
        paragraphs_ok (open_paragraph within stack) (out ++ tail)
        = paragraphs_ok (open_paragraph within' stack') tail)
    /\ (cs = EmptyString -> out = [] /\ within' = within /\ stack' = stack).
Proof.
  induction cs as [|c cs IH];
    intros j stack within i lj out fin tail Hstack Hne E; cbn [text_loop] in E.
  - injection E as <- <-. repeat split; auto; congruence.
  - pose proof (fun tl => open_par_paragraph k within stack tl Hstack Hne)
      as Hopen.
    destruct (open_par k within stack) as [out1 stack1].
    cbn [fst snd] in Hopen.
    destruct (Ascii.eqb c nl).
    + destruct stack1 as [|top stack2];
        [destruct (Hopen []) as (k' & H & _); discriminate|].
      destruct (text_loop text k cs (S j) false stack2 (j + 1)%nat (Some j))
        as [[out2 fin2]|e] eqn:E2; cbn [bind] in E; [|discriminate].
      injection E as <- <-.
      destruct (Hopen []) as (k' & Hk' & Hpars & _).
      cbn [forallb] in Hpars. apply andb_prop in Hpars.
      destruct Hpars as (Htop & Hstack2).
      destruct top; try discriminate. cbn [open_paragraph] in Hk'.
      injection Hk' as ->.
      specialize (IH (S j) stack2 false (j + 1)%nat (Some j) out2 fin2 tail
                     Hstack2 ltac:(discriminate) E2).
      destruct fin2 as [[[w' stk'] i'] lj'].
      destruct IH as (Hs' & Hne' & Hcons & Hnil).
      split; [exact Hs'|]. split; [exact Hne'|]. split; [|discriminate].
      intros _. rewrite <- app_assoc. cbn [app].
      destruct (Hopen (Text (slice i (j + 1) text)
                         :: EndTag (RichTextParTag k') :: out2 ++ tail))
        as (k'' & Hk'' & _ & ->).
      cbn [open_paragraph] in Hk''. injection Hk'' as <-.
      cbn [app paragraphs_ok]. destruct k'; cbn [par_kind_eqb andb];
        (destruct cs as [|c' cs'];
         [destruct (Hnil eq_refl) as (-> & -> & ->); reflexivity
         |apply Hcons; discriminate]).
    + destruct (text_loop text k cs (S j) true stack1 i (Some j))
        as [[out2 fin2]|e] eqn:E2; cbn [bind] in E; [|discriminate].
      injection E as <- <-.
      destruct (Hopen []) as (k' & Hk' & Hpars & _).
      assert (Hne1 : true = true -> stack1 <> []).
      { intros _ ->. discriminate. }
      specialize (IH (S j) stack1 true i (Some j) out2 fin2 tail
                     Hpars Hne1 E2).
      destruct fin2 as [[[w' stk'] i'] lj'].
      destruct IH as (Hs' & Hne' & Hcons & Hnil).
      split; [exact Hs'|]. split; [exact Hne'|]. split; [|discriminate].
      intros _. rewrite <- app_assoc.
      destruct (Hopen (out2 ++ tail)) as (k'' & Hk'' & _ & ->).
      rewrite <- Hk''.
      destruct cs as [|c' cs'];
        [destruct (Hnil eq_refl) as (-> & -> & ->); reflexivity
        |apply Hcons; discriminate].
Qed.

(** The state of the transform along a stream without paragraph tags. *)
Definition par_state_ok (st : par_state) : Prop :=
  forallb is_par_tag (par_stack st) = true
  /\ (within_par st = true -> par_stack st <> [])
  /\ forallb neutral_item (others st) = true.

Lemma par_item_paragraphs (st st' : par_state) (it : item)
      (out tail : list item) :
  par_state_ok st ->
  not_par_item it = true ->
  par_item st it = Ok (out, st') ->
  par_state_ok st'
  /\ paragraphs_ok (open_paragraph (within_par st) (par_stack st))
                   (out ++ tail)
     = paragraphs_ok (open_paragraph (within_par st') (par_stack st')) tail.
Proof.
  intros (Hstack & Hne & Hothers) Hit E. unfold par_item in E.
  pose proof (fun tl => open_par_paragraph (par_type st) (within_par st)
                          (par_stack st) tl Hstack Hne) as Hopen.
  destruct it as [text|a|t|t|s|s].
  - destruct (open_par (par_type st) (within_par st) (par_stack st))
      as [out1 stack1]. cbn [fst snd] in Hopen.
    destruct (Hopen []) as (k1 & Hk1 & Hpars1 & _).
    assert (Hne1 : true = true -> stack1 <> []).
    { intros _ ->. discriminate. }
    destruct (text_loop text (par_type st) text 0 true stack1 0 (loop_j st))
      as [[out2 [[[w2 stk2] i2] lj2]]|e] eqn:E2; cbn [bind] in E;
      [|discriminate].
    pose proof (fun tl => text_loop_paragraphs _ _ _ _ _ _ _ _ _ _ tl
                            Hpars1 Hne1 E2) as Hloop.
    cbn beta iota in Hloop.
    destruct (Hloop []) as (Hs2 & Hne2 & _ & _).
    assert (Hprefix : forall tl,
               paragraphs_ok (open_paragraph (within_par st) (par_stack st))
                             (others st ++ out1 ++ out2 ++ tl)
               = paragraphs_ok (open_paragraph w2 stk2) tl).
    { intros tl. rewrite (paragraphs_ok_neutral _ _ _ Hothers).
      destruct (Hopen (out2 ++ tl)) as (k' & Hk' & _ & ->). rewrite <- Hk'.
      destruct (Hloop tl) as (_ & _ & Hcons & Hnil).
      destruct text as [|c cs];
        [destruct (Hnil eq_refl) as (-> & -> & ->); reflexivity
        |apply Hcons; discriminate]. }
    destruct lj2 as [jv|]; [|discriminate].
    destruct (i2 <? jv + 1)%nat.
    + pose proof (fun tl => open_par_paragraph (par_type st) w2 stk2 tl
                              Hs2 Hne2) as Hopen3.
      destruct (open_par (par_type st) w2 stk2) as [out3 stack3].
      cbn [fst snd] in Hopen3.
      injection E as <- <-.
      destruct (Hopen3 []) as (k3 & Hk3 & Hpars3 & _).
      split.
      * unfold par_state_ok. cbn [within_par par_stack others].
        split; [exact Hpars3|]. split; [|reflexivity].
        intros _ ->. discriminate.
      * cbn [within_par par_stack]. rewrite <- !app_assoc, Hprefix.
        destruct (Hopen3 ([Text (slice i2 (jv + 1) text)] ++ tail))
          as (k' & Hk' & _ & ->).
        rewrite Hk'. reflexivity.
    + injection E as <- <-. split.
      * split; [exact Hs2|]. split; [exact Hne2|reflexivity].
      * cbn [within_par par_stack]. rewrite <- !app_assoc. apply Hprefix.
  - destruct (open_par (par_type st) (within_par st) (par_stack st))
      as [out1 stack1]. cbn [fst snd] in Hopen.
    injection E as <- <-.
    destruct (Hopen []) as (k1 & Hk1 & Hpars1 & _).
    split.
    + unfold par_state_ok. cbn [within_par par_stack others].
      split; [exact Hpars1|]. split; [|reflexivity].
      intros _ ->. discriminate.
    + cbn [within_par par_stack]. rewrite <- !app_assoc.
      rewrite (paragraphs_ok_neutral _ _ _ Hothers).
      destruct (Hopen ([Anchor a] ++ tail)) as (k' & Hk' & _ & ->).
      rewrite Hk'. reflexivity.
  - injection E as <- <-. split; [|reflexivity].
    split; [exact Hstack|]. split; [exact Hne|].
    cbn [others]. rewrite forallb_app, Hothers. cbn [forallb].
    unfold neutral_item. rewrite Hit. reflexivity.
  - injection E as <- <-. split; [|reflexivity].
    split; [exact Hstack|]. split; [exact Hne|].
    cbn [others]. rewrite forallb_app, Hothers. cbn [forallb].
    unfold neutral_item. rewrite Hit. reflexivity.
  - injection E as <- <-. split; [|reflexivity].
    split; [exact Hstack|]. split; [exact Hne|].
    cbn [others]. rewrite forallb_app, Hothers. reflexivity.
  - injection E as <- <-. split; [|reflexivity].
    split; [exact Hstack|]. split; [exact Hne|].
    cbn [others]. rewrite forallb_app, Hothers. reflexivity.
Qed.

Lemma par_loop_paragraphs (contents : list item) :
  forall st st' out tail,
    par_state_ok st ->
    forallb not_par_item contents = true ->
    par_loop st contents = Ok (out, st') ->
    par_state_ok st'
    /\ paragraphs_ok (open_paragraph (within_par st) (par_stack st))
                     (out ++ tail)
       = paragraphs_ok (open_paragraph (within_par st') (par_stack st')) tail.
Proof.
  induction contents as [|it rest IH]; intros st st' out tail Hst Hall E;
    cbn [par_loop] in E.
  - injection E as <- <-. auto.
  - cbn [forallb] in Hall. apply andb_prop in Hall.
    destruct Hall as (Hit & Hrest).
    destruct (par_item st it) as [[out1 st1]|e] eqn:E1; cbn [bind] in E;
      [|discriminate].
    destruct (par_loop st1 rest) as [[out2 st2]|e] eqn:E2; cbn [bind] in E;
      [|discriminate].
    injection E as <- <-.
    destruct (par_item_paragraphs _ _ _ _ (out2 ++ tail) Hst Hit E1)
      as (Hst1 & H1).
    destruct (IH _ _ _ tail Hst1 Hrest E2) as (Hst2 & H2).
    split; [exact Hst2|]. rewrite <- app_assoc, H1. exact H2.
Qed.

Lemma find_paragraphs_total (contents : list item) :
  first_text contents <> Some EmptyString ->
  exists out st out',
    par_loop par_init contents = Ok (out, st)
    /\ par_finish st = Ok out'
    /\ find_paragraphs contents = Ok (out ++ out').
Proof.
  intros Hfirst. unfold find_paragraphs.
  destruct (par_loop_unbound contents par_init par_init_inv eq_refl)
    as [(Hf & _)|(_ & out & st & E & Hinv)]; [congruence|].
  destruct (par_finish_ok st Hinv) as (out' & E').
  exists out, st, out'. rewrite E. cbn [bind]. rewrite E'.
  repeat split; reflexivity.
Qed.

End Paragraphs.

(** X8.  On a stream without paragraph tags of its own and whose first
    text is not empty, [find_paragraphs] runs to the end and what it yields
    reads as a sequence of paragraphs: a paragraph begins only when none is
    open, ends with the tag it began with, none is left open at the end, and
    every text and anchor lies in a paragraph. *)
Theorem find_paragraphs_wraps_content (contents : list item) :
  forallb not_par_item contents = true ->
  first_text contents <> Some EmptyString ->
  exists out,
    find_paragraphs contents = Ok out /\ paragraphs_ok None out = true.
Proof.
  intros Hall Hfirst.
  destruct (find_paragraphs_total contents Hfirst)
    as (out1 & st1 & out2 & E1 & E2 & ->).
  eexists; split; [reflexivity|].
  destruct (par_loop_paragraphs contents par_init st1 out1 out2) as
    ((Hstack & Hne & Hothers) & H); auto.
  { repeat split. discriminate. }
  change (open_paragraph (within_par par_init) (par_stack par_init))
    with (@None par_kind) in H.
  rewrite H. unfold par_finish in E2.
  destruct (within_par st1).
  - destruct (par_stack st1) as [|top stack]; [discriminate|].
    injection E2 as <-. cbn [forallb] in Hstack.
    apply andb_prop in Hstack. destruct Hstack as (Htop & _).
    destruct top; try discriminate.
    cbn [open_paragraph paragraphs_ok].
    replace (par_kind_eqb kind kind) with true by (destruct kind; reflexivity).
    cbn [andb].
    rewrite <- (app_nil_r (others st1)).
    rewrite (paragraphs_ok_neutral _ _ _ Hothers). reflexivity.
  - injection E2 as <-. cbn [open_paragraph].
    rewrite <- (app_nil_r (others st1)).
    rewrite (paragraphs_ok_neutral _ _ _ Hothers). reflexivity.
Qed.

Lemma find_paragraphs_wraps_content_witness :
  forallb not_par_item stream_indent_ended = true
  /\ first_text stream_indent_ended <> Some EmptyString
  /\ exists out,
      find_paragraphs stream_indent_ended = Ok out
      /\ paragraphs_ok None out = true.
Proof.
  split; [reflexivity|]. split; [discriminate|].
  apply (find_paragraphs_wraps_content stream_indent_ended);
    [reflexivity|discriminate].
Defined.

Section Pieces.

Lemma string_length_app (a b : string) :
  String.length (a ++ b) = (String.length a + String.length b)%nat.
Proof. induction a as [|c a IH]; cbn; [reflexivity|rewrite IH; reflexivity]. Qed.

Lemma string_app_nil_r (a : string) : (a ++ "")%string = a.
Proof. induction a as [|c a IH]; cbn; [reflexivity|rewrite IH; reflexivity]. Qed.

Lemma substring_empty (n m : nat) : substring n m "" = ""%string.
Proof. destruct n, m; reflexivity. Qed.

Lemma substring_app_mid (P M R : string) :
  substring (String.length P) (String.length M) (P ++ M ++ R) = M.
Proof.
  induction P as [|c P IH]; [|exact IH].
  cbn [String.length append]. induction M as [|c M IH].
  - cbn [String.length append]. destruct R; reflexivity.
  - cbn [String.length append substring]. rewrite IH. reflexivity.
Qed.

Lemma slice_mid (P M R : string) :
  slice (String.length P) (String.length P + String.length M) (P ++ M ++ R)
  = M.
Proof.
  unfold slice.
  replace (String.length P + String.length M - String.length P)%nat
    with (String.length M) by lia.
  apply substring_app_mid.
Qed.

Lemma glue_empty (pieces : list string) : glue "" pieces = pieces.
Proof. destruct pieces; reflexivity. Qed.

Lemma glue_glue (a b : string) (pieces : list string) :
  b <> ""%string -> glue a (glue b pieces) = glue (a ++ b) pieces.
Proof.
  intros Hb. destruct pieces as [|p ps]; cbn [glue].
  - destruct b as [|c b]; [congruence|]. cbn [glue].
    destruct a; reflexivity.
  - rewrite string_app_assoc. reflexivity.
Qed.

(** The text between [i] and the end, when the loop over a text is done. *)
Definition rest_piece (rest : string) : list item :=
  match rest with
  | EmptyString => []
  | _ => [Text rest]
  end.

Lemma filter_map_text (pieces : list string) :
  List.filter not_par_item (map Text pieces) = map Text pieces.
Proof.
  induction pieces as [|p ps IH]; [reflexivity|].
  cbn [map List.filter not_par_item is_par_item negb]. rewrite IH.
  reflexivity.
Qed.

Lemma open_par_pieces (k : par_kind) (within : bool)
      (stack : list RichTextTag) :
  forallb is_par_tag stack = true ->
  List.filter not_par_item (fst (open_par k within stack)) = []
  /\ forallb is_par_tag (snd (open_par k within stack)) = true.
Proof.
  intros H. unfold open_par. destruct within; cbn [fst snd]; [auto|].
  destruct k; cbn; auto.
Qed.

Lemma text_loop_pieces (text : string) (k : par_kind) :
  forall (cs P Q : string) (stack : list RichTextTag) (within : bool)
         (lj : option nat) out w' stk' i' lj',
    text = (P ++ Q ++ cs)%string ->
    forallb is_par_tag stack = true ->
    text_loop text k cs (String.length P + String.length Q) within stack
              (String.length P) lj
    = Ok (out, (w', stk', i', lj')) ->
    forallb is_par_tag stk' = true
    /\ (exists P' Q',
           text = (P' ++ Q')%string /\ i' = String.length P'
           /\ List.filter not_par_item out ++ rest_piece Q'
              = map Text (glue Q (split_lines cs)))
    /\ lj' = match cs with
             | EmptyString => lj
             | _ => Some (String.length text - 1)%nat
             end.
Proof.
  induction cs as [|c cs IH];
    intros P Q stack within lj out w' stk' i' lj' Htext Hstack E;
    cbn [text_loop] in E.
  - injection E as <- <- <- <- <-. split; [exact Hstack|]. split; [|reflexivity].
    exists P, Q. rewrite string_app_nil_r in Htext.
    split; [exact Htext|]. split; [reflexivity|].
    destruct Q; reflexivity.
  - destruct (open_par_pieces k within stack Hstack) as (Hout1 & Hstack1).
    destruct (open_par k within stack) as [out1 stack1].
    cbn [fst snd] in Hout1, Hstack1. cbn [split_lines].
    assert (Hlast : match cs with
                    | EmptyString =>
                        Some (String.length P + String.length Q)%nat
                    | _ => Some (String.length text - 1)%nat
                    end = Some (String.length text - 1)%nat).
    { destruct cs; [|reflexivity]. rewrite Htext, !string_length_app.
      cbn [String.length]. f_equal. lia. }
    destruct (Ascii.eqb c nl).
    + destruct stack1 as [|top stack2]; [discriminate|].
      cbn [forallb] in Hstack1. apply andb_prop in Hstack1.
      destruct Hstack1 as (Htop & Hstack2).
      set (line := (Q ++ String c "")%string).
      assert (Htext2 : text = ((P ++ line) ++ "" ++ cs)%string).
      { rewrite Htext. unfold line. cbn [append].
        rewrite !string_app_assoc. reflexivity. }
      replace (S (String.length P + String.length Q))
        with (String.length (P ++ line) + String.length "")%nat in E
        by (unfold line; rewrite !string_length_app; cbn [String.length]; lia).
      replace (String.length P + String.length Q + 1)%nat
        with (String.length (P ++ line)) in E
        by (unfold line; rewrite !string_length_app; cbn [String.length]; lia).
      destruct (text_loop text k cs
                  (String.length (P ++ line) + String.length "") false stack2
                  (String.length (P ++ line))
                  (Some (String.length P + String.length Q)%nat))
        as [[out2 [[[w2 stk2] i2] lj2]]|e] eqn:E2; cbn [bind] in E;
        [|discriminate].
      injection E as <- <- <- <- <-.
      destruct (IH _ _ _ _ _ _ _ _ _ _ Htext2 Hstack2 E2)
        as (Hs2 & (P' & Q' & HP' & Hi' & Hpieces) & Hlj).
      split; [exact Hs2|]. split; [|rewrite Hlj; exact Hlast].
      exists P', Q'. split; [exact HP'|]. split; [exact Hi'|].
      rewrite filter_app, Hout1. cbn [app List.filter].
      destruct top; try discriminate.
      cbn [not_par_item is_par_item negb]. cbn [app].
      rewrite Hpieces, glue_empty. cbn [glue map]. f_equal. f_equal.
      replace text with (P ++ line ++ cs)%string
        by (rewrite Htext2, !string_app_assoc; reflexivity).
      rewrite (string_length_app P line). apply (slice_mid P line cs).
    + set (line := (Q ++ String c "")%string).
      assert (Htext2 : text = (P ++ line ++ cs)%string).
      { rewrite Htext. unfold line. rewrite !string_app_assoc. reflexivity. }
      replace (S (String.length P + String.length Q))
        with (String.length P + String.length line)%nat in E
        by (unfold line; rewrite !string_length_app; cbn [String.length]; lia).
      destruct (text_loop text k cs
                  (String.length P + String.length line) true stack1
                  (String.length P)
                  (Some (String.length P + String.length Q)%nat))
        as [[out2 [[[w2 stk2] i2] lj2]]|e] eqn:E2; cbn [bind] in E;
        [|discriminate].
      injection E as <- <- <- <- <-.
      destruct (IH _ _ _ _ _ _ _ _ _ _ Htext2 Hstack1 E2)
        as (Hs2 & (P' & Q' & HP' & Hi' & Hpieces) & Hlj).
      split; [exact Hs2|]. split; [|rewrite Hlj; exact Hlast].
      exists P', Q'. split; [exact HP'|]. split; [exact Hi'|].
      rewrite filter_app, Hout1. cbn [app].
      rewrite Hpieces. unfold line. rewrite glue_glue by discriminate.
      reflexivity.
Qed.

Lemma split_texts_cons (it : item) (rest : list item) :
  split_texts (it :: rest) = split_texts [it] ++ split_texts rest.
Proof.
  unfold split_texts. cbn [flat_map]. rewrite app_nil_r. reflexivity.
Qed.

Lemma par_item_pieces (st st' : par_state) (it : item) (out : list item) :
  forallb is_par_tag (par_stack st) = true ->
  par_item st it = Ok (out, st') ->
  forallb is_par_tag (par_stack st') = true
  /\ List.filter not_par_item out ++ List.filter not_par_item (others st')
     = List.filter not_par_item (others st)
       ++ List.filter not_par_item (split_texts [it]).
Proof.
  intros Hstack E. unfold par_item in E.
  destruct (open_par_pieces (par_type st) (within_par st) (par_stack st)
              Hstack) as (Hout1 & Hstack1).
  destruct it as [text|a|t|t|s|s].
  - destruct (open_par (par_type st) (within_par st) (par_stack st))
      as [out1 stack1]. cbn [fst snd] in Hout1, Hstack1.
    destruct (text_loop text (par_type st) text 0 true stack1 0 (loop_j st))
      as [[out2 [[[w2 stk2] i2] lj2]]|e] eqn:E2; cbn [bind] in E;
      [|discriminate].
    destruct (text_loop_pieces text (par_type st) text "" "" stack1 true
                (loop_j st) out2 w2 stk2 i2 lj2 eq_refl Hstack1 E2)
      as (Hs2 & (P' & Q' & HP' & Hi' & Hpieces) & Hlj).
    rewrite glue_empty in Hpieces.
    assert (Hsplit : List.filter not_par_item (split_texts [Text text])
                     = match text with
                       | EmptyString => [Text ""]
                       | _ => map Text (split_lines text)
                       end).
    { unfold split_texts, text_pieces. cbn [flat_map]. rewrite app_nil_r.
      destruct text; [reflexivity|apply filter_map_text]. }
    rewrite Hsplit. clear Hsplit.
    destruct lj2 as [jv|]; [|discriminate].
    destruct (open_par_pieces (par_type st) w2 stk2 Hs2) as (Hout3 & Hstack3).
    destruct (open_par (par_type st) w2 stk2) as [out3 stack3].
    cbn [fst snd] in Hout3, Hstack3.
    destruct text as [|c cs].
    + (* the empty text: the loop does not run, [j] is the one left by an
         earlier text *)
      destruct P'; [|discriminate]. destruct Q'; [|discriminate].
      cbn [String.length] in Hi'. subst i2.
      cbn [split_lines map rest_piece] in Hpieces.
      rewrite app_nil_r in Hpieces.
      replace (0 <? jv + 1)%nat with true in E
        by (symmetry; apply Nat.ltb_lt; lia).
      injection E as <- <-. cbn [par_stack others].
      split; [exact Hstack3|].
      rewrite !filter_app, Hout1, Hpieces, Hout3.
      unfold slice. rewrite substring_empty.
      cbn [app List.filter not_par_item is_par_item negb].
      rewrite app_nil_r. reflexivity.
    + assert (Hlen : (jv + 1 = String.length P' + String.length Q')%nat).
      { injection Hlj as ->. rewrite <- string_length_app, <- HP'.
        cbn [String.length]. lia. }
      rewrite Hlen in E. subst i2.
      destruct Q' as [|q Q'].
      * replace (String.length P' <? String.length P' + String.length "")%nat
          with false in E
          by (symmetry; apply Nat.ltb_ge; cbn [String.length]; lia).
        injection E as <- <-. cbn [par_stack others].
        split; [exact Hs2|].
        cbn [rest_piece] in Hpieces. rewrite app_nil_r in Hpieces.
        rewrite !filter_app, Hout1, Hpieces. cbn [app List.filter].
        rewrite app_nil_r. reflexivity.
      * replace (String.length P' <?
                 String.length P' + String.length (String q Q'))%nat
          with true in E
          by (symmetry; apply Nat.ltb_lt; cbn [String.length]; lia).
        injection E as <- <-. cbn [par_stack others].
        split; [exact Hstack3|].
        rewrite !filter_app, Hout1, Hout3. cbn [app List.filter].
        rewrite app_nil_r. f_equal. rewrite <- Hpieces. f_equal.
        cbn [rest_piece not_par_item is_par_item negb]. f_equal. f_equal.
        rewrite HP'.
        pose proof (slice_mid P' (String q Q') "") as Hs.
        rewrite string_app_nil_r in Hs. exact Hs.
  - destruct (open_par (par_type st) (within_par st) (par_stack st))
      as [out1 stack1]. cbn [fst snd] in Hout1, Hstack1.
    injection E as <- <-. cbn [par_stack others].
    split; [exact Hstack1|].
    rewrite !filter_app, Hout1. cbn. rewrite app_nil_r. reflexivity.
  - injection E as <- <-. cbn [par_stack others].
    split; [exact Hstack|]. rewrite filter_app. reflexivity.
  - injection E as <- <-. cbn [par_stack others].
    split; [exact Hstack|]. rewrite filter_app. reflexivity.
  - injection E as <- <-. cbn [par_stack others].
    split; [exact Hstack|]. rewrite filter_app. reflexivity.
  - injection E as <- <-. cbn [par_stack others].
    split; [exact Hstack|]. rewrite filter_app. reflexivity.
Qed.

Lemma par_loop_pieces (contents : list item) :
  forall st st' out,
    forallb is_par_tag (par_stack st) = true ->
    par_loop st contents = Ok (out, st') ->
    forallb is_par_tag (par_stack st') = true
    /\ List.filter not_par_item out ++ List.filter not_par_item (others st')
       = List.filter not_par_item (others st)
         ++ List.filter not_par_item (split_texts contents).
Proof.
  induction contents as [|it rest IH]; intros st st' out Hst E;
    cbn [par_loop] in E.
  - injection E as <- <-. split; [exact Hst|].
    cbn. rewrite app_nil_r. reflexivity.
  - destruct (par_item st it) as [[out1 st1]|e] eqn:E1; cbn [bind] in E;
      [|discriminate].
    destruct (par_loop st1 rest) as [[out2 st2]|e] eqn:E2; cbn [bind] in E;
      [|discriminate].
    injection E as <- <-.
    destruct (par_item_pieces _ _ _ _ Hst E1) as (Hst1 & H1).
    destruct (IH _ _ _ Hst1 E2) as (Hst2 & H2).
    split; [exact Hst2|].
    rewrite split_texts_cons, !filter_app, <- app_assoc, H2.
    rewrite !app_assoc. f_equal. exact H1.
Qed.

End Pieces.

(** X9.  [find_paragraphs] adds paragraph tags and cuts texts after their
    newlines, and nothing else: on every stream it does not fail on (one
    whose first text is not empty), leaving the paragraph tags aside, its
    output is the input with every text cut after each of its newlines, in
    the same order. *)
Theorem find_paragraphs_keeps_items (contents : list item) :
  first_text contents <> Some EmptyString ->
  exists out,
    find_paragraphs contents = Ok out
    /\ List.filter not_par_item out
       = List.filter not_par_item (split_texts contents).
Proof.
  intros Hfirst.
  destruct (find_paragraphs_total contents Hfirst)
    as (out & st & out' & E & E' & ->).
  eexists; split; [reflexivity|].
  destruct (par_loop_pieces contents par_init st out eq_refl E) as (Hst & H).
  cbn [others par_init List.filter app] in H. rewrite <- H, filter_app.
  f_equal. unfold par_finish in E'. destruct (within_par st).
  - destruct (par_stack st) as [|top stack]; [discriminate|].
    injection E' as <-. cbn [forallb] in Hst. apply andb_prop in Hst.
    destruct Hst as (Htop & _). destruct top; try discriminate. reflexivity.
  - injection E' as <-. reflexivity.
Qed.

Definition stream_two_lines : list item :=
  [Text ("a" ++ NL ++ "b"); BeginTag (RichTextModTag "bold"); Text "c"].

Lemma find_paragraphs_keeps_items_witness :
  first_text stream_two_lines <> Some EmptyString
  /\ exists out,
      find_paragraphs stream_two_lines = Ok out
      /\ List.filter not_par_item out
         = [Text ("a" ++ NL); Text "b"; BeginTag (RichTextModTag "bold");
            Text "c"].
Proof.
  split; [discriminate|].
  apply (find_paragraphs_keeps_items stream_two_lines). discriminate.
Defined.

(** ** More on the reader *)

Section DataText.

Lemma not_blank (c : ascii) :
  is_blank c = false -> Ascii.eqb c nl = false /\ Ascii.eqb c " " = false.
Proof.
  unfold is_blank. intros H. apply orb_false_elim in H. exact H.
Qed.

Lemma collapse_from_lacks_nl (s : string) :
  forall in_run, lacks nl (collapse_from in_run s) = true.
Proof.
  induction s as [|c s IH]; intros in_run; [reflexivity|].
  cbn [collapse_from]. destruct (is_blank c) eqn:Hc.
  - destruct in_run; [apply IH|]. cbn [lacks]. rewrite IH. reflexivity.
  - destruct (not_blank c Hc) as (Hnl & _). cbn [lacks].
    rewrite Hnl, IH. reflexivity.
Qed.

Definition starts_with_space (s : string) : bool :=
  match s with
  | String c _ => Ascii.eqb c " "
  | EmptyString => false
  end.

Lemma no_double_space_cons (c : ascii) (s : string) :
  no_double_space (String c s)
  = negb (Ascii.eqb c " " && starts_with_space s) && no_double_space s.
Proof.
  destruct s as [|b s]; [|reflexivity].
  cbn [no_double_space starts_with_space]. rewrite andb_false_r. reflexivity.
Qed.

Lemma collapse_from_single_spaces (s : string) :
  forall in_run,
    no_double_space (collapse_from in_run s) = true
    /\ (in_run = true -> starts_with_space (collapse_from in_run s) = false).
Proof.
  induction s as [|c s IH]; intros in_run; [split; reflexivity|].
  cbn [collapse_from]. destruct (is_blank c) eqn:Hc.
  - destruct in_run; [apply IH|]. split; [|discriminate].
    rewrite no_double_space_cons.
    destruct (IH true) as (-> & ->); reflexivity.
  - destruct (not_blank c Hc) as (_ & Hsp). split.
    + rewrite no_double_space_cons, Hsp. apply (IH false).
    + intros _. exact Hsp.
Qed.

Lemma collapse_from_fixed (s : string) :
  lacks nl s = true -> no_double_space s = true ->
  collapse_from false s = s
  /\ (starts_with_space s = false -> collapse_from true s = s).
Proof.
  induction s as [|c s IH]; intros Hnl Hsp; [split; reflexivity|].
  cbn [lacks] in Hnl. apply andb_prop in Hnl. destruct Hnl as (Hc & Hnl).
  rewrite no_double_space_cons in Hsp. apply andb_prop in Hsp.
  destruct Hsp as (Hcs & Hsp).
  destruct (IH Hnl Hsp) as (IHf & IHt).
  cbn [collapse_from starts_with_space]. unfold is_blank.
  apply negb_true_iff in Hc. rewrite Hc. cbn [orb].
  destruct (Ascii.eqb c " ") eqn:E.
  - apply Ascii.eqb_eq in E. subst c. cbn [andb negb] in Hcs.
    apply negb_true_iff in Hcs. rewrite (IHt Hcs).
    split; [reflexivity|discriminate].
  - rewrite IHf. split; reflexivity.
Qed.

End DataText.

(** X10.  The text [handle_data] puts in the tree for one piece of character
    data has no newline and no two spaces in a row, whatever the newline
    flag; it is a fixed point of the whitespace collapsing. *)
Theorem handle_data_text_has_single_spaces (newline : bool) (data : string) :
  lacks nl (data_text newline data) = true
  /\ no_double_space (data_text newline data) = true
  /\ data_text false (data_text newline data) = data_text newline data.
Proof.
  assert (H : forall s, lacks nl (collapse_blanks s) = true
                        /\ no_double_space (collapse_blanks s) = true).
  { intros s. split; [apply collapse_from_lacks_nl|].
    apply (collapse_from_single_spaces s false). }
  assert (Hdata : exists s, data_text newline data = collapse_blanks s).
  { unfold data_text. destruct newline; eexists; reflexivity. }
  destruct Hdata as (s & ->). destruct (H s) as (Hnl & Hsp).
  split; [exact Hnl|]. split; [exact Hsp|].
  unfold data_text at 1. unfold collapse_blanks at 1.
  apply collapse_from_fixed; assumption.
Qed.

Section ParseImage.

Lemma parse_image_attrs_fails (attrs : list (string * option string)) :
  forall filename width height,
    (existsb dim_without_value attrs = true
     /\ parse_image_attrs attrs filename width height = Raise TypeError)
    \/ (existsb dim_without_value attrs = false
        /\ exists img, parse_image_attrs attrs filename width height = Ok img).
Proof.
  induction attrs as [|[key value] attrs IH]; intros filename width height.
  - right. split; [reflexivity|]. eexists; reflexivity.
  - cbn [parse_image_attrs existsb dim_without_value].
    destruct (String.eqb key "src") eqn:Hsrc.
    + apply String.eqb_eq in Hsrc. subst key. cbn [String.eqb Ascii.eqb].
      apply IH.
    + destruct (String.eqb key "width") eqn:Hw; cbn [orb andb].
      * destruct value as [v|]; cbn [parse_dim bind].
        -- destruct (py_int v); cbn [bind]; apply IH.
        -- left. split; reflexivity.
      * destruct (String.eqb key "height") eqn:Hh; cbn [orb andb].
        -- destruct value as [v|]; cbn [parse_dim bind].
           ++ destruct (py_int v); cbn [bind]; apply IH.
           ++ left. split; reflexivity.
        -- apply IH.
Qed.

End ParseImage.

(** X11.  [parse_image] fails exactly when a [width] or [height] attribute
    comes without a value, and then with the TypeError of [int(None)]; with
    any other attributes, whatever their values, it returns an image. *)
Theorem parse_image_fails_iff (attrs : list (string * option string)) :
  (existsb dim_without_value attrs = true
   <-> parse_image attrs = Raise TypeError)
  /\ (existsb dim_without_value attrs = false
      <-> exists img, parse_image attrs = Ok img).
Proof.
  unfold parse_image.
  destruct (parse_image_attrs_fails attrs None None None)
    as [(H & E)|(H & img & E)]; rewrite E, H.
  - split; split; intros H'; try reflexivity; try discriminate.
    destruct H' as (img & H'). discriminate.
  - split; split; intros H'; try reflexivity; try discriminate.
    exists img. reflexivity.
Qed.

Section TagStack.

(** What a callback leaves as it is: the tag stack and the two mode flags. *)
Definition same_frame (hb hb' : HtmlBuffer) : Prop :=
  _tag_stack hb' = _tag_stack hb
  /\ _partial hb' = _partial hb
  /\ _within_body hb' = _within_body hb.

Lemma same_frame_refl (hb : HtmlBuffer) : same_frame hb hb.
Proof. repeat split. Qed.

Lemma same_frame_trans (a b c : HtmlBuffer) :
  same_frame a b -> same_frame b c -> same_frame a c.
Proof.
  unfold same_frame. intros (H1 & H2 & H3) (H4 & H5 & H6).
  repeat split; congruence.
Qed.

Lemma append_text_frame (text : string) (hb : HtmlBuffer) :
  same_frame hb (append_text text hb)
  /\ _dom_ptr (append_text text hb) = _dom_ptr hb.
Proof.
  unfold append_text. destruct (0 <? String.length text)%nat;
    [|split; [apply same_frame_refl|reflexivity]].
  destruct (last_child (_dom hb) (_dom_ptr hb)) as [[[] ?]|];
    repeat split.
Qed.

Lemma append_node_frame (node : Dom) (hb : HtmlBuffer) :
  same_frame hb (append_node node hb)
  /\ _dom_ptr (append_node node hb) = _dom_ptr hb.
Proof. repeat split. Qed.

Lemma set_newline_frame (b : bool) (hb : HtmlBuffer) :
  same_frame hb (set_newline b hb)
  /\ _dom_ptr (set_newline b hb) = _dom_ptr hb.
Proof. repeat split. Qed.

Lemma open_tagname_frame (tagstr : string) (hb : HtmlBuffer) :
  same_frame hb (open_tagname tagstr hb).
Proof. repeat split. Qed.

Lemma parse_statements_frame (statements : list string) :
  forall hb hb' raised,
    parse_statements statements hb = (hb', raised) -> same_frame hb hb'.
Proof.
  induction statements as [|statement rest IH]; intros hb hb' raised E;
    cbn [parse_statements] in E.
  - injection E as <- _. apply same_frame_refl.
  - destruct (style_tagstr (strip statement)) as [[tagstr|]|e].
    + eapply same_frame_trans; [apply (open_tagname_frame tagstr)|].
      eapply IH; eassumption.
    + eapply IH; eassumption.
    + injection E as <- _. apply same_frame_refl.
Qed.

Lemma style_attrs_frame (attrs : list (string * option string)) :
  forall hb hb' raised,
    style_attrs attrs hb = (hb', raised) -> same_frame hb hb'.
Proof.
  induction attrs as [|[key value] rest IH]; intros hb hb' raised E;
    cbn [style_attrs] in E.
  - injection E as <- _. apply same_frame_refl.
  - destruct (String.eqb key "style"); [|eapply IH; eassumption].
    destruct (parse_style value hb) as [hb1 [e|]] eqn:E1.
    + injection E as <- _. unfold parse_style in E1.
      destruct value as [s|].
      * eapply parse_statements_frame; eassumption.
      * injection E1 as <- _. apply same_frame_refl.
    + unfold parse_style in E1. destruct value as [s|]; [|discriminate].
      eapply same_frame_trans; [eapply parse_statements_frame; eassumption|].
      eapply IH; eassumption.
Qed.

(** A start tag pushes its name with the insertion point it found, and
    leaves the stack below as it is. *)
Lemma handle_starttag_pushes (htmltag : string)
      (attrs : list (string * option string)) (hb hb' : HtmlBuffer)
      (raised : option exn) :
  handle_starttag htmltag attrs hb = (hb', raised) ->
  _tag_stack hb' = (Some htmltag, _dom_ptr hb) :: _tag_stack hb
  /\ _partial hb' = _partial hb
  /\ (is_document_tag htmltag = false -> _within_body hb' = _within_body hb).
Proof.
  unfold handle_starttag, is_document_tag.
  set (hb0 := mk_buffer false ((Some htmltag, _dom_ptr hb) :: _tag_stack hb)
                        (_within_body hb) (_partial hb) (_dom hb)
                        (_dom_ptr hb)).
  assert (Hframe : forall hb1, same_frame hb0 hb1 ->
             _tag_stack hb1 = (Some htmltag, _dom_ptr hb) :: _tag_stack hb
             /\ _partial hb1 = _partial hb
             /\ (String.eqb htmltag "html" || String.eqb htmltag "body" = false
                 -> _within_body hb1 = _within_body hb)).
  { intros hb1 (H1 & H2 & H3). rewrite H1, H2, H3. repeat split. }
  intros E.
  destruct (String.eqb htmltag "html").
  { injection E as <- _. apply Hframe, same_frame_refl. }
  destruct (String.eqb htmltag "body").
  { injection E as <- _. cbn. repeat split. discriminate. }
  destruct (lookup_str htmltag _html2buffer_tag) as [tagstr|].
  { injection E as <- _. apply Hframe, open_tagname_frame. }
  destruct (String.eqb htmltag "span").
  { apply Hframe. eapply style_attrs_frame; eassumption. }
  destruct (String.eqb htmltag "div").
  { apply Hframe. eapply style_attrs_frame; eassumption. }
  destruct (String.eqb htmltag "p").
  { injection E as <- _. apply Hframe, append_text_frame. }
  destruct (String.eqb htmltag "br").
  { injection E as <- _. apply Hframe.
    eapply same_frame_trans; [apply (append_text_frame NL)|].
    apply set_newline_frame. }
  destruct (String.eqb htmltag "hr").
  { injection E as <- _. apply Hframe.
    eapply same_frame_trans; [apply (append_text_frame NL)|].
    eapply same_frame_trans; [apply append_node_frame|].
    apply append_text_frame. }
  destruct (String.eqb htmltag "img").
  { destruct (parse_image attrs); injection E as <- _; apply Hframe.
    - apply append_node_frame.
    - apply same_frame_refl. }
  destruct (String.eqb htmltag "ul" || String.eqb htmltag "ol").
  { injection E as <- _. apply Hframe, open_tagname_frame. }
  destruct (String.eqb htmltag "li").
  { destruct (li_attrs attrs "none"); injection E as <- _; apply Hframe.
    - apply open_tagname_frame.
    - apply same_frame_refl. }
  injection E as <- _. apply Hframe, same_frame_refl.
Qed.

(** The state when the end tag gets at the stack. *)
Definition before_pop (htmltag : string) (hb : HtmlBuffer) : HtmlBuffer :=
  let hb := if negb (String.eqb htmltag "br") then set_newline false hb
            else hb in
  if String.eqb htmltag "ul" || String.eqb htmltag "ol"
     || String.eqb htmltag "li"
  then set_newline true hb
  else if String.eqb htmltag "p" then append_text NL hb
  else hb.

Lemma before_pop_frame (htmltag : string) (hb : HtmlBuffer) :
  same_frame hb (before_pop htmltag hb)
  /\ _dom_ptr (before_pop htmltag hb) = _dom_ptr hb.
Proof.
  unfold before_pop.
  destruct (negb (String.eqb htmltag "br"));
    destruct (String.eqb htmltag "ul" || String.eqb htmltag "ol"
              || String.eqb htmltag "li");
    try (repeat split; fail);
    destruct (String.eqb htmltag "p"); try (repeat split; fail).
  - destruct (append_text_frame NL (set_newline false hb)) as (H1 & H2).
    split; [|exact H2].
    eapply same_frame_trans; [apply (set_newline_frame false)|exact H1].
  - apply append_text_frame.
Qed.

Lemma handle_endtag_acts (htmltag : string) (hb : HtmlBuffer) :
  _partial hb || (_within_body hb && negb (is_document_tag htmltag)) = true ->
  handle_endtag htmltag hb
  = match _tag_stack hb with
    | [] => before_pop htmltag hb
    | (htmltag2, ptr) :: stack =>
        let '(ptr', stack') := pop_until htmltag htmltag2 ptr stack in
        mk_buffer (_newline (before_pop htmltag hb)) stack'
                  (_within_body hb) (_partial hb)
                  (_dom (before_pop htmltag hb)) ptr'
    end.
Proof.
  intros Hacts. unfold handle_endtag. fold (before_pop htmltag hb).
  destruct (before_pop_frame htmltag hb) as ((Hs & Hp & Hw) & _).
  replace (negb (_partial hb)
           && (String.eqb htmltag "html" || String.eqb htmltag "body"
               || negb (_within_body hb))) with false.
  - rewrite Hs, Hp, Hw. reflexivity.
  - unfold is_document_tag in Hacts.
    destruct (_partial hb); [reflexivity|].
    destruct (_within_body hb); [|discriminate].
    cbn [orb andb negb] in *. apply negb_true_iff in Hacts.
    rewrite orb_false_r. symmetry. exact Hacts.
Qed.

Lemma pop_until_match (htmltag : string) (ptr : path)
      (stack : list (option string * path)) :
  pop_until htmltag (Some htmltag) ptr stack = (ptr, stack).
Proof.
  destruct stack as [|[tag' ptr'] stack']; [reflexivity|].
  cbn [pop_until]. rewrite String.eqb_refl. reflexivity.
Qed.

Lemma last_cons_default {A : Type} (l : list A) :
  forall x d, List.last (x :: l) d = List.last l x.
Proof.
  induction l as [|y l IH]; intros x d; [reflexivity|].
  change (List.last (x :: y :: l) d) with (List.last (y :: l) d).
  rewrite (IH y d), (IH y x). reflexivity.
Qed.

Lemma pop_until_unmatched (htmltag : string)
      (stack : list (option string * path)) :
  forall htmltag2 ptr,
    forallb (fun entry => negb (entry_is htmltag entry)) stack = true ->
    entry_is htmltag (htmltag2, ptr) = false ->
    pop_until htmltag htmltag2 ptr stack
    = (List.last (map snd stack) ptr, []).
Proof.
  induction stack as [|[tag' ptr'] stack IH]; intros htmltag2 ptr Hall Htop;
    [reflexivity|].
  cbn [forallb] in Hall. apply andb_prop in Hall. destruct Hall as (H1 & H2).
  apply negb_true_iff in H1.
  cbn [pop_until]. unfold entry_is in Htop. cbn [fst] in Htop.
  assert (E : pop_until htmltag tag' ptr' stack
              = (List.last (map snd ((tag', ptr') :: stack)) ptr, [])).
  { rewrite (IH tag' ptr' H2 H1). cbn [map snd].
    rewrite last_cons_default. reflexivity. }
  destruct htmltag2 as [t|]; [rewrite Htop|]; exact E.
Qed.

(** The entries the open tags have on the stack, above the entries [below]
    that were there before the first of them, and the insertion point
    [origin] of that time. *)
Definition opened (entries : list (string * path))
           (below : list (option string * path)) (origin : path)
           (hb : HtmlBuffer) : Prop :=
  _tag_stack hb = map (fun e => (Some (fst e), snd e)) entries ++ below
  /\ List.last (map snd entries) (_dom_ptr hb) = origin.

Lemma acts_on_end_tags_cons (hb : HtmlBuffer) (ev : parse_event)
      (rest : list parse_event) :
  acts_on_end_tags hb (ev :: rest) = true ->
  _partial hb || (_within_body hb && inner_event ev) = true
  /\ forall hb', _partial hb' = _partial hb ->
                 (inner_event ev = true -> _within_body hb' = _within_body hb) ->
                 acts_on_end_tags hb' rest = true.
Proof.
  unfold acts_on_end_tags. cbn [forallb]. intros H.
  destruct (_partial hb) eqn:Hp.
  - split; [reflexivity|]. intros hb' -> _. reflexivity.
  - cbn [orb] in *. apply andb_prop in H. destruct H as (Hw & H).
    apply andb_prop in H. destruct H as (Hev & Hrest).
    rewrite Hw, Hev. split; [reflexivity|].
    intros hb' -> Hw'. rewrite (Hw' eq_refl), Hrest. reflexivity.
Qed.

Lemma feed_events_restores (events : list parse_event) :
  forall entries below origin hb hb',
    opened entries below origin hb ->
    acts_on_end_tags hb events = true ->
    well_nested (map fst entries) events = true ->
    feed_events events hb = (hb', None) ->
    _tag_stack hb' = below /\ _dom_ptr hb' = origin.
Proof.
  induction events as [|ev rest IH];
    intros entries below origin hb hb' (Hstack & Horigin) Hacts Hnested E.
  - cbn [feed_events] in E. injection E as <-.
    destruct entries as [|e entries]; [|discriminate]. split; assumption.
  - destruct (acts_on_end_tags_cons hb ev rest Hacts) as (Hev & Hrest).
    cbn [feed_events] in E.
    destruct (handle_event ev hb) as [hb1 [e|]] eqn:E1; [discriminate|].
    destruct ev as [htmltag attrs|htmltag|data|name|name|msg];
      cbn [handle_event] in E1; cbn [well_nested] in Hnested.
    + (* start tag *)
      destruct (handle_starttag_pushes _ _ _ _ _ E1) as (Hs & Hp & Hw).
      apply (IH ((htmltag, _dom_ptr hb) :: entries) below origin hb1 hb');
        auto.
      * split.
        -- rewrite Hs, Hstack. reflexivity.
        -- cbn [map snd fst]. rewrite <- Horigin.
           apply last_cons_default.
      * apply Hrest; [exact Hp|]. intros Hin. apply Hw.
        cbn [inner_event] in Hin. apply negb_true_iff in Hin. exact Hin.
    + (* end tag *)
      destruct entries as [|[top ptr] entries]; [discriminate|].
      cbn [map fst] in Hnested. apply andb_prop in Hnested.
      destruct Hnested as (Htop & Hnested).
      apply String.eqb_eq in Htop. subst top.
      injection E1 as <-. cbn [inner_event] in Hev.
      rewrite (handle_endtag_acts htmltag hb Hev) in *.
      rewrite Hstack in *. cbn [map app fst snd] in *.
      rewrite pop_until_match in *.
      refine (IH entries below origin _ hb' _ _ Hnested E).
      * split; [reflexivity|]. cbn [_dom_ptr]. rewrite <- Horigin.
        symmetry. apply last_cons_default.
      * apply Hrest; reflexivity.
    + (* character data *)
      injection E1 as <-.
      assert (H : same_frame hb (handle_data data hb)
                  /\ _dom_ptr (handle_data data hb) = _dom_ptr hb).
      { unfold handle_data.
        destruct (negb (_partial hb) && negb (_within_body hb));
          [split; [apply same_frame_refl|reflexivity]|].
        destruct (0 <? String.length (data_text (_newline hb) data))%nat;
          destruct (_newline hb); try (repeat split; fail).
        - destruct (append_text_frame (data_text true data)
                      (set_newline false hb)) as (H1 & H2).
          split; [|exact H2].
          eapply same_frame_trans; [apply (set_newline_frame false)|exact H1].
        - apply append_text_frame. }
      destruct H as ((Hs & Hp & Hw) & Hptr).
      refine (IH entries below origin _ hb' _ _ Hnested E).
      * split; [rewrite Hs; exact Hstack|rewrite Hptr; exact Horigin].
      * apply Hrest; auto.
    + injection E1 as <-.
      assert (H : same_frame hb (handle_entityref name hb)
                  /\ _dom_ptr (handle_entityref name hb) = _dom_ptr hb).
      { unfold handle_entityref.
        destruct (negb (_partial hb) && negb (_within_body hb));
          [split; [apply same_frame_refl|reflexivity]|].
        apply append_text_frame. }
      destruct H as ((Hs & Hp & Hw) & Hptr).
      refine (IH entries below origin _ hb' _ _ Hnested E).
      * split; [rewrite Hs; exact Hstack|rewrite Hptr; exact Horigin].
      * apply Hrest; auto.
    + injection E1 as <-.
      assert (H : same_frame hb (handle_charref name hb)
                  /\ _dom_ptr (handle_charref name hb) = _dom_ptr hb).
      { unfold handle_charref.
        destruct (negb (_partial hb) && negb (_within_body hb));
          [split; [apply same_frame_refl|reflexivity]|].
        apply append_text_frame. }
      destruct H as ((Hs & Hp & Hw) & Hptr).
      refine (IH entries below origin _ hb' _ _ Hnested E).
      * split; [rewrite Hs; exact Hstack|rewrite Hptr; exact Horigin].
      * apply Hrest; auto.
    + discriminate.
Qed.

End TagStack.

(** X12.  Properly nested tags leave the reader where they found it: when
    the reader acts on end tags (it reads a fragment, or it is within the
    body and no [html] or [body] tag is among the events) and the callbacks
    for events whose start and end tags match and nest go through, the tag
    stack and the insertion point are afterwards what they were before. *)
Theorem nested_tags_restore_insertion_point
        (events : list parse_event) (hb hb' : HtmlBuffer) :
  acts_on_end_tags hb events = true ->
  well_nested [] events = true ->
  feed_events events hb = (hb', None) ->
  _tag_stack hb' = _tag_stack hb /\ _dom_ptr hb' = _dom_ptr hb.
Proof.
  intros Hacts Hnested E.
  apply (feed_events_restores events [] (_tag_stack hb) (_dom_ptr hb) hb hb');
    auto.
  split; reflexivity.
Qed.

Definition nested_events : list parse_event :=
  [StartTag "b" []; Data "bold"; StartTag "ol" [];
   StartTag "li" [("style", Some "list-style-type: disc")]; Data "item";
   EndTagEv "li"; EndTagEv "ol"; StartTag "br" []; EndTagEv "br";
   EndTagEv "b"; Data "after"].

Lemma nested_tags_restore_insertion_point_witness :
  exists hb',
    feed_events nested_events (read_begin HtmlBuffer_init true) = (hb', None)
    /\ _tag_stack hb' = [(None, [])] /\ _dom_ptr hb' = [].
Proof.
  eexists. split; [reflexivity|].
  apply (nested_tags_restore_insertion_point nested_events
           (read_begin HtmlBuffer_init true)); reflexivity.
Defined.

(** X13.  An end tag whose name is not on the tag stack closes everything:
    when the reader acts on it, the stack (with the entry [read] starts it
    with) is empty afterwards and the insertion point is the one of the
    lowest entry, the root of the tree in [read]. *)
Theorem unmatched_endtag_empties_stack (htmltag : string) (hb : HtmlBuffer) :
  acts_on_end_tags hb [EndTagEv htmltag] = true ->
  forallb (fun entry => negb (entry_is htmltag entry)) (_tag_stack hb) = true ->
  _tag_stack (handle_endtag htmltag hb) = []
  /\ _dom_ptr (handle_endtag htmltag hb)
     = List.last (map snd (_tag_stack hb)) (_dom_ptr hb).
Proof.
  intros Hacts Hall.
  destruct (acts_on_end_tags_cons hb _ _ Hacts) as (Hev & _).
  cbn [inner_event] in Hev. rewrite (handle_endtag_acts htmltag hb Hev).
  destruct (before_pop_frame htmltag hb) as ((Hs & _) & Hptr).
  destruct (_tag_stack hb) as [|[htmltag2 ptr] stack].
  - split; [exact Hs|exact Hptr].
  - cbn [forallb] in Hall. apply andb_prop in Hall.
    destruct Hall as (Htop & Hrest). apply negb_true_iff in Htop.
    rewrite (pop_until_unmatched htmltag stack htmltag2 ptr Hrest Htop).
    cbn [_tag_stack _dom_ptr map snd]. split; [reflexivity|].
    symmetry. apply last_cons_default.
Qed.

Definition buffer_in_bold : HtmlBuffer :=
  fst (feed_events [StartTag "b" []; StartTag "i" []]
                   (read_begin HtmlBuffer_init true)).

Lemma unmatched_endtag_empties_stack_witness :
  _dom_ptr buffer_in_bold = [0; 0]%nat
  /\ _tag_stack (handle_endtag "u" buffer_in_bold) = []
  /\ _dom_ptr (handle_endtag "u" buffer_in_bold) = [].
Proof.
  split; [reflexivity|].
  apply (unmatched_endtag_empties_stack "u" buffer_in_bold); reflexivity.
Defined.

Section ProcessDomRead.

(** The loop [for child in list(node): walk(child)] of [walk]. *)
Fixpoint walk_list (first : bool) (cs : list Dom) : list Dom :=
  match cs with
  | [] => []
  | c :: cs' => walk_read (negb first) c ++ walk_list false cs'
  end.

Definition newline_before (has_prev : bool) (k : dom_kind) : list Dom :=
  if is_tagname "ol" k && has_prev then [text_node NL] else [].

Definition newline_implied (k : dom_kind) (children : list Dom) : list Dom :=
  if is_li_tagname k && negb (last_child_is_ol children)
  then [text_node NL] else [].

Lemma walk_read_node (has_prev : bool) (k : dom_kind) (cs : list Dom) :
  walk_read has_prev (Node k cs)
  = newline_before has_prev k
    ++ [Node k (walk_list true cs ++ newline_implied k cs)].
Proof.
  reflexivity.
Qed.

Lemma last_some_snoc {A : Type} (l : list A) (x : A) :
  List.last (map Some (l ++ [x])) None = Some x.
Proof.
  rewrite map_app. cbn [map]. apply last_last.
Qed.

Lemma last_some_app {A : Type} (l1 l2 : list A) :
  l2 <> [] ->
  List.last (map Some (l1 ++ l2)) None = List.last (map Some l2) None.
Proof.
  intros Hne. destruct (exists_last Hne) as (l2' & x & ->).
  rewrite app_assoc, !last_some_snoc. reflexivity.
Qed.

Lemma walk_read_last (has_prev : bool) (d : Dom) :
  exists cs', List.last (map Some (walk_read has_prev d)) None
              = Some (Node (kind_of d) cs').
Proof.
  destruct d as [k cs]. rewrite walk_read_node, last_some_snoc.
  eexists; reflexivity.
Qed.

Lemma walk_list_last (cs : list Dom) :
  forall first c,
    List.last (map Some cs) None = Some c ->
    exists cs', List.last (map Some (walk_list first cs)) None
                = Some (Node (kind_of c) cs').
Proof.
  induction cs as [|c0 cs IH]; intros first c Hlast; [discriminate|].
  cbn [walk_list]. destruct cs as [|c1 cs].
  - cbn in Hlast. injection Hlast as <-. cbn [walk_list].
    rewrite app_nil_r. apply walk_read_last.
  - change (map Some (c0 :: c1 :: cs)) with (Some c0 :: map Some (c1 :: cs))
      in Hlast.
    change (List.last (Some c0 :: map Some (c1 :: cs)) None)
      with (List.last (map Some (c1 :: cs)) None) in Hlast.
    destruct (IH false c Hlast) as (cs' & E).
    rewrite last_some_app; [exists cs'; exact E|].
    intros Hnil. rewrite Hnil in E. discriminate.
Qed.

Lemma text_node_ends_lines : items_end_lines (text_node NL) = true.
Proof. reflexivity. Qed.

Lemma newline_before_ok (has_prev : bool) (k : dom_kind) :
  forallb items_end_lines (newline_before has_prev k) = true
  /\ List.filter not_newline_text
       (flat_map visit_contents (newline_before has_prev k)) = [].
Proof.
  unfold newline_before.
  destruct (is_tagname "ol" k && has_prev); split; reflexivity.
Qed.

Lemma newline_implied_ok (k : dom_kind) (cs : list Dom) :
  forallb items_end_lines (newline_implied k cs) = true
  /\ List.filter not_newline_text
       (flat_map visit_contents (newline_implied k cs)) = [].
Proof.
  unfold newline_implied.
  destruct (is_li_tagname k && negb (last_child_is_ol cs)); split;
    reflexivity.
Qed.

Lemma item_gets_line_end (k : dom_kind) (cs : list Dom) :
  is_li_tagname k = true ->
  ends_line (walk_list true cs ++ newline_implied k cs) = true.
Proof.
  intros Hli. unfold newline_implied, ends_line. rewrite Hli. cbn [andb].
  destruct (last_child_is_ol cs) eqn:Hol; cbn [negb].
  - rewrite app_nil_r. unfold last_child_is_ol in Hol.
    destruct (List.last (map Some cs) None) as [c|] eqn:Hlast;
      [|discriminate].
    destruct (walk_list_last cs true c Hlast) as (cs' & ->).
    destruct (kind_of c); try discriminate. exact Hol.
  - rewrite last_some_snoc. reflexivity.
Qed.

Lemma walk_read_ends_lines (d : Dom) :
  forall has_prev, forallb items_end_lines (walk_read has_prev d) = true.
Proof.
  induction d as [k cs IH] using Dom_children_ind. intros has_prev.
  rewrite walk_read_node, forallb_app.
  rewrite (proj1 (newline_before_ok has_prev k)).
  cbn [andb forallb items_end_lines]. rewrite andb_true_r.
  assert (Hwalked : forall first,
             forallb items_end_lines (walk_list first cs) = true).
  { clear -IH. induction IH as [|c cs Hc _ IHcs]; intros first;
      [reflexivity|].
    cbn [walk_list]. rewrite forallb_app, Hc, IHcs. reflexivity. }
  rewrite forallb_app, Hwalked, (proj1 (newline_implied_ok k cs)).
  rewrite andb_true_r.
  destruct (is_li_tagname k) eqn:Hli; [|reflexivity].
  apply item_gets_line_end. exact Hli.
Qed.

Lemma walk_read_keeps_items (d : Dom) :
  forall has_prev,
    List.filter not_newline_text (flat_map visit_contents (walk_read has_prev d))
    = List.filter not_newline_text (visit_contents d).
Proof.
  induction d as [k cs IH] using Dom_children_ind. intros has_prev.
  rewrite walk_read_node, flat_map_app, filter_app.
  rewrite (proj2 (newline_before_ok has_prev k)).
  cbn [app flat_map]. rewrite app_nil_r.
  assert (Hwalked : forall first,
             List.filter not_newline_text
               (flat_map visit_contents (walk_list first cs))
             = List.filter not_newline_text (flat_map visit_contents cs)).
  { clear -IH. induction IH as [|c cs Hc _ IHcs]; intros first;
      [reflexivity|].
    cbn [walk_list flat_map].
    rewrite flat_map_app, !filter_app, Hc, IHcs. reflexivity. }
  assert (Hinner :
            List.filter not_newline_text
              (flat_map visit_contents
                 (walk_list true cs ++ newline_implied k cs))
            = List.filter not_newline_text (flat_map visit_contents cs)).
  { rewrite flat_map_app, filter_app, Hwalked.
    rewrite (proj2 (newline_implied_ok k cs)). apply app_nil_r. }
  destruct k as [|text|a|tag|kind|tagname]; cbn [visit_contents].
  - exact Hinner.
  - reflexivity.
  - reflexivity.
  - cbn [List.filter]. rewrite !filter_app, Hinner. reflexivity.
  - cbn [List.filter]. rewrite !filter_app, Hinner. reflexivity.
  - cbn [List.filter]. rewrite !filter_app, Hinner. reflexivity.
Qed.

End ProcessDomRead.

(** X14.  [process_dom_read] only adds newline texts, and gives every list
    item its line end: in the tree it returns each [li] element ends with a
    newline text or an [ol] element, and the items of its flattening other
    than newline texts are those of the tree it was given, in the same
    order. *)
Theorem process_dom_read_adds_newlines_only (dom : Dom) :
  items_end_lines (process_dom_read dom) = true
  /\ List.filter not_newline_text (get_contents (process_dom_read dom))
     = List.filter not_newline_text (get_contents dom).
Proof.
  pose proof (walk_read_ends_lines dom false) as Hends.
  pose proof (walk_read_keeps_items dom false) as Hkeeps.
  unfold process_dom_read, get_contents.
  destruct dom as [k cs]. rewrite walk_read_node in *.
  unfold newline_before in *. rewrite andb_false_r in *.
  cbn [app forallb flat_map] in *.
  rewrite andb_true_r in Hends. rewrite app_nil_r in Hkeeps.
  split; assumption.
Qed.

(** ** More on the writer *)

Section WriteText.

Lemma prefix_empty (s : string) : prefix "" s = true.
Proof. destruct s; reflexivity. Qed.

Lemma slice_from_lacks (c : ascii) (n : nat) :
  forall s, lacks c s = true -> lacks c (slice_from n s) = true.
Proof.
  induction n as [|n IH]; intros s H; destruct s as [|d s]; cbn [slice_from];
    try assumption.
  cbn [lacks] in H. apply andb_prop in H. apply IH, H.
Qed.

Lemma replace_aux_keeps_lacks (c : ascii) (old new : string) (fuel : nat) :
  lacks c new = true ->
  forall s, lacks c s = true -> lacks c (replace_aux fuel old new s) = true.
Proof.
  intros Hnew. induction fuel as [|fuel IH]; intros s Hs; [exact Hs|].
  cbn [replace_aux]. destruct s as [|d s]; [reflexivity|].
  destruct (prefix old (String d s)).
  - rewrite lacks_app, Hnew. apply IH, slice_from_lacks, Hs.
  - cbn [lacks] in *. apply andb_prop in Hs. destruct Hs as (-> & Hs).
    apply IH, Hs.
Qed.

Lemma replace_keeps_lacks (c : ascii) (old new s : string) :
  lacks c new = true -> lacks c s = true ->
  lacks c (replace old new s) = true.
Proof. intros. apply replace_aux_keeps_lacks; assumption. Qed.

Lemma replace_aux_char_removes (c : ascii) (new : string) :
  lacks c new = true ->
  forall s fuel, (String.length s < fuel)%nat ->
    lacks c (replace_aux fuel (String c "") new s) = true.
Proof.
  intros Hnew. induction s as [|d s IH]; intros fuel Hfuel;
    (destruct fuel as [|fuel]; [inversion Hfuel|]); [reflexivity|].
  cbn [String.length] in Hfuel. apply PeanoNat.lt_S_n in Hfuel.
  cbn [replace_aux prefix]. destruct (Ascii.ascii_dec c d) as [<-|Hne].
  - rewrite prefix_empty. cbn [String.length slice_from].
    rewrite lacks_app, Hnew. apply IH, Hfuel.
  - cbn [lacks]. rewrite (IH fuel Hfuel).
    replace (Ascii.eqb d c) with false; [reflexivity|].
    symmetry. apply Ascii.eqb_neq. congruence.
Qed.

Lemma replace_char_removes (c : ascii) (new s : string) :
  lacks c new = true -> lacks c (replace (String c "") new s) = true.
Proof.
  intros Hnew. apply replace_aux_char_removes; [exact Hnew|].
  apply Nat.lt_succ_diag_r.
Qed.

Lemma not_break (c : ascii) (s : string) :
  Ascii.eqb c "<" = false -> prefix "<br/>" (String c s) = false.
Proof.
  intros H. cbn [prefix]. destruct (Ascii.ascii_dec "<" c) as [<-|_];
    [discriminate|reflexivity].
Qed.

Lemma only_breaks_unmarked (s : string) :
  lacks "<" s = true -> lacks ">" s = true -> lacks tab s = true ->
  only_breaks 0 s = true.
Proof.
  induction s as [|c s IH]; intros H1 H2 H3; [reflexivity|].
  cbn [lacks] in *.
  apply andb_prop in H1. destruct H1 as (Hc1 & H1).
  apply andb_prop in H2. destruct H2 as (Hc2 & H2).
  apply andb_prop in H3. destruct H3 as (Hc3 & H3).
  apply negb_true_iff in Hc1, Hc2, Hc3.
  cbn [only_breaks]. rewrite (not_break c s Hc1).
  unfold is_markup_char. rewrite Hc1, Hc2, Hc3. apply IH; assumption.
Qed.

Lemma breaks_for_newlines (fuel : nat) :
  forall s,
    lacks "<" s = true -> lacks ">" s = true -> lacks tab s = true ->
    only_breaks 0 (replace_aux fuel NL ("<br/>" ++ NL) s) = true.
Proof.
  induction fuel as [|fuel IH]; intros s H1 H2 H3;
    [apply only_breaks_unmarked; assumption|].
  cbn [replace_aux]. destruct s as [|c s]; [reflexivity|].
  cbn [lacks] in *.
  apply andb_prop in H1. destruct H1 as (Hc1 & H1).
  apply andb_prop in H2. destruct H2 as (Hc2 & H2).
  apply andb_prop in H3. destruct H3 as (Hc3 & H3).
  apply negb_true_iff in Hc1, Hc2, Hc3.
  unfold NL at 1. cbn [prefix].
  destruct (Ascii.ascii_dec nl c) as [<-|Hne].
  - rewrite prefix_empty. cbn [String.length NL slice_from].
    change (only_breaks 0 (("<br/>" ++ String nl "")
                           ++ replace_aux fuel (String nl "")
                                ("<br/>" ++ String nl "") s))
      with (only_breaks 0 (replace_aux fuel NL ("<br/>" ++ NL) s)).
    apply IH; assumption.
  - cbn [only_breaks]. rewrite (not_break c _ Hc1).
    unfold is_markup_char. rewrite Hc1, Hc2, Hc3. apply IH; assumption.
Qed.

End WriteText.

(** X15.  In the HTML [write_text] writes for a text, whatever the text,
    the only markup is the line break [<br/>] it puts before each newline:
    outside of those line breaks the output has no [<], no [>] and no
    tab. *)
Theorem write_text_escapes_markup (text : string) :
  only_breaks 0 (write_text text) = true.
Proof.
  unfold write_text.
  set (t1 := replace "&" "&amp;" text).
  set (t2 := replace ">" "&gt;" t1).
  set (t3 := replace "<" "&lt;" t2).
  set (t4 := replace (String "009"%char "") "&#09;" t3).
  set (t5 := replace "  " " &nbsp;" t4).
  assert (H2 : lacks ">" t2 = true)
    by (apply replace_char_removes; reflexivity).
  assert (H3 : lacks "<" t3 = true /\ lacks ">" t3 = true).
  { split; [apply replace_char_removes; reflexivity|].
    apply replace_keeps_lacks; [reflexivity|exact H2]. }
  assert (H4 : lacks "<" t4 = true /\ lacks ">" t4 = true
               /\ lacks tab t4 = true).
  { destruct H3 as (Hlt & Hgt).
    split; [apply replace_keeps_lacks; [reflexivity|exact Hlt]|].
    split; [apply replace_keeps_lacks; [reflexivity|exact Hgt]|].
    apply (replace_char_removes tab). reflexivity. }
  destruct H4 as (Hlt & Hgt & Htab).
  apply breaks_for_newlines; apply replace_keeps_lacks;
    solve [reflexivity|assumption].
Qed.

(** ** Styles written and read back *)

Section Decimals.

Fixpoint digit_string (s : string) : bool :=
  match s with
  | EmptyString => true
  | String c s' => isdigit c && digit_string s'
  end.

Lemma uint_digit_string (d : Decimal.uint) :
  digit_string (NilEmpty.string_of_uint d) = true.
Proof.
  induction d; cbn [NilEmpty.string_of_uint digit_string]; try rewrite IHd;
    reflexivity.
Qed.

Ltac digit_value :=
  match goal with
  | |- context [Z.of_nat (nat_of_ascii ?c)] =>
      let v := eval vm_compute in (Z.of_nat (nat_of_ascii c)) in
      change (Z.of_nat (nat_of_ascii c)) with v
  end.

Lemma digits_value_acc (d : Decimal.uint) :
  forall acc : positive,
    digits_value (Z.pos acc) (NilEmpty.string_of_uint d)
    = Z.pos (Pos.of_uint_acc d acc).
Proof.
  induction d; intros acc;
    cbn [NilEmpty.string_of_uint digits_value Pos.of_uint_acc];
    try reflexivity; rewrite <- IHd; f_equal; digit_value; lia.
Qed.

Lemma digits_value_uint (d : Decimal.uint) :
  digits_value 0 (NilEmpty.string_of_uint d) = Z.of_N (Pos.of_uint d).
Proof.
  induction d; cbn [NilEmpty.string_of_uint digits_value Pos.of_uint];
    try reflexivity; digit_value;
    cbn [Z.mul Z.add Z.sub Z.opp Z.pos_sub Pos.pred_double Z.succ_double
         Z.pred_double Z.double];
    try exact IHd; apply digits_value_acc.
Qed.

Lemma dec_pos (p : positive) :
  dec (Z.pos p) = NilEmpty.string_of_uint (Pos.to_uint p).
Proof.
  unfold dec. cbn [Z.to_int NilZero.string_of_int].
  unfold NilZero.string_of_uint.
  destruct (Pos.to_uint p) eqn:E; try reflexivity.
  exfalso. exact (DecimalPos.Unsigned.to_uint_nonnil _ E).
Qed.

Lemma dec_neg (p : positive) :
  dec (Z.neg p) = String "-" (dec (Z.pos p)).
Proof.
  rewrite dec_pos. unfold dec. cbn [Z.to_int NilZero.string_of_int].
  unfold NilZero.string_of_uint.
  destruct (Pos.to_uint p) eqn:E; try reflexivity.
  exfalso. exact (DecimalPos.Unsigned.to_uint_nonnil _ E).
Qed.

Lemma dec_nonneg_digits (z : Z) :
  (0 <= z)%Z -> digit_string (dec z) = true /\ dec z <> EmptyString.
Proof.
  destruct z as [|p|p]; intros Hz; [split; [reflexivity|discriminate]| |lia].
  rewrite dec_pos. split; [apply uint_digit_string|].
  destruct (Pos.to_uint p) eqn:E; try discriminate.
  exfalso. exact (DecimalPos.Unsigned.to_uint_nonnil _ E).
Qed.

Lemma digits_value_dec (z : Z) :
  (0 <= z)%Z -> digits_value 0 (dec z) = z.
Proof.
  destruct z as [|p|p]; intros Hz; [reflexivity| |lia].
  rewrite dec_pos, digits_value_uint, DecimalPos.Unsigned.of_to.
  reflexivity.
Qed.

Lemma filter_digit_string (s : string) :
  digit_string s = true -> filter isdigit s = s.
Proof.
  induction s as [|c s IH]; [reflexivity|]. cbn [digit_string filter].
  intros H. apply andb_prop in H. destruct H as (-> & Hs).
  rewrite (IH Hs). reflexivity.
Qed.

Lemma filter_app_string (f : ascii -> bool) (a b : string) :
  filter f (a ++ b) = (filter f a ++ filter f b)%string.
Proof.
  induction a as [|c a IH]; [reflexivity|]. cbn [append filter].
  destruct (f c); cbn [append]; rewrite IH; reflexivity.
Qed.

Lemma filter_digits_dec (z : Z) : filter isdigit (dec z) = dec (Z.abs z).
Proof.
  destruct z as [|p|p]; cbn [Z.abs].
  - reflexivity.
  - apply filter_digit_string, dec_nonneg_digits. lia.
  - rewrite dec_neg. cbn [filter].
    change (isdigit "-") with false. cbv iota.
    apply filter_digit_string, dec_nonneg_digits. lia.
Qed.

Lemma digit_string_lacks (c : ascii) (s : string) :
  isdigit c = false -> digit_string s = true -> lacks c s = true.
Proof.
  intros Hc. induction s as [|d s IH]; [reflexivity|].
  cbn [digit_string lacks]. intros H. apply andb_prop in H.
  destruct H as (Hd & Hs). rewrite (IH Hs), andb_true_r.
  apply negb_true_iff, Ascii.eqb_neq. intros ->. congruence.
Qed.

Lemma dec_lacks (c : ascii) (z : Z) :
  isdigit c = false -> Ascii.eqb "-" c = false -> lacks c (dec z) = true.
Proof.
  intros Hc Hminus. destruct z as [|p|p].
  - apply digit_string_lacks; [exact Hc|reflexivity].
  - apply digit_string_lacks; [exact Hc|]. apply dec_nonneg_digits. lia.
  - rewrite dec_neg. cbn [lacks]. rewrite Hminus. cbn [negb andb].
    apply digit_string_lacks; [exact Hc|]. apply dec_nonneg_digits. lia.
Qed.

End Decimals.

Section StyleValues.

Lemma rstrip_app_kept (a s : string) :
  rstrip s = s -> s <> EmptyString -> rstrip (a ++ s) = (a ++ s)%string.
Proof.
  intros Hs Hne. induction a as [|c a IH]; [exact Hs|].
  cbn [append rstrip]. rewrite IH.
  destruct (a ++ s)%string eqn:E; [|reflexivity].
  destruct a; [cbn in E; congruence|discriminate].
Qed.

Lemma strip_kept_ends (s : string) :
  strip s = s -> lstrip s = s /\ rstrip s = s.
Proof.
  unfold strip. intros H.
  assert (Hl : lstrip s = s).
  { destruct s as [|c s]; [reflexivity|]. cbn [lstrip] in *.
    destruct (is_space c) eqn:Hc; [|reflexivity].
    exfalso.
    assert (Hlen : forall t, (String.length (rstrip t) <= String.length t)%nat).
    { induction t as [|d t IHt]; [apply Nat.le_refl|]. cbn [rstrip].
      destruct (rstrip t) as [|e r]; cbn [String.length] in *;
        [destruct (is_space d); cbn [String.length]; lia|lia]. }
    assert (Hlen2 : forall t, (String.length (lstrip t) <= String.length t)%nat).
    { induction t as [|d t IHt]; [apply Nat.le_refl|]. cbn [lstrip].
      destruct (is_space d); cbn [String.length] in *; lia. }
    pose proof (Hlen (lstrip s)) as H1. pose proof (Hlen2 s) as H2.
    rewrite H in H1. cbn [String.length] in H1. lia. }
  split; [exact Hl|]. rewrite Hl in H. exact H.
Qed.

End StyleValues.

(** X16.  A font size written is read back, but for its sign: for a size
    tag that is not ignored [write_tag_begin] writes a [span] with the style
    [font-size: <n>pt], and [parse_style] on that style opens the tag
    [size <|n|>], which is the tag's own name when [n] is not negative. *)
Theorem font_size_round_trip (n : Z) (IGNORE_TAGS : list string)
        (hb : HtmlBuffer) :
  str_in (tag_property_name (RichTextSizeTag n)) IGNORE_TAGS = false ->
  write_tag_begin IGNORE_TAGS (TagDom (RichTextSizeTag n)) (RichTextSizeTag n)
  = Ok ("<span style=" ++ dquote ++ "font-size: " ++ dec n ++ "pt"
        ++ dquote ++ ">")%string
  /\ parse_style (Some ("font-size: " ++ dec n ++ "pt")%string) hb
     = (open_tagname ("size " ++ dec (Z.abs n)) hb, None)
  /\ ((0 <= n)%Z ->
      ("size " ++ dec (Z.abs n))%string
      = tag_property_name (RichTextSizeTag n)).
Proof.
  intros Hignore. split; [|split].
  - unfold write_tag_begin. rewrite Hignore. reflexivity.
  - assert (Hsemi : lacks ";" ("font-size: " ++ dec n ++ "pt") = true).
    { rewrite !lacks_app, (dec_lacks ";" n) by reflexivity. reflexivity. }
    assert (Hcolon : lacks ":" (" " ++ dec n ++ "pt") = true).
    { rewrite !lacks_app, (dec_lacks ":" n) by reflexivity. reflexivity. }
    assert (Hstrip : strip ("font-size: " ++ dec n ++ "pt")
                     = ("font-size: " ++ dec n ++ "pt")%string).
    { unfold strip.
      change (lstrip ("font-size: " ++ dec n ++ "pt"))
        with ("font-size: " ++ dec n ++ "pt")%string.
      rewrite <- string_app_assoc.
      apply rstrip_app_kept; [reflexivity|discriminate]. }
    unfold parse_style. rewrite (split_lacks _ _ Hsemi).
    cbn [parse_statements]. rewrite Hstrip.
    unfold style_tagstr.
    change ("font-size: " ++ dec n ++ "pt")%string
      with ("font-size" ++ String ":" (" " ++ dec n ++ "pt"))%string.
    rewrite startswith_self.
    rewrite split_before_sep by reflexivity.
    rewrite (split_lacks _ _ Hcolon). cbn [second bind].
    rewrite !filter_app_string, filter_digits_dec.
    change (filter isdigit " ") with ""%string.
    change (filter isdigit "pt") with ""%string.
    cbn [append]. rewrite string_app_nil_r.
    unfold int_of_digits.
    destruct (dec_nonneg_digits (Z.abs n) (Z.abs_nonneg n)) as (_ & Hne).
    destruct (dec (Z.abs n)) as [|c s] eqn:E; [congruence|].
    cbn [bind]. rewrite <- E, digits_value_dec by apply Z.abs_nonneg.
    reflexivity.
  - intros Hn. rewrite Z.abs_eq by exact Hn. reflexivity.
Qed.

Lemma font_size_round_trip_witness :
  write_tag_begin ["gtkspell-misspelled"] (TagDom (RichTextSizeTag 12))
                  (RichTextSizeTag 12)
  = Ok ("<span style=" ++ dquote ++ "font-size: 12pt" ++ dquote ++ ">")%string
  /\ parse_style (Some "font-size: 12pt") HtmlBuffer_init
     = (open_tagname "size 12" HtmlBuffer_init, None)
  /\ ((0 <= 12)%Z -> "size 12"%string = "size 12"%string).
Proof.
  apply (font_size_round_trip 12 ["gtkspell-misspelled"] HtmlBuffer_init).
  reflexivity.
Defined.

(** X17.  A font family written is read back: for a family tag that is not
    ignored and whose family has no colon, no semicolon and no blank at
    either end, [write_tag_begin] writes a [span] with the style
    [font-family: <family>], and [parse_style] on that style opens the tag
    of the same name. *)
Theorem font_family_round_trip (family : string) (IGNORE_TAGS : list string)
        (hb : HtmlBuffer) :
  lacks ":" family = true -> lacks ";" family = true ->
  strip family = family ->
  str_in (tag_property_name (RichTextFamilyTag family)) IGNORE_TAGS = false ->
  write_tag_begin IGNORE_TAGS (TagDom (RichTextFamilyTag family))
                  (RichTextFamilyTag family)
  = Ok ("<span style=" ++ dquote ++ "font-family: " ++ family
        ++ dquote ++ ">")%string
  /\ parse_style (Some ("font-family: " ++ family)%string) hb
     = (open_tagname (tag_property_name (RichTextFamilyTag family)) hb, None).
Proof.
  intros Hcolon Hsemi Hstrip Hignore. split.
  - unfold write_tag_begin. rewrite Hignore. reflexivity.
  - destruct (strip_kept_ends family Hstrip) as (Hl & Hr).
    assert (Hsemi' : lacks ";" ("font-family: " ++ family) = true).
    { rewrite lacks_app, Hsemi. reflexivity. }
    unfold parse_style. rewrite (split_lacks _ _ Hsemi').
    cbn [parse_statements tag_property_name].
    destruct family as [|c family'] eqn:E.
    + reflexivity.
    + rewrite <- E in *.
      assert (Hstmt : strip ("font-family: " ++ family)
                      = ("font-family: " ++ family)%string).
      { unfold strip.
        change (lstrip ("font-family: " ++ family))
          with ("font-family: " ++ family)%string.
        apply rstrip_app_kept; [exact Hr|congruence]. }
      rewrite Hstmt. unfold style_tagstr.
      change ("font-family: " ++ family)%string
        with ("font-family" ++ String ":" (" " ++ family))%string.
      rewrite startswith_self.
      change (startswith ("font-family" ++ String ":" (" " ++ family))
                         "font-size") with false.
      cbv iota.
      rewrite split_before_sep by reflexivity.
      rewrite split_lacks by (rewrite lacks_app, Hcolon; reflexivity).
      cbn [second bind]. unfold strip at 1.
      change (lstrip (" " ++ family)) with (lstrip family).
      rewrite Hl, Hr. reflexivity.
Qed.

Lemma font_family_round_trip_witness :
  write_tag_begin [] (TagDom (RichTextFamilyTag "Sans Serif"))
                  (RichTextFamilyTag "Sans Serif")
  = Ok ("<span style=" ++ dquote ++ "font-family: Sans Serif" ++ dquote
        ++ ">")%string
  /\ parse_style (Some "font-family: Sans Serif") HtmlBuffer_init
     = (open_tagname "family Sans Serif" HtmlBuffer_init, None).
Proof.
  apply (font_family_round_trip "Sans Serif" [] HtmlBuffer_init);
    reflexivity.
Defined.

Section ImageSize.

Lemma digit_string_rstrip (s : string) :
  digit_string s = true -> rstrip s = s.
Proof.
  induction s as [|c s IH]; [reflexivity|]. cbn [digit_string rstrip].
  intros H. apply andb_prop in H. destruct H as (Hc & Hs). rewrite (IH Hs).
  destruct s; [|reflexivity].
  replace (is_space c) with false; [reflexivity|].
  destruct c as [[] [] [] [] [] [] [] []]; try discriminate Hc; reflexivity.
Qed.

Lemma digit_first (c : ascii) (s : string) :
  isdigit c = true ->
  lstrip (String c s) = String c s
  /\ match String c s with
     | String "-"%char r => (true, lstrip r)
     | String "+"%char r => (false, lstrip r)
     | _ => (false, String c s)
     end = (false, String c s).
Proof.
  intros Hc.
  destruct c as [[] [] [] [] [] [] [] []]; try discriminate Hc;
    split; reflexivity.
Qed.

Lemma py_int_dec (z : Z) : py_int (dec z) = Some z.
Proof.
  assert (Hnonneg : forall n, (0 <= n)%Z -> py_int (dec n) = Some n).
  { intros n Hn. destruct (dec_nonneg_digits n Hn) as (Hd & Hne).
    pose proof (digits_value_dec n Hn) as Hv.
    pose proof (filter_digit_string _ Hd) as Hf.
    pose proof (digit_string_rstrip _ Hd) as Hr.
    destruct (dec n) as [|c s]; [congruence|].
    pose proof Hd as Hc. cbn [digit_string] in Hc. apply andb_prop in Hc.
    destruct (digit_first c s (proj1 Hc)) as (Hl & Hsign).
    unfold py_int, strip. rewrite Hl, Hr, Hsign, Hf, String.eqb_refl, Hv.
    reflexivity. }
  destruct z as [|p|p]; try (apply Hnonneg; lia).
  assert (Hp : (0 <= Z.pos p)%Z) by lia.
  destruct (dec_nonneg_digits _ Hp) as (Hd & Hne).
  pose proof (digits_value_dec _ Hp) as Hv.
  pose proof (filter_digit_string _ Hd) as Hf.
  pose proof (digit_string_rstrip _ Hd) as Hr.
  rewrite dec_neg. unfold py_int, strip.
  change (lstrip (String "-" (dec (Z.pos p))))
    with (String "-" (dec (Z.pos p))).
  change (String "-" (dec (Z.pos p))) with ("-" ++ dec (Z.pos p))%string.
  rewrite (rstrip_app_kept "-" _ Hr Hne). cbn [append].
  destruct (dec (Z.pos p)) as [|c s]; [congruence|].
  pose proof Hd as Hc. cbn [digit_string] in Hc. apply andb_prop in Hc.
  destruct (digit_first c s (proj1 Hc)) as (-> & _).
  rewrite Hf, String.eqb_refl, Hv. reflexivity.
Qed.

End ImageSize.

(** X18.  The size of an image is read back as written: [write_anchor]
    writes width and height with ["%d"], and [parse_image] on a [src], a
    [width] and a [height] attribute with values so written returns the
    image with that file name and that size, negative numbers included. *)
Theorem image_size_round_trip (filename : string) (width height : Z) :
  write_anchor (RichTextImage (Some filename) (Some width) (Some height))
  = ("<img src=" ++ dquote ++ filename ++ dquote
     ++ ((" width=" ++ dquote ++ dec width ++ dquote)
         ++ " height=" ++ dquote ++ dec height ++ dquote) ++ " />")%string
  /\ parse_image [("src", Some filename); ("width", Some (dec width));
                  ("height", Some (dec height))]
     = Ok (RichTextImage (Some filename) (Some width) (Some height)).
Proof.
  split; [reflexivity|].
  unfold parse_image. cbn [parse_image_attrs String.eqb Ascii.eqb Bool.eqb].
  unfold parse_dim. rewrite !py_int_dec. reflexivity.
Qed.

Section ListItemStyle.

Lemma split_length (sep : ascii) (s : string) :
  Datatypes.length (split sep s) = S (count_char sep s).
Proof.
  induction s as [|c s IH]; [reflexivity|]. cbn [split count_char].
  destruct (Ascii.eqb c sep); cbn [Datatypes.length]; [rewrite IH; reflexivity|].
  destruct (split sep s); cbn [Datatypes.length] in *; [discriminate|exact IH].
Qed.

Lemma li_statement_unpacks (statement : string) :
  (one_colon statement = true
   /\ exists key2 value2, split ":" statement = [key2; value2])
  \/ (one_colon statement = false
      /\ forall key2 value2, split ":" statement <> [key2; value2]).
Proof.
  unfold one_colon. pose proof (split_length ":" statement) as Hlen.
  destruct (count_char ":" statement =? 1)%nat eqn:E.
  - apply Nat.eqb_eq in E. rewrite E in Hlen. left. split; [reflexivity|].
    destruct (split ":" statement) as [|a [|b [|c l]]]; try discriminate.
    eexists _, _; reflexivity.
  - apply Nat.eqb_neq in E. right. split; [reflexivity|].
    intros key2 value2 H. rewrite H in Hlen. cbn in Hlen. congruence.
Qed.

Lemma li_statements_fails (statements : list string) :
  forall par_type,
    (forallb one_colon statements = true
     /\ exists par_type', li_statements statements par_type = Ok par_type')
    \/ (forallb one_colon statements = false
        /\ li_statements statements par_type = Raise ValueError).
Proof.
  induction statements as [|statement rest IH]; intros par_type.
  - left. split; [reflexivity|]. eexists; reflexivity.
  - cbn [forallb li_statements].
    destruct (li_statement_unpacks statement)
      as [(-> & key2 & value2 & ->)|(-> & Hnot)].
    + cbn [andb].
      destruct (String.eqb (strip key2) "list-style-type"
                && String.eqb (strip value2) "disc"); apply IH.
    + right. split; [reflexivity|].
      destruct (split ":" statement) as [|a [|b [|c l]]]; try reflexivity.
      exfalso. exact (Hnot a b eq_refl).
Qed.

Lemma li_attrs_fails (attrs : list (string * option string)) :
  forall par_type,
    (forallb li_attr_ok attrs = true
     /\ exists par_type', li_attrs attrs par_type = Ok par_type')
    \/ (forallb li_attr_ok attrs = false
        /\ (li_attrs attrs par_type = Raise ValueError
            \/ li_attrs attrs par_type = Raise AttributeError)).
Proof.
  induction attrs as [|[key value] rest IH]; intros par_type.
  - left. split; [reflexivity|]. eexists; reflexivity.
  - cbn [forallb li_attrs li_attr_ok].
    destruct (String.eqb key "style"); cbn [negb orb]; [|apply IH].
    destruct value as [v|]; [|right; split; [reflexivity|right; reflexivity]].
    destruct (li_statements_fails (split ";" v) par_type)
      as [(-> & par_type' & ->)|(-> & ->)]; cbn [andb bind].
    + apply IH.
    + right. split; [reflexivity|left; reflexivity].
Qed.

End ListItemStyle.

(** X19.  The start tag of a list item goes through exactly when each of
    its [style] attributes has a value whose statements, the pieces between
    semicolons, have one colon each; otherwise it raises ValueError (a
    statement does not unpack into key and value, as the empty statement
    after a final semicolon) or AttributeError (a [style] without value),
    and the tree is left as it was. *)
Theorem li_starttag_fails_iff (attrs : list (string * option string))
        (hb : HtmlBuffer) :
  (forallb li_attr_ok attrs = true
   <-> snd (handle_starttag "li" attrs hb) = None)
  /\ (forallb li_attr_ok attrs = false
      <-> (snd (handle_starttag "li" attrs hb) = Some ValueError
           \/ snd (handle_starttag "li" attrs hb) = Some AttributeError))
  /\ (forallb li_attr_ok attrs = false ->
      _dom (fst (handle_starttag "li" attrs hb)) = _dom hb).
Proof.
  set (hb0 := mk_buffer false ((Some "li"%string, _dom_ptr hb) :: _tag_stack hb)
                        (_within_body hb) (_partial hb) (_dom hb)
                        (_dom_ptr hb)).
  change (handle_starttag "li" attrs hb)
    with (match li_attrs attrs "none" with
          | Ok par_type => (open_tagname ("li " ++ par_type) hb0, None)
          | Raise e => (hb0, Some e)
          end).
  destruct (li_attrs_fails attrs "none")
    as [(-> & par_type' & ->)|(-> & [-> | ->])]; cbn [fst snd].
  - split; [split; reflexivity|]. split; [|discriminate].
    split; [discriminate|]. intros [H|H]; discriminate.
  - split; [split; discriminate|]. split; [|reflexivity].
    split; auto.
  - split; [split; discriminate|]. split; [|reflexivity].
    split; auto.
Qed.

(** ** More on [unnest_indent_tags] *)

Section FlatIndents.

Definition indent_open (stack : list string) : bool :=
  match stack with [] => false | _ => true end.

Lemma indent_tagstr_is_indent (indent : Z) (par_type : string) :
  is_indent_str (indent_tagstr indent par_type) = true.
Proof.
  unfold is_indent_str, indent_tagstr. apply startswith_self.
Qed.

Lemma unnest_item_flat (st st' : unnest_state) (it : item)
      (out tail : list item) :
  forallb is_indent_str (li_stack st) = true ->
  no_indent_str it = true ->
  unnest_item st it = Ok (out, st') ->
  forallb is_indent_str (li_stack st') = true
  /\ flat_indent_strs (indent_open (li_stack st)) (out ++ tail)
     = flat_indent_strs (indent_open (li_stack st')) tail.
Proof.
  intros Hstack Hit E. destruct st as [indent stack].
  cbn [li_stack unnest_indent] in *.
  destruct it as [s|a|t|t|param|param]; cbn [unnest_item] in E;
    try (injection E as <- <-; split; [exact Hstack|reflexivity]).
  - cbn [li_stack unnest_indent] in E.
    destruct (String.eqb param "ol").
    { injection E as <- <-. split; [exact Hstack|reflexivity]. }
    destruct (startswith param "li").
    + injection E as <- <-. cbn [li_stack forallb].
      rewrite indent_tagstr_is_indent, Hstack. split; [reflexivity|].
      assert (Hbullet : forall l,
                 flat_indent_strs true
                   ((if String.eqb (slice_from 3 param) "bullet"
                     then [BeginStr "bullet"; Text BULLET_STR;
                           EndStr "bullet"]
                     else []) ++ l)
                 = flat_indent_strs true l).
      { intros l. destruct (String.eqb (slice_from 3 param) "bullet");
          reflexivity. }
      destruct stack as [|top stack]; cbn [app indent_open flat_indent_strs].
      * rewrite indent_tagstr_is_indent. apply Hbullet.
      * cbn [forallb] in Hstack. apply andb_prop in Hstack.
        destruct Hstack as (-> & _).
        rewrite indent_tagstr_is_indent. apply Hbullet.
    + injection E as <- <-. split; [exact Hstack|].
      cbn [app flat_indent_strs]. cbn [no_indent_str] in Hit.
      apply negb_true_iff in Hit. rewrite Hit. reflexivity.
  - cbn [li_stack unnest_indent] in E.
    destruct (String.eqb param "ol").
    { injection E as <- <-. split; [exact Hstack|reflexivity]. }
    destruct (startswith param "li").
    + destruct stack as [|top stack]; [discriminate|].
      injection E as <- <-. cbn [li_stack forallb] in *.
      apply andb_prop in Hstack. destruct Hstack as (_ & Hstack).
      split; [exact Hstack|].
      cbn [app indent_open flat_indent_strs].
      rewrite indent_tagstr_is_indent.
      destruct stack as [|top' stack]; [reflexivity|].
      cbn [forallb] in Hstack. apply andb_prop in Hstack.
      destruct Hstack as (Htop' & _).
      cbn [app flat_indent_strs]. rewrite Htop'. reflexivity.
    + injection E as <- <-. split; [exact Hstack|].
      cbn [app flat_indent_strs]. cbn [no_indent_str] in Hit.
      apply negb_true_iff in Hit. rewrite Hit. reflexivity.
Qed.

Lemma unnest_loop_flat (contents : list item) :
  forall st st' out tail,
    forallb is_indent_str (li_stack st) = true ->
    forallb no_indent_str contents = true ->
    unnest_loop st contents = Ok (out, st') ->
    flat_indent_strs (indent_open (li_stack st)) (out ++ tail)
    = flat_indent_strs (indent_open (li_stack st')) tail.
Proof.
  induction contents as [|it rest IH]; intros st st' out tail Hstack Hall E;
    cbn [unnest_loop] in E.
  - injection E as <- <-. reflexivity.
  - cbn [forallb] in Hall. apply andb_prop in Hall.
    destruct Hall as (Hit & Hrest).
    destruct (unnest_item st it) as [[out1 st1]|e] eqn:E1; cbn [bind] in E;
      [|discriminate].
    destruct (unnest_loop st1 rest) as [[out2 st2]|e] eqn:E2; cbn [bind] in E;
      [|discriminate].
    injection E as <- <-.
    destruct (unnest_item_flat _ _ _ _ (out2 ++ tail) Hstack Hit E1)
      as (Hstack1 & H1).
    rewrite <- app_assoc, H1. apply (IH _ _ _ _ Hstack1 Hrest E2).
Qed.

End FlatIndents.

(** X20.  What [unnest_indent_tags] yields is flat: on a stream that closes
    no list item that is not open and has no indent tag of its own, it runs
    to the end, and in its output an indent tag begins only when none is
    open and ends only when one is open. *)
Theorem unnest_indent_tags_output_is_flat (contents : list item) :
  li_underflow 0 contents = false ->
  forallb no_indent_str contents = true ->
  exists out open,
    unnest_indent_tags contents = Ok out
    /\ flat_indent_strs false out = Some open.
Proof.
  intros Hunder Hall. unfold unnest_indent_tags.
  destruct (unnest_loop_fails_iff contents unnest_init) as (_ & Hok).
  destruct (Hok Hunder) as (out & st' & E). rewrite E. cbn [bind].
  exists out, (indent_open (li_stack st')). split; [reflexivity|].
  pose proof (unnest_loop_flat contents unnest_init st' out [] eq_refl Hall E)
    as H.
  rewrite app_nil_r in H. exact H.
Qed.

Definition stream_two_items : list item :=
  [BeginStr "ol"; BeginStr "li bullet"; Text "a"; BeginStr "ol";
   BeginStr "li none"; Text "b"; EndStr "li none"; EndStr "ol";
   EndStr "li bullet"; EndStr "ol"].

Lemma unnest_indent_tags_output_is_flat_witness :
  exists out open,
    unnest_indent_tags stream_two_items = Ok out
    /\ flat_indent_strs false out = Some open.
Proof.
  apply (unnest_indent_tags_output_is_flat stream_two_items); reflexivity.
Defined.

(** ** Tags written *)

(** [close] is the end tag of the element that [open] begins, with or
    without a newline after it. *)
Definition closes (open close : string) : Prop :=
  exists name attrs,
    open = ("<" ++ name ++ attrs ++ ">")%string
    /\ (attrs = EmptyString \/ startswith attrs " " = true)
    /\ lacks " " name = true
    /\ (close = ("</" ++ name ++ ">")%string
        \/ close = ("</" ++ name ++ ">" ++ NL)%string).

Section TagPairs.

Lemma closes_element (name attrs : string) (newline : bool) :
  lacks " " name = true ->
  attrs = EmptyString \/ startswith attrs " " = true ->
  closes ("<" ++ name ++ attrs ++ ">")
         ("</" ++ name ++ ">" ++ if newline then NL else "").
Proof.
  intros Hname Hattrs. exists name, attrs.
  split; [reflexivity|]. split; [exact Hattrs|]. split; [exact Hname|].
  destruct newline; [right; reflexivity|left].
  rewrite string_app_nil_r. reflexivity.
Qed.

Lemma buffer_tag_closes (tagname html : string) :
  lookup_str tagname _buffer_tag2html = Some html ->
  closes ("<" ++ html ++ ">") ("</" ++ html ++ ">").
Proof.
  intros H.
  assert (Hhtml : lacks " " html = true).
  { cbn [lookup_str _buffer_tag2html] in H.
    repeat match type of H with
           | (if ?b then _ else _) = _ =>
               destruct b; [injection H as <-; reflexivity|]
           end.
    discriminate. }
  pose proof (closes_element html "" false Hhtml (or_introl eq_refl)) as Hc.
  exact Hc.
Qed.

Lemma span_closes (style : string) :
  closes ("<span style=" ++ dquote ++ style ++ dquote ++ ">") "</span>".
Proof.
  exists "span"%string, (" style=" ++ dquote ++ style ++ dquote)%string.
  split; [|split; [right; reflexivity|split; [reflexivity|left; reflexivity]]].
  cbn [append]. rewrite !string_app_assoc. reflexivity.
Qed.

End TagPairs.

(** X21.  The markup around an element is balanced: when a tag of the tree
    is not ignored and [write_tag_begin] writes its start tag, what
    [write_tag_end] writes is the end tag of the same HTML element ([b],
    [span], [div], [ol], [li], ...), provided a justification tag has one
    of the names the reader knows. *)
Theorem written_tags_are_balanced (IGNORE_TAGS : list string) (k : dom_kind)
        (tag : RichTextTag) (open : string) :
  tag_of k = Some tag ->
  str_in (tag_property_name tag) IGNORE_TAGS = false ->
  (forall justify, tag = RichTextJustifyTag justify ->
                   str_in justify _justify = true) ->
  write_tag_begin IGNORE_TAGS k tag = Ok open ->
  closes open (write_tag_end k tag).
Proof.
  intros Hk Hignore Hjustify E. unfold write_tag_begin in E.
  rewrite Hignore in E. unfold write_tag_end.
  destruct (lookup_str (tag_property_name tag) _buffer_tag2html)
    as [html|] eqn:Hlookup.
  { injection E as <-. eapply buffer_tag_closes. exact Hlookup. }
  destruct k as [|text|a|tag'|kind|tagname]; try discriminate.
  - (* an element of the stream *)
    cbn [tag_of] in Hk. injection Hk as ->. cbn [is_li_dom].
    destruct tag as [name|family|size|justify|color|color|indent par_indent
                    | |kind|name]; try discriminate.
    + injection E as <-. exact (span_closes ("font-family: " ++ family)).
    + injection E as <-.
      change (str_in (tag_property_name (RichTextSizeTag size)) _justify)
        with false.
      cbv iota.
      pose proof (span_closes ("font-size: " ++ dec size ++ "pt")) as H.
      rewrite !string_app_assoc in H. exact H.
    + injection E as <-. cbn [tag_property_name] in *.
      rewrite (Hjustify justify eq_refl).
      exists "div"%string,
        (" style=" ++ dquote ++ "text-align: "
         ++ (if String.eqb justify "fill" then "justify" else justify)
         ++ dquote)%string.
      split; [|split; [right; reflexivity
                      |split; [reflexivity|left; reflexivity]]].
      destruct (String.eqb justify "fill"); [reflexivity|].
      unfold dquote. cbn [append]. rewrite string_app_assoc. reflexivity.
    + destruct (tagcolor_to_html color) as [html|e]; [|discriminate].
      injection E as <-.
      pose proof (span_closes ("color: " ++ html)) as H.
      rewrite !string_app_assoc in H. exact H.
    + destruct (tagcolor_to_html color) as [html|e]; [|discriminate].
      injection E as <-.
      pose proof (span_closes ("background-color: " ++ html)) as H.
      rewrite !string_app_assoc in H. exact H.
    + injection E as <-.
      change (str_in (tag_property_name (RichTextIndentTag indent par_indent))
                     _justify) with false.
      cbv iota.
      apply (closes_element "ol" "" true); [reflexivity|left; reflexivity].
  - (* a list item *)
    cbn [tag_of] in Hk. injection Hk as <-.
    cbn [tag_property_name LI_TAG str_in existsb String.eqb Ascii.eqb
         Bool.eqb andb orb _justify is_li_dom].
    cbn [LI_TAG] in E.
    destruct kind; injection E as <-.
    + exists "li"%string,
        (" style=" ++ dquote ++ "list-style-type: none" ++ dquote)%string.
      split; [reflexivity|].
      split; [right; reflexivity|split; [reflexivity|right; reflexivity]].
    + exists "li"%string,
        (" style=" ++ dquote ++ "list-style-type: disc" ++ dquote)%string.
      split; [reflexivity|].
      split; [right; reflexivity|split; [reflexivity|right; reflexivity]].
Qed.

Lemma written_tags_are_balanced_witness :
  closes ("<div style=" ++ dquote ++ "text-align: justify" ++ dquote ++ ">")
         "</div>".
Proof.
  apply (written_tags_are_balanced ["gtkspell-misspelled"]
           (TagDom (RichTextJustifyTag "fill")) (RichTextJustifyTag "fill"));
    try reflexivity.
  intros justify H. injection H as <-. reflexivity.
Defined.

(** X22.  [write_tag_end] does not look at [IGNORE_TAGS]: for an ignored
    tag other than the bullet tag, [write_tag_begin] writes nothing, and
    [write_tag_end] still writes an end tag. *)
Theorem ignored_tag_is_closed_unopened (IGNORE_TAGS : list string)
        (k : dom_kind) (tag : RichTextTag) :
  str_in (tag_property_name tag) IGNORE_TAGS = true ->
  tag <> RichTextBulletTag ->
  write_tag_begin IGNORE_TAGS k tag = Ok EmptyString
  /\ startswith (write_tag_end k tag) "</" = true.
Proof.
  intros Hignore Hbullet. split.
  - unfold write_tag_begin. rewrite Hignore. reflexivity.
  - unfold write_tag_end.
    destruct (lookup_str (tag_property_name tag) _buffer_tag2html);
      [apply startswith_self|].
    destruct (str_in (tag_property_name tag) _justify); [reflexivity|].
    destruct tag; try reflexivity; destruct (is_li_dom k); try reflexivity.
    congruence.
Qed.

Lemma ignored_tag_is_closed_unopened_witness :
  write_tag_begin ["gtkspell-misspelled"]
                  (TagDom (RichTextModTag "gtkspell-misspelled"))
                  (RichTextModTag "gtkspell-misspelled") = Ok EmptyString
  /\ startswith
       (write_tag_end (TagDom (RichTextModTag "gtkspell-misspelled"))
                      (RichTextModTag "gtkspell-misspelled")) "</" = true.
Proof.
  apply (ignored_tag_is_closed_unopened ["gtkspell-misspelled"]);
    [reflexivity|discriminate].
Defined.

(** ** Text appended to the tree *)

Section AppendText.

Lemma update_nth_ext {A : Type} (f g : A -> A) (l : list A) :
  (forall x, f x = g x) ->
  forall i, update_nth i f l = update_nth i g l.
Proof.
  intros Hfg. induction l as [|x l IH]; intros i; [destruct i; reflexivity|].
  destruct i as [|i]; cbn [update_nth]; [rewrite Hfg|rewrite IH]; reflexivity.
Qed.

Lemma update_nth_twice {A : Type} (f g : A -> A) (l : list A) :
  forall i,
    update_nth i g (update_nth i f l) = update_nth i (fun x => g (f x)) l.
Proof.
  induction l as [|x l IH]; intros i; [destruct i; reflexivity|].
  destruct i as [|i]; cbn [update_nth]; [|rewrite IH]; reflexivity.
Qed.

Lemma update_nth_kept {A : Type} (f : A -> A) (l : list A) :
  forall i,
    match nth_error l i with
    | Some x => f x = x
    | None => True
    end ->
    update_nth i f l = l.
Proof.
  induction l as [|x l IH]; intros i H; [destruct i; reflexivity|].
  destruct i as [|i]; cbn [update_nth nth_error] in *.
  - rewrite H. reflexivity.
  - rewrite (IH i H). reflexivity.
Qed.

Lemma update_nth_last {A : Type} (f : A -> A) (l : list A) (x : A) :
  update_nth (List.length (l ++ [x]) - 1) f (l ++ [x]) = l ++ [f x].
Proof.
  rewrite length_app. cbn [Datatypes.length].
  replace (Datatypes.length l + 1 - 1)%nat with (Datatypes.length l) by lia.
  induction l as [|y l IH]; [reflexivity|].
  cbn [Datatypes.length app update_nth]. rewrite IH. reflexivity.
Qed.

Lemma update_ext (f g : Dom -> Dom) (p : path) :
  (forall n, f n = g n) -> forall d, update p f d = update p g d.
Proof.
  intros Hfg. induction p as [|i p IH]; intros d; cbn [update];
    [apply Hfg|].
  rewrite (update_nth_ext _ _ _ IH). reflexivity.
Qed.

Lemma update_twice (f g : Dom -> Dom) (p : path) :
  forall d, update p g (update p f d) = update p (fun n => g (f n)) d.
Proof.
  induction p as [|i p IH]; intros d; cbn [update kind_of children_of];
    [reflexivity|].
  rewrite update_nth_twice, (update_nth_ext _ _ _ IH). reflexivity.
Qed.

Lemma update_app (f : Dom -> Dom) (p q : path) :
  forall d, update (p ++ q) f d = update p (update q f) d.
Proof.
  induction p as [|i p IH]; intros d; cbn [app update]; [reflexivity|].
  rewrite (update_nth_ext _ _ _ IH). reflexivity.
Qed.

Lemma update_invalid (f : Dom -> Dom) (p : path) :
  forall d, get d p = None -> update p f d = d.
Proof.
  induction p as [|i p IH]; intros [k cs] H; [discriminate|].
  cbn [get update kind_of children_of] in *. f_equal.
  apply update_nth_kept.
  destruct (nth_error cs i) as [c|]; [|exact I]. apply IH, H.
Qed.

Lemma update_at (f g : Dom -> Dom) (p : path) (d n : Dom) :
  get d p = Some n -> f n = g n -> update p f d = update p g d.
Proof.
  revert d. induction p as [|i p IH]; intros [k cs] H Hfg.
  - cbn [get] in H. injection H as <-. exact Hfg.
  - cbn [get update kind_of children_of] in *. f_equal.
    revert i H. induction cs as [|c cs IHcs]; intros i H;
      [destruct i; reflexivity|].
    destruct i as [|i]; cbn [nth_error update_nth] in *.
    + rewrite (IH c H Hfg). reflexivity.
    + rewrite (IHcs i H). reflexivity.
Qed.

(** [append_text], on the node the insertion point is at. *)
Definition node_append_text (text : string) (n : Dom) : Dom :=
  match List.last (map Some (children_of n)) None with
  | Some (Node (TextDom _) _) =>
      Node (kind_of n)
           (update_nth (List.length (children_of n) - 1) (add_text text)
                       (children_of n))
  | _ => Node (kind_of n) (children_of n ++ [text_node text])
  end.

Lemma append_text_at_node (text : string) (hb : HtmlBuffer) :
  text <> EmptyString ->
  append_text text hb
  = set_dom (update (_dom_ptr hb) (node_append_text text) (_dom hb)) hb.
Proof.
  intros Hne. unfold append_text.
  destruct text as [|c text]; [congruence|].
  cbn [String.length Nat.ltb Nat.leb]. unfold last_child, num_children.
  destruct (get (_dom hb) (_dom_ptr hb)) as [n|] eqn:Hget.
  - assert (Hnode : forall g,
               g n = node_append_text (String c text) n ->
               update (_dom_ptr hb) g (_dom hb)
               = update (_dom_ptr hb) (node_append_text (String c text))
                        (_dom hb)).
    { intros g Hg. eapply update_at; eassumption. }
    unfold node_append_text in Hnode.
    destruct (List.last (map Some (children_of n)) None) as [[[] ?]|];
      unfold append_node, append_child;
      try (rewrite (Hnode _ eq_refl); reflexivity).
    rewrite update_app. rewrite (Hnode _ eq_refl). reflexivity.
  - unfold append_node, append_child. rewrite !update_invalid by exact Hget.
    reflexivity.
Qed.

Lemma node_append_text_twice (a b : string) (n : Dom) :
  b <> EmptyString ->
  node_append_text b (node_append_text a n) = node_append_text (a ++ b) n.
Proof.
  intros Hb. destruct n as [k cs]. unfold node_append_text.
  cbn [children_of kind_of].
  destruct cs as [|c0 cs0] using rev_ind.
  - cbn [map List.last app Datatypes.length Nat.sub update_nth add_text
         text_node]. reflexivity.
  - clear IHcs0. rewrite last_some_snoc.
    destruct c0 as [[|t|anchor|tag|kind|tagname] tcs];
      try (cbn [kind_of children_of]; rewrite last_some_snoc;
           unfold text_node; cbv iota; rewrite update_nth_last;
           reflexivity).
    cbn [kind_of children_of]. rewrite !update_nth_last.
    cbn [add_text]. rewrite last_some_snoc, string_app_assoc. reflexivity.
Qed.

End AppendText.

(** X23.  Text is appended to the tree piece by piece as it would be at
    once: [append_text] of one piece and then of another leaves the reader
    as [append_text] of the two pieces joined does, wherever the insertion
    point is and whatever the last child there. *)
Theorem append_text_joins_pieces (a b : string) (hb : HtmlBuffer) :
  append_text b (append_text a hb) = append_text (a ++ b) hb.
Proof.
  destruct a as [|ca a']; [reflexivity|].
  destruct b as [|cb b'].
  { rewrite string_app_nil_r. reflexivity. }
  rewrite (append_text_at_node (String ca a') hb) by discriminate.
  rewrite (append_text_at_node (String cb b')) by discriminate.
  rewrite (append_text_at_node (String ca a' ++ String cb b') hb)
    by discriminate.
  unfold set_dom. cbn [_dom _dom_ptr _newline _tag_stack _within_body _partial].
  f_equal. rewrite update_twice. apply update_ext.
  intros n. apply node_append_text_twice. discriminate.
Qed.

(** ** The tree prepared for writing *)

Section FirstWalk.

Lemma content_of_element (first last : item) (inner : list item) :
  is_content_item first = false -> is_content_item last = false ->
  List.filter is_content_item (first :: inner ++ [last])
  = List.filter is_content_item inner.
Proof.
  intros Hf Hl. cbn [List.filter]. rewrite Hf, filter_app.
  cbn [List.filter]. rewrite Hl. apply app_nil_r.
Qed.

Lemma walk_items_children (within_indent : bool) (cs : list Dom) :
  Forall (fun c => forall w,
              List.filter is_content_item
                (flat_map visit_contents (walk_items w c))
              = List.filter is_content_item (visit_contents c)) cs ->
  List.filter is_content_item
    (flat_map visit_contents (flat_map (walk_items within_indent) cs))
  = List.filter is_content_item (flat_map visit_contents cs).
Proof.
  induction 1 as [|c cs Hc _ IH]; [reflexivity|].
  cbn [flat_map]. rewrite flat_map_app, !filter_app, Hc, IH. reflexivity.
Qed.

Lemma walk_items_keeps_content (d : Dom) :
  forall within_indent,
    List.filter is_content_item
      (flat_map visit_contents (walk_items within_indent d))
    = List.filter is_content_item (visit_contents d).
Proof.
  induction d as [k cs IH] using Dom_children_ind. intros within_indent.
  pose proof (fun w => walk_items_children w cs IH) as Hcs.
  assert (Hother :
            List.filter is_content_item
              (flat_map visit_contents
                 [Node k (flat_map (walk_items within_indent) cs)])
            = List.filter is_content_item (visit_contents (Node k cs))).
  { cbn [flat_map]. rewrite app_nil_r.
    destruct k as [|text|a|tag|kind|tagname]; cbn [visit_contents];
      try reflexivity; try apply Hcs;
      rewrite !content_of_element by reflexivity; apply Hcs. }
  destruct k as [|text|a|tag|kind|tagname]; try exact Hother.
  destruct tag as [name|family|size|justify|color|color|indent par_indent
                  | |kind|name]; try exact Hother.
  - (* an indent *)
    cbn [walk_items].
    assert (Hindent :
              List.filter is_content_item
                (visit_contents
                   (Node (TagDom (RichTextIndentTag indent par_indent))
                         (flat_map (walk_items true) cs)))
              = List.filter is_content_item
                  (visit_contents
                     (Node (TagDom (RichTextIndentTag indent par_indent)) cs))).
    { cbn [visit_contents].
      rewrite !content_of_element by reflexivity. apply Hcs. }
    destruct within_indent; cbn [flat_map]; rewrite app_nil_r;
      [|exact Hindent].
    cbn [visit_contents flat_map]. rewrite app_nil_r.
    rewrite content_of_element by reflexivity.
    exact Hindent.
  - (* a paragraph *)
    cbn [walk_items]. destruct within_indent.
    + cbn [flat_map visit_contents]. rewrite app_nil_r.
      rewrite !content_of_element by reflexivity. reflexivity.
    + cbn [visit_contents].
      rewrite content_of_element by reflexivity. reflexivity.
Qed.

Lemma walk_items_no_par_children (within_indent : bool) (cs : list Dom) :
  Forall (fun c => forall w,
              pars_hold_no_par c = true ->
              existsb has_par (walk_items w c) = false) cs ->
  forallb pars_hold_no_par cs = true ->
  existsb has_par (flat_map (walk_items within_indent) cs) = false.
Proof.
  induction 1 as [|c cs Hc _ IH]; intros Hall; [reflexivity|].
  cbn [forallb] in Hall. apply andb_prop in Hall. destruct Hall as (H1 & H2).
  cbn [flat_map]. rewrite existsb_app, (Hc _ H1), (IH H2). reflexivity.
Qed.

Lemma walk_items_removes_pars (d : Dom) :
  forall within_indent,
    pars_hold_no_par d = true ->
    existsb has_par (walk_items within_indent d) = false.
Proof.
  induction d as [k cs IH] using Dom_children_ind.
  intros within_indent Hd. cbn [pars_hold_no_par] in Hd.
  apply andb_prop in Hd. destruct Hd as (Hpar & Hcs).
  pose proof (fun w => walk_items_no_par_children w cs IH Hcs) as Hwalked.
  assert (Hother : is_par_dom k = false ->
            existsb has_par [Node k (flat_map (walk_items within_indent) cs)]
            = false).
  { intros Hk. cbn [existsb has_par]. rewrite Hk, Hwalked. reflexivity. }
  destruct k as [|text|a|tag|kind|tagname]; try (apply Hother; reflexivity).
  destruct tag as [name|family|size|justify|color|color|indent par_indent
                  | |kind|name]; try (apply Hother; reflexivity).
  - cbn [walk_items]. destruct within_indent; cbn [existsb has_par is_par_dom];
      rewrite Hwalked; reflexivity.
  - cbn [is_par_dom] in Hpar. apply negb_true_iff in Hpar.
    cbn [walk_items]. destruct within_indent; [|exact Hpar].
    cbn [existsb has_par is_par_dom]. rewrite Hpar. reflexivity.
Qed.

End FirstWalk.

(** X24.  The first walk of [prepare_dom_write] (paragraphs become list
    items within an indent and are taken away outside of one, indents
    within an indent get a list item around them) keeps the texts and
    anchors of the tree, in their order; and when no paragraph holds a
    paragraph, it leaves no paragraph element in the tree. *)
Theorem first_walk_removes_paragraphs (within_indent : bool) (dom : Dom) :
  List.filter is_content_item
    (flat_map visit_contents (walk_items within_indent dom))
  = List.filter is_content_item (visit_contents dom)
  /\ (pars_hold_no_par dom = true ->
      existsb has_par (walk_items within_indent dom) = false).
Proof.
  split; [apply walk_items_keeps_content|apply walk_items_removes_pars].
Qed.

(** ** A bullet item, written *)

Section BulletLine.

(** A bulleted item of level 1 holding one line of text. *)
Definition bullet_line_stream (line : string) : list item :=
  [BeginTag (RichTextIndentTag 1 par_bullet); Text (line ++ NL);
   EndTag (RichTextIndentTag 1 par_bullet)].

(** What [find_paragraphs] and [nest_indent_tags] make of it, with the
    indent tag the registry gives for level 1. *)
Definition bullet_line_nested (indent_tag : RichTextTag) (line : string)
  : list item :=
  [BeginTag indent_tag; BeginTag P_BULLET_TAG; Text (line ++ NL);
   EndTag P_BULLET_TAG; EndTag indent_tag].

Definition bullet_line_html (line : string) : string :=
  "<ol><li style=" ++ dquote ++ "list-style-type: disc" ++ dquote ++ ">"
  ++ write_text line ++ "</li>" ++ NL ++ "</ol>" ++ NL.

Lemma substring_whole (s : string) : substring 0 (String.length s) s = s.
Proof.
  induction s as [|c s IH]; [reflexivity|].
  cbn [String.length substring]. rewrite IH. reflexivity.
Qed.

Lemma text_loop_line (text : string) (k : par_kind) (top : RichTextTag)
      (stack : list RichTextTag) (i : nat) :
  forall (line : string) (j : nat) (lj : option nat),
    lacks nl line = true ->
    text_loop text k (line ++ NL) j true (top :: stack) i lj
    = Ok ([Text (slice i (j + String.length line + 1) text); EndTag top],
          (false, stack, (j + String.length line + 1)%nat,
           Some (j + String.length line)%nat)).
Proof.
  induction line as [|c line IH]; intros j lj Hline.
  - cbn [append NL text_loop open_par]. rewrite Ascii.eqb_refl.
    cbn [text_loop bind app String.length].
    rewrite !Nat.add_0_r. reflexivity.
  - cbn [lacks] in Hline. apply andb_prop in Hline.
    destruct Hline as (Hc & Hline). apply negb_true_iff in Hc.
    cbn [append text_loop open_par]. rewrite Hc.
    rewrite (IH (S j) (Some j) Hline). cbn [bind app String.length].
    replace (S j + String.length line + 1)%nat
      with (j + S (String.length line) + 1)%nat by lia.
    replace (S j + String.length line)%nat
      with (j + S (String.length line))%nat by lia.
    reflexivity.
Qed.

Lemma bullet_line_paragraphs (line : string) :
  lacks nl line = true ->
  find_paragraphs (bullet_line_stream line)
  = Ok (bullet_line_nested (RichTextIndentTag 1 par_bullet) line).
Proof.
  intros Hline. unfold find_paragraphs, bullet_line_stream.
  cbn [par_loop par_item par_init bind others par_type within_par par_stack
       loop_j open_par app pars].
  rewrite (text_loop_line _ _ _ _ _ line 0 None Hline).
  cbn [bind Nat.add].
  replace (String.length line + 1 <? String.length line + 1)%nat with false
    by (symmetry; apply Nat.ltb_irrefl).
  cbn [bind par_loop par_item others par_type within_par par_stack loop_j
       par_finish app].
  unfold bullet_line_nested, slice. rewrite Nat.sub_0_r.
  replace (String.length line + 1)%nat with (String.length (line ++ NL))
    by (rewrite string_length_app; reflexivity).
  rewrite substring_whole. reflexivity.
Qed.

Lemma bullet_line_nesting (tag_table : TagTable) (line : string) :
  nest_indent_tags (bullet_line_nested (RichTextIndentTag 1 par_bullet) line)
                   tag_table
  = Ok (bullet_line_nested (tag_table (tag_name 1)) line).
Proof. reflexivity. Qed.

Lemma chop_rightmost_text (s : string) :
  chop_rightmost (Node (TextDom s) [])
  = Node (TextDom (if endswith s NL then drop_last s else s)) [].
Proof.
  cbn [chop_rightmost text_ends_nl chop_last].
  destruct (endswith s NL); reflexivity.
Qed.

Lemma rev_string_app (a b : string) :
  forall acc, rev_string acc (a ++ b) = rev_string (rev_string acc a) b.
Proof.
  induction a as [|c a IH]; intros acc; [reflexivity|].
  cbn [append rev_string]. apply IH.
Qed.

Lemma line_ends_with_newline (line : string) :
  endswith (line ++ NL) NL = true /\ drop_last (line ++ NL) = line.
Proof.
  split.
  - unfold endswith. rewrite rev_string_app.
    cbn [NL rev_string prefix].
    destruct (Ascii.ascii_dec nl nl); [|congruence].
    destruct (rev_string "" line); reflexivity.
  - unfold drop_last. rewrite string_length_app.
    replace (String.length line + String.length NL - 1)%nat
      with (String.length line) by (cbn [NL String.length]; lia).
    exact (substring_app_mid "" line NL).
Qed.

Lemma bullet_line_dom (n : Z) (p : par_kind) (line : string) :
  prepare_dom_write (build (bullet_line_nested (RichTextIndentTag n p) line))
  = Node TextBufferDom
         [Node (TagDom (RichTextIndentTag n p))
               [Node (LiHtmlTagDom par_bullet) [text_node line]]].
Proof.
  destruct (line_ends_with_newline line) as (Hends & Hdrop).
  unfold prepare_dom_write, build, bullet_line_nested.
  cbv -[chop_rightmost append NL].
  rewrite !chop_rightmost_text, Hends, Hdrop.
  cbv -[append NL]. reflexivity.
Qed.

End BulletLine.

(** X25.  The write path of the end-to-end example, for every line: with a
    registry that gives an Indent tag for the name of level 1, tag names
    that are not ignored, and a normalization that leaves the nested stream
    as it is, a bulleted item of level 1 holding one line of text and its
    newline is written in partial mode as
    [<ol><li style="list-style-type: disc">], the line as [write_text]
    escapes it, [</li>], a newline, [</ol>], a newline: the newline of the
    item is not written as a line break. *)
Theorem bullet_line_is_written
        (normalize_tags : list item -> (RichTextTag -> bool) -> list item)
        (IGNORE_TAGS : list string) (tag_table : TagTable)
        (n : Z) (p : par_kind) (line : string) :
  lacks nl line = true ->
  tag_table (tag_name 1) = RichTextIndentTag n p ->
  str_in (tag_property_name (RichTextIndentTag n p)) IGNORE_TAGS = false ->
  str_in "li" IGNORE_TAGS = false ->
  normalize_tags (bullet_line_nested (RichTextIndentTag n p) line)
                 is_stable_tag
  = bullet_line_nested (RichTextIndentTag n p) line ->
  write normalize_tags IGNORE_TAGS (bullet_line_stream line) tag_table true
  = Ok (bullet_line_html line).
Proof.
  intros Hline Htab Hindent Hli Hnorm.
  unfold write. rewrite (bullet_line_paragraphs line Hline). cbn [bind].
  rewrite bullet_line_nesting. cbn [bind].
  rewrite Htab, Hnorm, bullet_line_dom.
  cbn [write_dom kind_of tag_of text_node].
  assert (Hol : write_tag_begin IGNORE_TAGS (TagDom (RichTextIndentTag n p))
                                (RichTextIndentTag n p) = Ok "<ol>").
  { unfold write_tag_begin. rewrite Hindent. reflexivity. }
  assert (Hitem : write_tag_begin IGNORE_TAGS (LiHtmlTagDom par_bullet) LI_TAG
                  = Ok ("<li style=" ++ dquote ++ "list-style-type: disc"
                        ++ dquote ++ ">")%string).
  { unfold write_tag_begin. change (tag_property_name LI_TAG) with "li".
    rewrite Hli. reflexivity. }
  rewrite Hol, Hitem. cbn [bind].
  unfold bullet_line_html, write_tag_end.
  change (lookup_str (tag_property_name LI_TAG) _buffer_tag2html)
    with (@None string).
  change (str_in (tag_property_name LI_TAG) _justify) with false.
  change (lookup_str (tag_property_name (RichTextIndentTag n p))
                     _buffer_tag2html) with (@None string).
  change (str_in (tag_property_name (RichTextIndentTag n p)) _justify)
    with false.
  cbn [LI_TAG is_li_dom]. unfold dquote. cbn [append].
  rewrite !string_app_nil_r, !string_app_assoc. reflexivity.
Qed.

Lemma bullet_line_is_written_witness :
  write (fun contents _ => contents) ["gtkspell-misspelled"]
        (bullet_line_stream "item one") lookup_tag true
  = Ok ("<ol><li style=" ++ dquote ++ "list-style-type: disc" ++ dquote
        ++ ">item one</li>" ++ NL ++ "</ol>" ++ NL)%string.
Proof.
  apply (bullet_line_is_written
           (fun contents _ => contents) ["gtkspell-misspelled"] lookup_tag
           1%Z par_none "item one").
  - reflexivity.
  - exact (lookup_tag_indent 1).
  - reflexivity.
  - reflexivity.
  - reflexivity.
Defined.
